(** * QP-Wasser (LabData Manager): classification, validation and selection

  A shallow embedding of the domain logic of the repository:
  - [services/csvService.ts]            ([CsvService])
  - [components/DataSelection.tsx]      ([DataSelection])
  - [components/IonBalanceAnalysis.tsx] ([IonBalanceAnalysis])
  - [components/ReportView.tsx]         ([ReportView])

  Text is modelled with [string], one [ascii] per character: the
  input file is decoded with a single-byte encoding (ISO-8859-1), so a
  character of the file is a code below 256. *)

From Stdlib Require Import ZArith QArith Qround Qabs Qpower Lqa Ascii String List Lia Bool.
From stdpp Require Import gmap strings list sorting.

#[local] Set Warnings "-clear-no-such-hyp".

Local Open Scope Z_scope.

(** ** JavaScript strings *)

Module JsString.

Definition code (c : ascii) : N := N_of_ascii c.

(** [String.prototype.toUpperCase] on one character. ASCII and Latin-1
    lower-case letters move down by 32; the sharp s (223) becomes ["SS"].
    The two Latin-1 letters whose capital lies outside the single-byte
    range (181 and 255) are kept: no search string of the program, all of
    them ASCII, can tell the difference. *)
Definition upper_char (c : ascii) : string :=
  let n := code c in
  if ((97 <=? n) && (n <=? 122))%N then String (ascii_of_N (n - 32)) ""
  else if ((224 <=? n) && (n <=? 254) && negb (n =? 247))%N
       then String (ascii_of_N (n - 32)) ""
  else if (n =? 223)%N then "SS"
  else String c "".

Fixpoint toUpperCase (s : string) : string :=
  match s with
  | EmptyString => EmptyString
  | String c s' => upper_char c +:+ toUpperCase s'
  end.

(** [s.startsWith(p)] *)
Fixpoint startsWith (s p : string) {struct p} : bool :=
  match p, s with
  | EmptyString, _ => true
  | String _ _, EmptyString => false
  | String a p', String b s' => if decide (a = b) then startsWith s' p' else false
  end.

(** [s.includes(p)]: [p] occurs somewhere in [s]. *)
Fixpoint includes (s p : string) : bool :=
  startsWith s p ||
  match s with
  | EmptyString => false
  | String _ s' => includes s' p
  end.

(** White space and line terminators of the single-byte range, as
    [trim] and [parseFloat] strip them. *)
Definition is_space (c : ascii) : bool :=
  let n := code c in
  ((9 <=? n) && (n <=? 13) || (n =? 32) || (n =? 160))%N.

Fixpoint trimStart (s : string) : string :=
  match s with
  | EmptyString => EmptyString
  | String c s' => if is_space c then trimStart s' else s
  end.

(** Drops trailing white space: a character is kept when it is no space
    or when something is kept after it. *)
Fixpoint trimEnd (s : string) : string :=
  match s with
  | EmptyString => EmptyString
  | String c s' =>
      match trimEnd s' with
      | EmptyString => if is_space c then EmptyString else String c EmptyString
      | r => String c r
      end
  end.

Definition trim (s : string) : string := trimEnd (trimStart s).

(** [String.prototype.toLowerCase] on one character of the single-byte
    range. *)
Definition lower_char (c : ascii) : ascii :=
  let n := code c in
  if ((65 <=? n) && (n <=? 90))%N then ascii_of_N (n + 32)
  else if ((192 <=? n) && (n <=? 222) && negb (n =? 215))%N then ascii_of_N (n + 32)
  else c.

Fixpoint toLowerCase (s : string) : string :=
  match s with
  | EmptyString => EmptyString
  | String c s' => String (lower_char c) (toLowerCase s')
  end.

(** [s.replace(from, to)] for one-character texts: the first occurrence
    only. *)
Fixpoint replaceFirstChar (from to : ascii) (s : string) : string :=
  match s with
  | EmptyString => EmptyString
  | String c s' =>
      if decide (c = from) then String to s' else String c (replaceFirstChar from to s')
  end.

(** Truthiness of a string that may be [undefined] ([None]). *)
Definition truthy (v : option string) : bool :=
  match v with
  | None | Some EmptyString => false
  | Some _ => true
  end.

(** [v || ''] for a value that may be [undefined]. *)
Definition orEmpty (v : option string) : string := default "" v.

End JsString.

(** ** JavaScript arrays *)

Module JsArray.

Section sort.
Context {A : Type} (compareFn : A → A → Z).

(** [Array.prototype.sort] is stable: an element goes in front of the
    first element it compares strictly below, hence behind all elements
    it compares equal to. For a consistent comparator every stable sort
    gives this result. *)
Fixpoint insert (x : A) (l : list A) : list A :=
  match l with
  | [] => [x]
  | y :: l' => if compareFn x y <? 0 then x :: y :: l' else y :: insert x l'
  end.

Definition sort (l : list A) : list A :=
  fold_left (λ sorted x, insert x sorted) l [].

End sort.

(** [l.indexOf(x)], -1 when [x] does not occur. *)
Fixpoint indexOfFrom {A : Type} `{EqDecision A} (l : list A) (x : A) (i : Z) : Z :=
  match l with
  | [] => -1
  | y :: l' => if decide (y = x) then i else indexOfFrom l' x (i + 1)
  end.

Definition indexOf {A : Type} `{EqDecision A} (l : list A) (x : A) : Z :=
  indexOfFrom l x 0.
(** [l.join(sep)] *)
Fixpoint join (sep : string) (l : list string) : string :=
  match l with
  | [] => ""
  | [x] => x
  | x :: l' => x +:+ sep +:+ join sep l'
  end.

End JsArray.

(** ** Plain objects used as records

    An object created with [{}] and filled by [o[key] = value] with text
    values. The map holds its own properties. Every key makes an own
    property but ["__proto__"]: that name is an accessor inherited from
    [Object.prototype], and its setter ignores a value that is no object,
    so the assignment of a text leaves the object as it was. *)

Module JsObject.

Definition set (key value : string) (o : gmap string string) : gmap string string :=
  if decide (key = "__proto__") then o else <[key := value]> o.


(** The names under which a plain object finds a member of
    [Object.prototype] where it has no property of its own. *)
Definition prototypeKeys : list string :=
  ["__proto__"; "constructor"; "hasOwnProperty"; "isPrototypeOf";
   "propertyIsEnumerable"; "toLocaleString"; "toString"; "valueOf";
   "__defineGetter__"; "__defineSetter__"; "__lookupGetter__"; "__lookupSetter__"].

(** What [o[key]] gives on a record: the value of the object's own
    property, a member of [Object.prototype], or [undefined]. *)
Inductive Value (A : Type) :=
  | Own (v : A)
  | Inherited
  | Undefined.

Arguments Own {A} v.
Arguments Inherited {A}.
Arguments Undefined {A}.

Definition get {A : Type} (o : gmap string A) (key : string) : Value A :=
  match o !! key with
  | Some v => Own v
  | None => if decide (key ∈ prototypeKeys) then Inherited else Undefined
  end.

(** [o[key] = value] for a value that is an object (an array, a [Set]) on
    an object built from [{}]: under ["__proto__"] the inherited setter
    takes the value as the new prototype, and the object gets no property
    of its own. *)
Definition setObject {A : Type} (key : string) (value : A) (o : gmap string A)
  : gmap string A :=
  if decide (key = "__proto__") then o else <[key := value]> o.

(** The truth value of a text read from a record. A member of
    [Object.prototype] is an object or a function. *)
Definition truthy (val : Value string) : bool :=
  match val with
  | Own v => JsString.truthy (Some v)
  | Inherited => true
  | Undefined => false
  end.

(** [val && val.trim() !== ''] as a condition. A member of
    [Object.prototype] is truthy and has no [trim]: the call raises a
    [TypeError], which is [None] here. *)
Definition nonBlank (val : Value string) : option bool :=
  match val with
  | Own v => Some (JsString.truthy (Some v) && negb (String.eqb (JsString.trim v) ""))
  | Inherited => None
  | Undefined => Some false
  end.

End JsObject.

(** ** Decimal numerals *)

Module Decimal.

Definition digit_char (d : N) : ascii := ascii_of_N (48 + d).

Fixpoint digits_fuel (fuel : nat) (n : N) (acc : string) : string :=
  match fuel with
  | O => acc
  | S fuel' =>
      let acc' := String (digit_char (n mod 10)) acc in
      if (n / 10 =? 0)%N then acc' else digits_fuel fuel' (n / 10) acc'
  end.

(** The decimal numeral of [n], without leading zeros (["0"] for zero). A
    number has no more decimal than binary digits, which bounds the loop. *)
Definition decimal (n : N) : string :=
  digits_fuel (S (N.to_nat (N.log2 n))) n "".

End Decimal.

(** ** JavaScript numbers *)

(** A Number is NaN, an infinity or a finite double; a finite double is
    represented by the rational it denotes. The two zeros are one value
    here: they compare equal, and the program never divides by zero nor
    prints a zero whose sign would show. *)
Module JsNumber.
Import JsString.

Inductive number :=
  | NaN
  | Inf (negative : bool)
  | Fin (value : Q).

Definition isNaN (x : number) : bool :=
  match x with NaN => true | _ => false end.

Definition Qnegative (x : Q) : bool := negb (Qle_bool 0 x).

(** *** Rounding to binary64 *)

(** [floor (log2 x)] for [x > 0]: the difference of the bit lengths of
    numerator and denominator, or one less. *)
Definition flog2 (x : Q) : Z :=
  let k := Z.log2 (Qnum x) - Z.log2 (Zpos (Qden x)) in
  if Qle_bool (2 ^ k)%Q x then k else k - 1.

(** The nearest integer, halves to the even one. *)
Definition roundHalfEven (x : Q) : Z :=
  let f := Qfloor x in
  match (x - inject_Z f ?= 1 # 2)%Q with
  | Lt => f
  | Gt => f + 1
  | Eq => if Z.even f then f else f + 1
  end.

(** Round-to-nearest-even into binary64: 53 significant bits, least
    exponent -1022 (below it the spacing stays 2^-1074), overflow to
    infinity from 2^1024 on. *)
Definition round64 (x : Q) : number :=
  if Qeq_bool x 0 then Fin 0 else
  let a := Qabs x in
  let e := Z.max (flog2 a) (-1022) in
  let ulp := (2 ^ (e - 52))%Q in
  let v := (inject_Z (roundHalfEven (a / ulp)) * ulp)%Q in
  if Qle_bool (2 ^ 1024)%Q v then Inf (Qnegative x)
  else Fin (Qred (if Qnegative x then - v else v)%Q).

(** A decimal literal of the source text, such as [0.9]. *)
Definition lit (q : Q) : number := round64 q.

(** *** Comparison and division *)

Definition lt (x y : number) : bool :=
  match x, y with
  | NaN, _ | _, NaN => false
  | Fin a, Fin b => negb (Qle_bool b a)
  | Inf true, Inf true => false
  | Inf true, _ => true
  | _, Inf false => match x with Inf false => false | _ => true end
  | _, _ => false
  end.

Definition le (x y : number) : bool :=
  match x, y with
  | NaN, _ | _, NaN => false
  | Fin a, Fin b => Qle_bool a b
  | Inf true, _ => true
  | _, Inf false => true
  | _, _ => false
  end.

Definition gt (x y : number) : bool := lt y x.
Definition ge (x y : number) : bool := le y x.

(** [x !== y] *)
Definition strictNotEqual (x y : number) : bool :=
  match x, y with
  | Fin a, Fin b => negb (Qeq_bool a b)
  | Inf s, Inf t => negb (Bool.eqb s t)
  | _, _ => true
  end.

(** [x / y]. A zero divisor is taken as the positive zero. *)
Definition div (x y : number) : number :=
  match x, y with
  | NaN, _ | _, NaN => NaN
  | Inf _, Inf _ => NaN
  | Inf s, Fin b => Inf (xorb s (Qnegative b))
  | Fin _, Inf _ => Fin 0
  | Fin a, Fin b =>
      if Qeq_bool b 0
      then (if Qeq_bool a 0 then NaN else Inf (Qnegative a))
      else round64 (a / b)%Q
  end.

(** *** [parseFloat] *)

Definition is_digit (c : ascii) : bool :=
  let n := code c in ((48 <=? n) && (n <=? 57))%N.

Definition digit_value (c : ascii) : Z := Z.of_N (code c) - 48.

(** The longest prefix of decimal digits, and the rest. *)
Fixpoint span_digits (s : string) : list ascii * string :=
  match s with
  | EmptyString => ([], EmptyString)
  | String c s' =>
      if is_digit c
      then let (ds, rest) := span_digits s' in (c :: ds, rest)
      else ([], s)
  end.

Definition digits_value (ds : list ascii) : Z :=
  fold_left (λ acc c, 10 * acc + digit_value c) ds 0.

(** The exponent part [e], [e+] or [e-] followed by digits; 0 when there
    is none or it has no digit. *)
Definition parse_exponent (s : string) : Z :=
  match s with
  | String c s' =>
      if bool_decide (c = "e"%char ∨ c = "E"%char) then
        let '(negative, s'') :=
          match s' with
          | String "+" r => (false, r)
          | String "-" r => (true, r)
          | _ => (false, s')
          end in
        let (ds, _) := span_digits s'' in
        match ds with
        | [] => 0
        | _ => if negative then - digits_value ds else digits_value ds
        end
      else 0
  | EmptyString => 0
  end.

(** The longest prefix that is [Infinity] or a decimal literal (digits,
    optional point and digits, optional exponent), after the sign. *)
Definition parse_unsigned (negative : bool) (s : string) : number :=
  if startsWith s "Infinity" then Inf negative else
  let (ip, r1) := span_digits s in
  let (fp, r2) := match r1 with
                  | String "." r => span_digits r
                  | _ => ([], r1)
                  end in
  match ip ++ fp with
  | [] => NaN
  | ds =>
      let m := inject_Z (digits_value ds) in
      let e := parse_exponent r2 - Z.of_nat (length fp) in
      round64 ((if negative then - m else m) * 10 ^ e)%Q
  end.

Definition parseFloat (s : string) : number :=
  let t := trimStart s in
  match t with
  | String c r =>
      if decide (c = "-"%char) then parse_unsigned true r
      else if decide (c = "+"%char) then parse_unsigned false r
      else parse_unsigned false t
  | EmptyString => parse_unsigned false t
  end.

(** *** [toFixed] *)

(** [n] written with at least [width] digits. *)
Fixpoint padZeros (width : nat) (s : string) : string :=
  match width with
  | O => s
  | S w => if (String.length s <? width)%nat then padZeros w (String "0" s) else s
  end.

(** [x.toFixed(fractionDigits)]: the sign, then the integer [n] nearest to
    [|x| * 10^fractionDigits], the larger one of two, with the point put
    in. From 10^21 on JavaScript switches to exponent notation; the same
    number is written here with all its digits, which reads back as the
    same value. *)
Definition toFixed (x : number) (fractionDigits : nat) : string :=
  match x with
  | NaN => "NaN"
  | Inf false => "Infinity"
  | Inf true => "-Infinity"
  | Fin q =>
      let sign := if Qnegative q then "-" else "" in
      let a := Qabs q in
      if Qle_bool (10 ^ 21)%Q a then sign +:+ Decimal.decimal (Z.to_N (Qfloor a))
      else
        let scale := (10 ^ Z.of_nat fractionDigits)%Z in
        let n := Qfloor (a * inject_Z scale + (1 # 2))%Q in
        let whole := Decimal.decimal (Z.to_N (n / scale)) in
        match fractionDigits with
        | O => sign +:+ whole
        | _ => sign +:+ whole +:+ "." +:+
               padZeros fractionDigits (Decimal.decimal (Z.to_N (n mod scale)))
        end
  end.

End JsNumber.

(** ** Regular expressions of the program *)

Module RegExp.
Import JsString.

(** [/\d+\.\d+$/] tried at the start of [s]. Each [\d+] takes the whole run
    of digits: giving one back leaves a digit where the point or the end
    has to be. *)
Definition numericSuffixAt (s : string) : bool :=
  let (d1, r1) := JsNumber.span_digits s in
  match d1, r1 with
  | _ :: _, String c r =>
      if decide (c = "."%char) then
        let (d2, r2) := JsNumber.span_digits r in
        match d2, r2 with
        | _ :: _, EmptyString => true
        | _, _ => false
        end
      else false
  | _, _ => false
  end.

(** [s.replace(/\d+\.\d+$/, '')]: the match that starts first is taken out;
    it reaches to the end of the text. *)
Fixpoint replaceNumericSuffix (s : string) : string :=
  if numericSuffixAt s then EmptyString
  else match s with
       | EmptyString => EmptyString
       | String c s' => String c (replaceNumericSuffix s')
       end.

(** The alternative [M\d+\.] at the start of [s]. *)
Definition mDigitsPointAt (s : string) : bool :=
  match s with
  | String c r =>
      if decide (c = "M"%char) then
        let (d, r') := JsNumber.span_digits r in
        match d, r' with
        | _ :: _, String c' _ => bool_decide (c' = "."%char)
        | _, _ => false
        end
      else false
  | EmptyString => false
  end.

(** [(ICP|IC|TOC|TIT|M\d+\.|HH\+PHM|LFLFM)] at the start of [s]. *)
Definition devicePatternAt (s : string) : bool :=
  startsWith s "ICP" || startsWith s "IC" || startsWith s "TOC" || startsWith s "TIT"
  || mDigitsPointAt s || startsWith s "HH+PHM" || startsWith s "LFLFM".

(** [/(ICP|IC|TOC|TIT|M\d+\.|HH\+PHM|LFLFM)/.test(s)]: the pattern matches
    at some position. *)
Fixpoint testDevicePattern (s : string) : bool :=
  devicePatternAt s ||
  match s with
  | EmptyString => false
  | String _ s' => testDevicePattern s'
  end.

End RegExp.

(** ** Sets in insertion order

    A [Set] with its insertion order, for the places where the
    program iterates over it. *)

Module JsSet.

Definition add {A : Type} `{EqDecision A} (x : A) (s : list A) : list A :=
  if decide (x ∈ s) then s else s ++ [x].


End JsSet.

(** ** Data model ([types.ts]) *)

Record LabDataRow := {
  id : string;
  seriesId : string;
  sampleId : string;
  isRepeat : bool;
  rawRepeatValue : string;
  results : gmap string string
}.

Record ParsedDataset := {
  fileName : string;
  uploadDate : Z;
  resultHeaders : list string;
  data : list LabDataRow
}.

(** [Set<string>] is a finite set and [Record<string, Set<string>>] a finite
    map: the program only asks for membership, size and iteration with
    [some]/[every], none of which sees the insertion order. *)
Record SelectionState := {
  selectedRowIds : gset string;
  rowParams : gmap string (gset string)
}.

(** ** Device groups *)

Inductive DeviceGroup := pH_LF_TIT | TOC | IC | ICP_OES | Sonstige.

Global Instance DeviceGroup_eq_dec : EqDecision DeviceGroup.
Proof. solve_decision. Defined.

Definition GROUP_ORDER : list DeviceGroup := [pH_LF_TIT; TOC; IC; ICP_OES; Sonstige].

(** The chemical sets of the [P]/[S]/[N] buttons. *)
Module ChemSet.
Inductive t := P | S | N.
End ChemSet.

(** ** [services/csvService.ts] *)

Module CsvService.
Import JsString.

Record HeaderMapping := { name : string; originalIndex : nat }.

(** The promise either rejects with the error thrown or resolves with the
    dataset. *)
Inductive Outcome :=
  | Rejected (message : string)
  | Resolved (dataset : ParsedDataset).

(** "Die Datei scheint leer zu sein oder hat nicht genügend Zeilen (Header + Daten)." *)
Definition errTooFewRows : string :=
  "Die Datei scheint leer zu sein oder hat nicht gen" +:+ String (ascii_of_N 252)
    "gend Zeilen (Header + Daten).".
Definition errNoHeaderRow : string :=
  "Konnte die Header-Zeile (Zeile 2) nicht lesen.".

Definition headerRowIndex : nat := 1.
Definition dataStartIndex : nat := 2.
Definition resultStartIndex : nat := 7.

(** [val ? val.trim() : ''] for a cell that may be out of range. *)
Definition trimmedOrEmpty (val : option string) : string :=
  if truthy val then trim (orEmpty val) else "".

(** The header loop, from column [i] on, over the cells not yet visited. *)
Fixpoint collectHeaders (i : nat) (cells : list string)
    (headerMapping : list HeaderMapping) : list HeaderMapping :=
  match cells with
  | [] => headerMapping
  | headerName :: cells' =>
      collectHeaders (S i) cells'
        (if truthy (Some headerName) && negb (String.eqb (trim headerName) "")
         then headerMapping ++ [{| name := trim headerName; originalIndex := i |}]
         else headerMapping)
  end.

(** [!row || row.length < 2 || (row.length === 1 && row[0] === '')] *)
Definition skipRow (row : option (list string)) : bool :=
  match row with
  | None => true
  | Some cells =>
      (length cells <? 2)%nat
      || ((length cells =? 1)%nat && bool_decide (cells !! 0%nat = Some ""))
  end.

(** The [forEach] over the sorted mapping: a later item of the same name
    overwrites the entry of an earlier one. *)
Definition buildResults (headerMapping : list HeaderMapping) (cells : list string)
  : gmap string string :=
  fold_left (λ resultValues mapItem,
               JsObject.set (name mapItem)
                 (trimmedOrEmpty (cells !! originalIndex mapItem)) resultValues)
            headerMapping ∅.

Definition buildRow (headerMapping : list HeaderMapping) (i : nat)
    (cells : list string) : LabDataRow :=
  let resultValues := buildResults headerMapping cells in
  let repeatVal := trimmedOrEmpty (cells !! 3%nat) in
  {| id := "row-" +:+ Decimal.decimal (N.of_nat i);
     seriesId := trimmedOrEmpty (cells !! 0%nat);
     sampleId := trimmedOrEmpty (cells !! 1%nat);
     isRepeat := String.eqb repeatVal "2";
     rawRepeatValue := repeatVal;
     results := resultValues |}.

(** The data loop, from row [i] on, over the rows not yet visited. *)
Fixpoint parseRows (headerMapping : list HeaderMapping) (i : nat)
    (rows : list (option (list string))) (parsedData : list LabDataRow)
  : list LabDataRow :=
  match rows with
  | [] => parsedData
  | row :: rows' =>
      parseRows headerMapping (S i) rows'
        (match row with
         | Some cells =>
             if skipRow row then parsedData
             else parsedData ++ [buildRow headerMapping i cells]
         | None => parsedData
         end)
  end.

Section parse.
(** [a.localeCompare(b, 'de')], the collation of the host. *)
Variable localeCompareDe : string → string → Z.

Definition sortedMapping (headerRow : list string) : list HeaderMapping :=
  JsArray.sort (λ a b, localeCompareDe (name a) (name b))
    (collectHeaders resultStartIndex (drop resultStartIndex headerRow) []).

(** The [complete] callback of the CSV reader. [rawRows] is what the
    reader delivers: possibly nothing, and rows that may be missing
    ([None]), which is what the guards [!rawRows], [!headerRow] and
    [!row] test. [now] is the time of the call. *)
Definition parseLabDataCsv (fileName_ : string) (now : Z)
    (rawRows : option (list (option (list string)))) : Outcome :=
  match rawRows with
  | None => Rejected errTooFewRows
  | Some rawRows =>
      if (length rawRows <? 3)%nat then Rejected errTooFewRows
      else match rawRows !! headerRowIndex with
           | Some (Some headerRow) =>
               let headerMapping := sortedMapping headerRow in
               let sortedResultHeaders := map name headerMapping in
               let parsedData :=
                 parseRows headerMapping dataStartIndex
                   (drop dataStartIndex rawRows) [] in
               Resolved {| fileName := fileName_;
                           uploadDate := now;
                           resultHeaders := sortedResultHeaders;
                           data := parsedData |}
           | _ => Rejected errNoHeaderRow
           end
  end.

End parse.

End CsvService.

(** ** [components/DataSelection.tsx] *)

Module DataSelection.
Import JsString.

Definition getDeviceGroup (headerBase : string) : DeviceGroup :=
  let h := toUpperCase headerBase in
  if includes h "TIT" || includes h "M1." || includes h "M3." || includes h "M8."
     || includes h "HH+PHM" || includes h "LFLFM" then pH_LF_TIT
  else if includes h "TOC" then TOC
  else if includes h "ICP" then ICP_OES
  else if includes h "IC" then IC
  else Sonstige.

(** The state updaters passed to [setSelection]: each maps the previous
    selection to the next one. *)

Definition toggleRow (id : string) (prev : SelectionState) : SelectionState :=
  let newSet := selectedRowIds prev in
  {| selectedRowIds := if decide (id ∈ newSet) then newSet ∖ {[id]} else newSet ∪ {[id]};
     rowParams := rowParams prev |}.

Definition toggleRowParam (rowId baseParam : string) (prev : SelectionState)
  : SelectionState :=
  let currentParams := match rowParams prev !! rowId with
                       | Some ps => ps
                       | None => ∅
                       end in
  let currentParams := if decide (baseParam ∈ currentParams)
                       then currentParams ∖ {[baseParam]}
                       else currentParams ∪ {[baseParam]} in
  {| selectedRowIds := selectedRowIds prev;
     rowParams := <[rowId := currentParams]> (rowParams prev) |}.

Definition toggleAllParamsForRow (rowId : string) (availableParams : list string)
    (prev : SelectionState) : SelectionState :=
  let currentParams := default ∅ (rowParams prev !! rowId) in
  let allSelected := forallb (λ p, bool_decide (p ∈ currentParams)) availableParams in
  let newParams := if allSelected
                   then currentParams ∖ list_to_set availableParams
                   else currentParams ∪ list_to_set availableParams in
  {| selectedRowIds := selectedRowIds prev;
     rowParams := <[rowId := newParams]> (rowParams prev) |}.

Definition toggleGroupForRow (rowId : string) (group : DeviceGroup)
    (rowParams_ : list string) (prev : SelectionState) : SelectionState :=
  let paramsInGroup := List.filter (λ p, bool_decide (getDeviceGroup p = group)) rowParams_ in
  match paramsInGroup with
  | [] => prev
  | _ =>
      let currentParams := default ∅ (rowParams prev !! rowId) in
      let allInGroupSelected :=
        forallb (λ p, bool_decide (p ∈ currentParams)) paramsInGroup in
      let newParams := if allInGroupSelected
                       then currentParams ∖ list_to_set paramsInGroup
                       else currentParams ∪ list_to_set paramsInGroup in
      {| selectedRowIds := selectedRowIds prev;
         rowParams := <[rowId := newParams]> (rowParams prev) |}
  end.

(** The filter predicate of [toggleChemSet] for each set. *)
Definition chemSetMatch (type : ChemSet.t) (p : string) : bool :=
  let u := toUpperCase p in
  match type with
  | ChemSet.P => includes u "PPO4IC" || includes u "PPGESICP"
  | ChemSet.S => includes u "SSO4IC" || includes u "SSGESICP"
  | ChemSet.N => includes u "NNGESTOC" || includes u "NNH4IC" || includes u "NNO2IC"
                 || includes u "NNO3IC" || includes u "CGES"
  end.

(** [rowParams_] is the list of the row's available base parameters the
    caller passes in. With no target the function returns before
    [setSelection]: the state stays as it is. *)
Definition toggleChemSet (rowId : string) (type : ChemSet.t)
    (rowParams_ : list string) (prev : SelectionState) : SelectionState :=
  let targetParams := List.filter (chemSetMatch type) rowParams_ in
  match targetParams with
  | [] => prev
  | _ =>
      let newParams : gset string := list_to_set targetParams in
      {| selectedRowIds := selectedRowIds prev;
         rowParams := <[rowId := newParams]> (rowParams prev) |}
  end.

(** *** Headers, base names and the parameters of a row *)

(** [dataset.resultHeaders.filter(h => pattern.test(h.toUpperCase()))] *)
Definition relevantHeaders (dataset : ParsedDataset) : list string :=
  List.filter (λ h, RegExp.testDevicePattern (toUpperCase h)) (resultHeaders dataset).

Definition getBaseName (header : string) : string := RegExp.replaceNumericSuffix header.

Section rowAvailableParams.
(** [a.localeCompare(b)], the collation of the host. *)
Variable localeCompare : string → string → Z.

Definition compareParams (a b : string) : Z :=
  let gA := getDeviceGroup a in
  let gB := getDeviceGroup b in
  let idxA := JsArray.indexOf GROUP_ORDER gA in
  let idxB := JsArray.indexOf GROUP_ORDER gB in
  if negb (idxA =? idxB) then idxA - idxB
  else localeCompare a b.

(** The body of [dataset.data.forEach] in [rowAvailableParams]: the sorted
    list stored for one row, or [None] when reading a value raises. *)
Definition availableParams (relevantHeaders : list string) (row : LabDataRow)
  : option (list string) :=
  available ←
    fold_left (λ (acc : option (list string)) h,
                 available ← acc;
                 hasValue ← JsObject.nonBlank (JsObject.get (results row) h);
                 Some (if hasValue : bool then JsSet.add (getBaseName h) available
                       else available))
              relevantHeaders (Some []);
  Some (JsArray.sort compareParams available).

Definition rowAvailableParams (dataset : ParsedDataset)
  : option (gmap string (list string)) :=
  fold_left (λ (acc : option (gmap string (list string))) row,
               map ← acc;
               sorted ← availableParams (relevantHeaders dataset) row;
               Some (JsObject.setObject (id row) sorted map))
            (data dataset) (Some ∅).

End rowAvailableParams.


(** [toggleAllRows]: the test reads the selection of the current render,
    the updaters the previous state. *)
Definition toggleAllRows (dataset : ParsedDataset) (selection prev : SelectionState)
  : SelectionState :=
  if (size (selectedRowIds selection) =? length (data dataset))%nat
  then {| selectedRowIds := ∅; rowParams := rowParams prev |}
  else {| selectedRowIds := list_to_set (map id (data dataset));
          rowParams := rowParams prev |}.

End DataSelection.

(** ** The ion-balance computation

    [IonBalanceAnalysis.tsx] (the [processedData] callback) and
    [ReportView.tsx] (sheet "Ionenbilanz" of [handleExcelExport]) carry the
    same computation twice. [RowAnalysis] holds the local values of one
    pass; [bem] and [autoComment] are what ends up in the table, the
    formatted number columns are left out. *)

Record RowAnalysis := {
  valAlkalinity : option string;
  valCorg : option string;
  valCond : string;
  isCondFallback : bool;
  numCorg : JsNumber.number;
  numQuotientElf : JsNumber.number;
  numQuotientIons : JsNumber.number;
  numTheoCond : JsNumber.number;
  roundedQuotientIons : JsNumber.number;
  isIbOk : bool;
  numCond : JsNumber.number;
  isLfOk : bool;
  calculatedCondQuotient : JsNumber.number;
  bem : string;
  autoComment : string
}.

(** "gilt nur für Ideal verdünnte Lösungen" *)
Definition commentIdealDilute : string :=
  "gilt nur f" +:+ String (ascii_of_N 252) ("r Ideal verd" +:+ String (ascii_of_N 252)
    ("nnte L" +:+ String (ascii_of_N 246) "sungen")).

(** "Leitfähigkeit < 30" *)
Definition commentLowConductivity : string :=
  "Leitf" +:+ String (ascii_of_N 228) "higkeit < 30".

(** "alkalinität-gran" *)
Definition alkalinityPrefix : string :=
  "alkalinit" +:+ String (ascii_of_N 228) "t-gran".

Module IonBalanceAnalysis.
Import JsString JsNumber.

Definition parseGermanFloat (val : option string) : number :=
  if negb (truthy val) then NaN
  else
    let cleanVal := trim (replaceFirstChar "," "." (orEmpty val)) in
    parseFloat cleanVal.

(** [headers.find(p) || ''] *)
Definition findHeader (p : string → bool) (headers : list string) : string :=
  orEmpty (List.find p headers).

(** [col ? row.results[col] : ''] *)
Definition cellOf (row : LabDataRow) (col : string) : option string :=
  if truthy (Some col) then results row !! col else Some "".

(** [val && val.trim() !== ''] *)
Definition nonBlank (val : option string) : bool :=
  truthy val && negb (String.eqb (trim (orEmpty val)) "").

Definition processRow (headers : list string) (row : LabDataRow) : RowAnalysis :=
  let colAlkalinity :=
    findHeader (λ h, startsWith (toLowerCase h) alkalinityPrefix) headers in
  let colCorg := findHeader (String.eqb "Corg berechnet") headers in
  let colCond31 := findHeader (String.eqb "LFLFLFM3.1") headers in
  let colCond13 := findHeader (String.eqb "LFLFLFM1.3") headers in
  let colQuotientElf := findHeader (String.eqb "Quotient ELF_eu_korr") headers in
  let colQuotientIons :=
    findHeader (String.eqb "Quotient Kationen Anionen NFV") headers in
  let colTheoCond := findHeader (String.eqb "Theo elekt Leit (EU) korr") headers in

  let valAlkalinity := cellOf row colAlkalinity in
  let valCorg := cellOf row colCorg in
  let numCorg := parseGermanFloat valCorg in

  let val31 := cellOf row colCond31 in
  let val13 := cellOf row colCond13 in
  let '(valCond, isCondFallback) :=
    if nonBlank val31 then (orEmpty val31, false)
    else if nonBlank val13 then (orEmpty val13, true)
    else ("", false) in

  let valQuotientElf := cellOf row colQuotientElf in
  let valQuotientIons := cellOf row colQuotientIons in
  let valTheoCond := cellOf row colTheoCond in

  let numQuotientElf := parseGermanFloat valQuotientElf in
  let numQuotientIons := parseGermanFloat valQuotientIons in
  let numTheoCond := parseGermanFloat valTheoCond in

  let roundedQuotientIons :=
    if negb (isNaN numQuotientIons)
    then parseFloat (toFixed numQuotientIons 2)
    else NaN in

  let isIbOk := negb (isNaN roundedQuotientIons)
                && ge roundedQuotientIons (lit 0.9)
                && le roundedQuotientIons (lit 1.1) in

  let numCond := parseGermanFloat (Some valCond) in

  let '(calculatedCondQuotient, isLfOk) :=
    if negb (isNaN numCond) && negb (isNaN numTheoCond)
       && strictNotEqual numTheoCond (Fin 0)
    then
      let calculatedCondQuotient := div numCond numTheoCond in
      (calculatedCondQuotient,
       if gt numCond (Fin 20)
       then ge calculatedCondQuotient (lit 0.9) && le calculatedCondQuotient (lit 1.1)
       else if ge numCond (Fin 10)
       then ge calculatedCondQuotient (lit 0.8) && le calculatedCondQuotient (lit 1.2)
       else ge calculatedCondQuotient (lit 0.7) && le calculatedCondQuotient (lit 1.3))
    else (NaN, false) in

  let bem :=
    if negb (isRepeat row) then
      let hasIbData := negb (isNaN roundedQuotientIons) in
      let hasLfData := negb (isNaN calculatedCondQuotient) in
      if hasIbData && hasLfData then
        if isIbOk && isLfOk then "ok"
        else if isIbOk && negb isLfOk then "IB ok, LF nicht"
        else if negb isIbOk && isLfOk then "IB nicht ok ; LF ok"
        else "IB nicht ok + LF nicht ok"
      else if hasIbData && negb hasLfData then
        if isIbOk then "IB ok" else "IB nicht ok"
      else ""
    else "" in

  let autoComment :=
    if negb (isRepeat row) then
      let isDeviation := negb isIbOk || negb isLfOk in
      if isDeviation && negb (isNaN numCorg) && gt numCorg (Fin 20) then "Corg>20"
      else if isDeviation && negb (isNaN numCorg) && gt numCorg (Fin 10)
              && negb (isNaN numCond) && lt numCond (Fin 50) then "Corg>10 LTF<50"
      else if negb (isNaN numCond) && gt numCond (Fin 300) && negb isLfOk
      then commentIdealDilute
      else if isDeviation && negb (isNaN numCond) && lt numCond (Fin 30)
      then commentLowConductivity
      else ""
    else "" in

  {| valAlkalinity := valAlkalinity; valCorg := valCorg; valCond := valCond;
     isCondFallback := isCondFallback; numCorg := numCorg;
     numQuotientElf := numQuotientElf; numQuotientIons := numQuotientIons;
     numTheoCond := numTheoCond; roundedQuotientIons := roundedQuotientIons;
     isIbOk := isIbOk; numCond := numCond; isLfOk := isLfOk;
     calculatedCondQuotient := calculatedCondQuotient;
     bem := bem; autoComment := autoComment |}.

Section processedData.
(** [a.localeCompare(b, undefined, { numeric: true, sensitivity: 'base' })] *)
Variable localeCompareNumeric : string → string → Z.

Definition compareRows (a b : LabDataRow) : Z :=
  let idComparison := localeCompareNumeric (sampleId a) (sampleId b) in
  if negb (idComparison =? 0) then idComparison
  else Z.b2z (isRepeat a) - Z.b2z (isRepeat b).

Definition processedData (dataset : ParsedDataset) : list (LabDataRow * RowAnalysis) :=
  let sorted := JsArray.sort compareRows (data dataset) in
  let headers := resultHeaders dataset in
  map (λ row, (row, processRow headers row)) sorted.

End processedData.

(** *** Comments *)

(** The effect that fills in the comments: a row's auto-comment is stored
    unless [next[row.id]] is truthy. The assignment is reached only where
    the key is the object's own or no name of [Object.prototype], so it
    sets the object's own property. *)
Definition populateComments (processedData : list (LabDataRow * RowAnalysis))
    (prev : gmap string string) : gmap string string :=
  fold_left (λ next '(row, analysis),
               if truthy (Some (autoComment analysis))
                  && negb (JsObject.truthy (JsObject.get next (id row)))
               then <[id row := autoComment analysis]> next
               else next)
            processedData prev.

(** [{ ...prev, [rowId]: value }] *)
Definition handleCommentChange (rowId value : string) (prev : gmap string string)
  : gmap string string :=
  <[rowId := value]> prev.

(** *** [handleExport]: the lines of the CSV file *)

Definition formatGermanFloat (val : number) (decimals : nat) : string :=
  if isNaN val then ""
  else replaceFirstChar "." "," (toFixed val decimals).

(** The double quote. *)
Definition doubleQuote : ascii := "034"%char.

(** [val.replace] with the flag [g]: every double quote is written twice. *)
Fixpoint doubleQuotes (val : string) : string :=
  match val with
  | EmptyString => EmptyString
  | String c val' =>
      if decide (c = doubleQuote)
      then String doubleQuote (String doubleQuote (doubleQuotes val'))
      else String c (doubleQuotes val')
  end.

(** [escape]: the text, or the empty text for a value that is missing,
    with its double quotes written twice, between double quotes. *)
Definition escape (val : option string) : string :=
  String doubleQuote (doubleQuotes (orEmpty val) +:+ String doubleQuote EmptyString).

(** The fields of the line of a row. [comments[row.id] || ''] is a member
    of [Object.prototype] when the id is the name of one and the comments
    have no entry for it; [replace] is no function on it and [escape]
    raises a [TypeError], which is [None] here. *)
Definition csvFields (comments : gmap string string) (row : LabDataRow)
    (analysis : RowAnalysis) : option (list string) :=
  comment ←
    match JsObject.get comments (id row) with
    | JsObject.Own v => Some v
    | JsObject.Inherited => None
    | JsObject.Undefined => Some ""
    end;
  Some [ escape (Some (sampleId row));
         if isRepeat row then "ja" else "nein";
         escape (valAlkalinity analysis);
         escape (valCorg analysis);
         escape (Some (valCond analysis));
         escape (Some (formatGermanFloat (numQuotientElf analysis) 2));
         escape (Some (formatGermanFloat (numQuotientIons analysis) 2));
         escape (Some (formatGermanFloat (numTheoCond analysis) 1));
         escape (Some (formatGermanFloat (calculatedCondQuotient analysis) 2));
         escape (Some (bem analysis));
         escape (Some comment) ].

End IonBalanceAnalysis.

(** ** [components/ReportView.tsx] *)

Module ReportView.
Import JsString.

Definition getDeviceGroup (header : string) : DeviceGroup :=
  let h := toUpperCase header in
  if includes h "TIT" || includes h "M1." || includes h "M3." || includes h "M8."
     || includes h "HH+PHM" || includes h "LFLFM" then pH_LF_TIT
  else if includes h "TOC" then TOC
  else if includes h "ICP" then ICP_OES
  else if includes h "IC" then IC
  else Sonstige.

Record RowColor := { className : string; hexColor : string }.

Definition colorDefault := {| className := "bg-white"; hexColor := "FFFFFF" |}.
Definition colorP :=
  {| className := "bg-yellow-100 border-l-4 border-l-yellow-500"; hexColor := "FFFFCC" |}.
Definition colorS :=
  {| className := "bg-orange-100 border-l-4 border-l-orange-500"; hexColor := "FFDDBB" |}.
Definition colorN :=
  {| className := "bg-pink-100 border-l-4 border-l-pink-500"; hexColor := "FFCCFF" |}.
Definition colorPH :=
  {| className := "bg-purple-100 border-l-4 border-l-purple-500"; hexColor := "E6CCFF" |}.
Definition colorTOC_IC :=
  {| className := "bg-red-100 border-l-4 border-l-red-500"; hexColor := "FFCCCC" |}.
Definition colorIC_ICP :=
  {| className := "bg-blue-100 border-l-4 border-l-blue-500"; hexColor := "CCE5FF" |}.
Definition colorALL :=
  {| className := "bg-green-100 border-l-4 border-l-green-500"; hexColor := "CCFFCC" |}.

(** The body of [getRowColorClass] once [s = Array.from(activeParams)]. *)
Definition colorOfParams (s : list string) : RowColor :=
  if (length s =? 0)%nat then colorDefault else
  let has (partial : string) :=
    existsb (λ c, includes (toUpperCase c) (toUpperCase partial)) s in
  let hasTOC := has "TOC" in
  let hasIC := has "IC" in
  let hasICP := has "ICP" in
  let hasPH := has "TIT" || has "M1." || has "M3." || has "M8." || has "HH+PHM"
               || has "LFLFM" in
  let isYellow := (0 <? length s)%nat && forallb (λ c,
    let u := toUpperCase c in
    includes u "PPO4IC" || includes u "PPGESICP") s in
  if isYellow then colorP else
  let isOrange := (0 <? length s)%nat && forallb (λ c,
    let u := toUpperCase c in
    includes u "SSO4IC" || includes u "SSGESICP") s in
  if isOrange then colorS else
  let isPink := (0 <? length s)%nat && forallb (λ c,
    let u := toUpperCase c in
    includes u "NNGESTOC" || includes u "NNH4IC" || includes u "NNO2IC"
    || includes u "NNO3IC" || includes u "CGES") s in
  if isPink then colorN else
  if hasPH && negb hasTOC && negb hasIC && negb hasICP then colorPH else
  if hasTOC && hasIC && negb hasICP && negb hasPH then colorTOC_IC else
  if hasIC && hasICP && negb hasTOC && negb hasPH then colorIC_ICP else
  if hasTOC && hasIC && hasICP then colorALL else
  colorDefault.

Definition getRowColorClass (selection : SelectionState) (rowId : string) : RowColor :=
  let activeParams := default ∅ (rowParams selection !! rowId) in
  colorOfParams (elements activeParams).

(** *** Sheet "Ionenbilanz" of [handleExcelExport] *)

Definition parseGermanFloat (val : option string) : JsNumber.number :=
  if negb (truthy val) then JsNumber.NaN
  else
    let cleanVal := trim (replaceFirstChar "," "." (orEmpty val)) in
    JsNumber.parseFloat cleanVal.

Definition findHeader (p : string → bool) (h : list string) : string :=
  orEmpty (List.find p h).

Definition cellOf (row : LabDataRow) (col : string) : option string :=
  if truthy (Some col) then results row !! col else Some "".

Definition nonBlank (val : option string) : bool :=
  truthy val && negb (String.eqb (trim (orEmpty val)) "").

(** The body of [ibSorted.forEach], up to the cells pushed. *)
Definition ibRow (h : list string) (row : LabDataRow) : RowAnalysis :=
  let colAlk := findHeader (λ x, startsWith (toLowerCase x) alkalinityPrefix) h in
  let colCorg := findHeader (String.eqb "Corg berechnet") h in
  let colCond31 := findHeader (String.eqb "LFLFLFM3.1") h in
  let colCond13 := findHeader (String.eqb "LFLFLFM1.3") h in
  let colQElf := findHeader (String.eqb "Quotient ELF_eu_korr") h in
  let colQIon := findHeader (String.eqb "Quotient Kationen Anionen NFV") h in
  let colTheo := findHeader (String.eqb "Theo elekt Leit (EU) korr") h in

  let valAlk := cellOf row colAlk in
  let valC := cellOf row colCorg in
  let numCorg := parseGermanFloat valC in

  let v31 := cellOf row colCond31 in
  let v13 := cellOf row colCond13 in
  let '(valCond, isFallback) :=
    if nonBlank v31 then (orEmpty v31, false)
    else if nonBlank v13 then (orEmpty v13, true)
    else ("", false) in

  let valQE := cellOf row colQElf in
  let valQI := cellOf row colQIon in
  let valT := cellOf row colTheo in

  let nQI := parseGermanFloat valQI in
  let rQI := if negb (JsNumber.isNaN nQI)
             then JsNumber.parseFloat (JsNumber.toFixed nQI 2)
             else JsNumber.NaN in
  let isIbOk := negb (JsNumber.isNaN rQI)
                && JsNumber.ge rQI (JsNumber.lit 0.9)
                && JsNumber.le rQI (JsNumber.lit 1.1) in

  let nCond := parseGermanFloat (Some valCond) in
  let nTheo := parseGermanFloat valT in
  let nQElf := parseGermanFloat valQE in

  let '(cQ, isLfOk) :=
    if negb (JsNumber.isNaN nCond) && negb (JsNumber.isNaN nTheo)
       && JsNumber.strictNotEqual nTheo (JsNumber.Fin 0)
    then
      let cQ := JsNumber.div nCond nTheo in
      (cQ,
       if JsNumber.gt nCond (JsNumber.Fin 20)
       then JsNumber.ge cQ (JsNumber.lit 0.9) && JsNumber.le cQ (JsNumber.lit 1.1)
       else if JsNumber.ge nCond (JsNumber.Fin 10)
       then JsNumber.ge cQ (JsNumber.lit 0.8) && JsNumber.le cQ (JsNumber.lit 1.2)
       else JsNumber.ge cQ (JsNumber.lit 0.7) && JsNumber.le cQ (JsNumber.lit 1.3))
    else (JsNumber.NaN, false) in

  let bem :=
    if negb (isRepeat row) then
      if negb (JsNumber.isNaN rQI) && negb (JsNumber.isNaN cQ) then
        if isIbOk && isLfOk then "ok"
        else if isIbOk && negb isLfOk then "IB ok, LF nicht"
        else if negb isIbOk && isLfOk then "IB nicht ok ; LF ok"
        else "IB nicht ok + LF nicht ok"
      else if negb (JsNumber.isNaN rQI) then
        if isIbOk then "IB ok" else "IB nicht ok"
      else ""
    else "" in

  let autoComment :=
    if negb (isRepeat row) then
      let isDeviation := negb isIbOk || negb isLfOk in
      if isDeviation && negb (JsNumber.isNaN numCorg)
         && JsNumber.gt numCorg (JsNumber.Fin 20) then "Corg>20"
      else if isDeviation && negb (JsNumber.isNaN numCorg)
              && JsNumber.gt numCorg (JsNumber.Fin 10)
              && negb (JsNumber.isNaN nCond) && JsNumber.lt nCond (JsNumber.Fin 50)
      then "Corg>10 LTF<50"
      else if negb (JsNumber.isNaN nCond) && JsNumber.gt nCond (JsNumber.Fin 300)
              && negb isLfOk
      then commentIdealDilute
      else if isDeviation && negb (JsNumber.isNaN nCond)
              && JsNumber.lt nCond (JsNumber.Fin 30)
      then commentLowConductivity
      else ""
    else "" in

  {| valAlkalinity := valAlk; valCorg := valC; valCond := valCond;
     isCondFallback := isFallback; numCorg := numCorg;
     numQuotientElf := nQElf; numQuotientIons := nQI;
     numTheoCond := nTheo; roundedQuotientIons := rQI;
     isIbOk := isIbOk; numCond := nCond; isLfOk := isLfOk;
     calculatedCondQuotient := cQ;
     bem := bem; autoComment := autoComment |}.

(** The comment cell: [comments[row.id] || autoComment]. *)
Definition exportComment (comments : gmap string string) (row : LabDataRow)
    (analysis : RowAnalysis) : string :=
  if truthy (comments !! id row) then orEmpty (comments !! id row)
  else autoComment analysis.

(** *** [reportData] *)

Definition getBaseName (header : string) : string := RegExp.replaceNumericSuffix header.

Record OrderedHeader := { name : string; group : DeviceGroup; baseName : string }.

Section reportData.
(** [a.localeCompare(b, 'de')] and
    [a.localeCompare(b, undefined, { numeric: true })] *)
Variable localeCompareDe : string → string → Z.
Variable localeCompareNumeric : string → string → Z.

Definition allRelevantHeaders (dataset : ParsedDataset) : list string :=
  List.filter (λ h, RegExp.testDevicePattern (toUpperCase h)) (resultHeaders dataset).

(** [groupedHeaders[getDeviceGroup(h)].push(h)] on the record of the five
    lists, held as a function of the group. *)
Definition pushHeader (groupedHeaders : DeviceGroup → list string) (h : string)
  : DeviceGroup → list string :=
  λ g, if decide (g = getDeviceGroup h) then groupedHeaders g ++ [h] else groupedHeaders g.

Definition groupedHeaders (dataset : ParsedDataset) : DeviceGroup → list string :=
  let grouped := fold_left pushHeader (allRelevantHeaders dataset) (λ _, []) in
  λ g, JsArray.sort localeCompareDe (grouped g).

Definition orderedHeaders (dataset : ParsedDataset) : list OrderedHeader :=
  fold_left (λ orderedHeaders group,
               fold_left (λ orderedHeaders h,
                            orderedHeaders ++
                            [{| name := h; group := group; baseName := getBaseName h |}])
                         (groupedHeaders dataset group) orderedHeaders)
            GROUP_ORDER [].

Definition compareReportRows (a b : LabDataRow) : Z :=
  let seriesComp := localeCompareNumeric (seriesId a) (seriesId b) in
  if negb (seriesComp =? 0) then seriesComp
  else
    let idComp := localeCompareNumeric (sampleId a) (sampleId b) in
    if negb (idComp =? 0) then idComp
    else Z.b2z (isRepeat a) - Z.b2z (isRepeat b).

Definition reportRows (dataset : ParsedDataset) (selection : SelectionState)
  : list LabDataRow :=
  let selectedRows :=
    List.filter (λ r, bool_decide (id r ∈ selectedRowIds selection)) (data dataset) in
  JsArray.sort compareReportRows selectedRows.

End reportData.

(** [isCellActive]: the result is used as a condition only, so it is held
    as its truth value. A member of [Object.prototype] has no [has], and
    none has [trim]: the call raises a [TypeError], which is [None] here. *)
Definition isCellActive (selection : SelectionState) (row : LabDataRow)
    (headerBaseName headerFullName : string) : option bool :=
  isSelected ←
    match JsObject.get (rowParams selection) (id row) with
    | JsObject.Own params => Some (bool_decide (headerBaseName ∈ params))
    | JsObject.Inherited => None
    | JsObject.Undefined => Some false
    end;
  if negb isSelected then Some false
  else JsObject.nonBlank (JsObject.get (results row) headerFullName).

(** *** Sheet "Nachmessung" of [handleExcelExport]: the lines of the rows

    Cells are held by their value; styles are left out. *)

(** A cell reference in a formula: [XLSX.utils.encode_col] of the column
    index, followed by the number of the row; rows are numbered from 1. *)
Record CellRef := { refColumn : nat; refRow : nat }.

(** A cell with a text, a number, or the formula that gives the deviation
    [(new - old) / old] of the cell [newCellRef] from the cell [oldCellRef]
    unless [newCellRef] is blank. *)
Inductive SheetCell :=
  | TextCell (v : string)
  | NumberCell (v : JsNumber.number)
  | FormulaCell (newCellRef oldCellRef : CellRef).

(** The cell for a value of the row: a number where [parseFloat] reads one.
    [val.replace] on [undefined] or on a member of [Object.prototype]
    raises a [TypeError], which is [None] here. *)
Definition valueCell (val : JsObject.Value string) : option SheetCell :=
  match val with
  | JsObject.Own val =>
      let numVal := JsNumber.parseFloat (replaceFirstChar "," "." val) in
      Some (if JsNumber.isNaN numVal then TextCell val else NumberCell numVal)
  | JsObject.Inherited | JsObject.Undefined => None
  end.

(** The four lines pushed for one row of the report. *)
Definition rowLines (selection : SelectionState) (headers : list OrderedHeader)
    (currentRowIndex : nat) (row : LabDataRow) : option (list (list SheetCell)) :=
  let isRepeatStr := if isRepeat row then "2" else "1" in
  values ← mapM (λ h, valueCell (JsObject.get (results row) (name h))) headers;
  marks ← mapM (λ h, active ← isCellActive selection row (baseName h) (name h);
                     Some (TextCell (if negb active then "x" else "")))
               headers;
  let formulas :=
    imap (λ colIdx _,
            let oldCellRef := {| refColumn := colIdx + 3; refRow := currentRowIndex + 1 |} in
            let newCellRef := {| refColumn := colIdx + 3; refRow := currentRowIndex + 2 |} in
            FormulaCell newCellRef oldCellRef)
         headers in
  Some [ [TextCell (seriesId row); TextCell (sampleId row); TextCell isRepeatStr] ++ values;
         [TextCell ""; TextCell "Neu:"; TextCell ""] ++ marks;
         [TextCell ""; TextCell "Abw. %:"; TextCell ""] ++ formulas;
         [] ].

Section handleExcelExport.
Variable localeCompareDe : string → string → Z.
Variable localeCompareNumeric : string → string → Z.

(** [dataRows] after the loop over the rows of the report, before the
    legend is added. *)
Definition nachmessungRows (dataset : ParsedDataset) (selection : SelectionState)
  : option (list (list SheetCell)) :=
  let headers := orderedHeaders localeCompareDe dataset in
  let rows := reportRows localeCompareNumeric dataset selection in
  let headerRow := ["Serie"; "Probe"; "Wdh."] ++ map name headers in
  state ←
    fold_left (λ (acc : option (list (list SheetCell) * nat)) row,
                 state ← acc;
                 lines ← rowLines selection headers state.2 row;
                 Some (state.1 ++ lines, (state.2 + 4)%nat))
              rows (Some ([map TextCell headerRow], 1%nat));
  Some state.1.

End handleExcelExport.

End ReportView.

(** ** [App.tsx] *)

Module App.
Import JsString.

Definition getBaseParamName (header : string) : string :=
  RegExp.replaceNumericSuffix header.

(** The selection set up by [handleFileSelect] for a dataset just read: no
    row is selected, and every row gets the base names of its headers that
    have a value. [None] when reading a value raises: the selection is then
    not set. *)
Definition rowParamSet (headers : list string) (row : LabDataRow)
  : option (gset string) :=
  fold_left (λ (acc : option (gset string)) header,
               rowParamSet ← acc;
               hasValue ← JsObject.nonBlank (JsObject.get (results row) header);
               Some (if hasValue : bool
                     then rowParamSet ∪ {[getBaseParamName header]}
                     else rowParamSet))
            headers (Some ∅).

Definition initialSelection (data_ : ParsedDataset) : option SelectionState :=
  initialRowParams ←
    fold_left (λ (acc : option (gmap string (gset string))) row,
                 initialRowParams ← acc;
                 rowParamSet ← rowParamSet (resultHeaders data_) row;
                 Some (JsObject.setObject (id row) rowParamSet initialRowParams))
              (data data_) (Some ∅);
  Some {| selectedRowIds := ∅; rowParams := initialRowParams |}.

(** *** The selection on its way through the cloud

    [saveToCloud] posts [JSON.stringify] of the state, [loadFromCloud] reads
    it back with [response.json()]. Of the values that [JSON.stringify]
    writes for a selection, an array of strings comes back as it was; a
    [Set] has no enumerable property of its own and is written as [{}]. *)
Inductive Json :=
  | JStrings (items : list string)
  | JEmptyObject.

Record StoredSelection := {
  storedRowIds : Json;
  storedRowParams : gmap string Json
}.

(** [JSON.stringify] of a [Set]. *)
Definition stringifySet (s : gset string) : Json := JEmptyObject.

(** The [selection] member of the body posted by [saveToCloud]:
    [{ ...selection, selectedRowIds: Array.from(selection.selectedRowIds) }]. *)
Definition savedSelection (selection : SelectionState) : StoredSelection :=
  {| storedRowIds := JStrings (elements (selectedRowIds selection));
     storedRowParams := stringifySet <$> rowParams selection |}.

(** [new Set(v)]: the elements of an array; an object that is not iterable
    raises a [TypeError], which is [None] here. *)
Definition newSet (v : Json) : option (gset string) :=
  match v with
  | JStrings items => Some (list_to_set items)
  | JEmptyObject => None
  end.

(** The loop of [loadFromCloud] over [Object.keys(data.selection.rowParams)]:
    each value is replaced by [new Set] of it; the first one that raises
    ends the loop. *)
Definition restoreRowParams (entries : list (string * Json))
  : option (gmap string (gset string)) :=
  fold_left (λ (acc : option (gmap string (gset string))) (entry : string * Json),
               match acc with
               | None => None
               | Some params =>
                   match newSet entry.2 with
                   | None => None
                   | Some s => Some (<[entry.1 := s]> params)
                   end
               end)
            entries (Some ∅).

(** The selection rebuilt by [loadFromCloud], or [None] when building it
    raises. *)
Definition restoreSelection (stored : StoredSelection) : option SelectionState :=
  match newSet (storedRowIds stored) with
  | None => None
  | Some ids =>
      match restoreRowParams (map_to_list (storedRowParams stored)) with
      | None => None
      | Some params => Some {| selectedRowIds := ids; rowParams := params |}
      end
  end.

(** The selection after [loadFromCloud]: [setSelection] is reached only
    when nothing was raised before it. *)
Definition loadSelection (stored : StoredSelection) (current : SelectionState)
  : SelectionState :=
  match restoreSelection stored with
  | Some newSelection => newSelection
  | None => current
  end.

End App.

(** * Specification vocabulary and example data *)

(** ** Texts *)

(** [Contains p s]: the text [p] occurs in [s]. *)
Definition Contains (p s : string) : Prop := ∃ a b, s = a +:+ p +:+ b.

(** A list of characters that are all decimal digits. *)
Definition all_digits (ds : list ascii) : Prop :=
  Forall (λ c, JsNumber.is_digit c = true) ds.

(** ** Device groups, chemical sets and colours *)

(** The first test of the classification chain: one of the six pH/LF/TIT
    markers occurs. *)
Definition pH_marker (u : string) : Prop :=
  Contains "TIT" u ∨ Contains "M1." u ∨ Contains "M3." u ∨ Contains "M8." u
  ∨ Contains "HH+PHM" u ∨ Contains "LFLFM" u.

(** The fixed name list of each chemical set. *)
Definition chemSetNames (type : ChemSet.t) : list string :=
  match type with
  | ChemSet.P => ["PPO4IC"; "PPgesICP"]
  | ChemSet.S => ["SSO4IC"; "SSgesICP"]
  | ChemSet.N => ["NNgesTOC"; "NNH4IC"; "NNO2IC"; "NNO3IC"; "CGES"]
  end.

(** A parameter matches a chemical set when a name of the list occurs in
    its name, letter case set aside. *)
Definition MatchesChemSet (type : ChemSet.t) (p : string) : Prop :=
  ∃ n, n ∈ chemSetNames type ∧
       Contains (JsString.toUpperCase n) (JsString.toUpperCase p).

(** The colour chain as the specification words it: the three priority
    rules on the names, then the group rules on the device groups that
    [getDeviceGroup] assigns to the parameters of the set. *)
Definition colorBySpec (s : list string) : ReportView.RowColor :=
  let all_match type := forallb (DataSelection.chemSetMatch type) s in
  let present g := existsb (λ p, bool_decide (ReportView.getDeviceGroup p = g)) s in
  match s with
  | [] => ReportView.colorDefault
  | _ =>
      if all_match ChemSet.P then ReportView.colorP
      else if all_match ChemSet.S then ReportView.colorS
      else if all_match ChemSet.N then ReportView.colorN
      else if present pH_LF_TIT && negb (present TOC) && negb (present IC)
              && negb (present ICP_OES) then ReportView.colorPH
      else if present TOC && present IC && negb (present ICP_OES)
              && negb (present pH_LF_TIT) then ReportView.colorTOC_IC
      else if present IC && present ICP_OES && negb (present TOC)
              && negb (present pH_LF_TIT) then ReportView.colorIC_ICP
      else if present TOC && present IC && present ICP_OES then ReportView.colorALL
      else ReportView.colorDefault
  end.

(** A selection state for the examples. *)
Definition selection_example : SelectionState :=
  {| selectedRowIds := {["row-2"]};
     rowParams := {["row-2" := {["TOCNPOC"; "ICCa"]}; "row-3" := {["ICPFe"]}]} |}.

(** ** Ingestion *)

(** What one raw row contributes to the dataset. *)
Definition rowOutput (headerMapping : list CsvService.HeaderMapping) (i : nat)
    (row : option (list string)) : list LabDataRow :=
  match row with
  | Some cells =>
      if CsvService.skipRow row then []
      else [CsvService.buildRow headerMapping i cells]
  | None => []
  end.

(** The records of the rows from index [i] on, in file order. *)
Fixpoint rowsFrom (headerMapping : list CsvService.HeaderMapping) (i : nat)
    (rows : list (option (list string))) : list LabDataRow :=
  match rows with
  | [] => []
  | row :: rows' => rowOutput headerMapping i row ++ rowsFrom headerMapping (S i) rows'
  end.

(** A raw row is malformed when it is missing or has fewer than two cells. *)
Definition Malformed (row : option (list string)) : Prop :=
  row = None ∨ ∃ cells, row = Some cells ∧ (length cells < 2)%nat.

(** The invariant as the specification states it: as many entries in a
    record's result map as there are headers. *)
Definition one_entry_per_header (d : ParsedDataset) : Prop :=
  ∀ row, row ∈ data d → size (results row) = length (resultHeaders d).

(** A concrete consistent comparator for examples: order by character
    codes. *)
Definition codeCompare (a b : string) : Z :=
  if decide (a = b) then 0 else if decide (String.le a b) then -1 else 1.

(** A file whose header row names the column ["ICCa2.1"] twice. *)
Definition duplicate_header_file : list (option (list string)) :=
  [ Some ["Export"];
    Some ["Serie"; "Probe"; ""; "Wdh"; ""; ""; ""; "ICCa2.1"; "ICCa2.1"];
    Some ["S1"; "P1"; ""; "1"; ""; ""; ""; "1,5"; "2,5"] ].

(** ** Numbers *)

(** Order on numbers as propositions; a comparison with NaN never holds. *)
Definition num_lt (x y : JsNumber.number) : Prop := JsNumber.lt x y = true.

Definition num_le (x y : JsNumber.number) : Prop := JsNumber.le x y = true.

(** The two-digit fraction that [toFixed(2)] prints for [r] hundredths is
    two digits of value [r]. *)
Definition pad2_ok (r : N) : bool :=
  match JsNumber.padZeros 2 (Decimal.decimal r) with
  | String d1 (String d0 EmptyString) =>
      JsNumber.is_digit d1 && JsNumber.is_digit d0
      && (10 * JsNumber.digit_value d1 + JsNumber.digit_value d0 =? Z.of_N r)
  | _ => false
  end.

(** The integer of hundredths that [toFixed(2)] prints. *)
Definition hundredths (q : Q) : Z := Qfloor (Qabs q * inject_Z 100 + (1 # 2))%Q.

(** The hundredths by the third decimal digit of the magnitude: cut after
    three decimals, drop the third, and add one when it is 5 or more. *)
Definition hundredthsByThirdDigit (q : Q) : Z :=
  let t := Qfloor (Qabs q * inject_Z 1000)%Q in
  t / 10 + (if 5 <=? t mod 10 then 1 else 0).

(** Rounding to two decimals, half up on the third digit, as the
    specification words it: the magnitude is cut after the third decimal,
    the third digit is dropped and the second raised when it was 5 or more;
    the sign is kept. *)
Definition roundHalfUp2dp (q : Q) : Q :=
  ((if JsNumber.Qnegative q then - inject_Z (hundredthsByThirdDigit q)
    else inject_Z (hundredthsByThirdDigit q)) * 10 ^ (-2))%Q.

(** ** Ion balance *)

(** The validity test of the ion balance on the rounded value. *)
Definition inBand (r : JsNumber.number) : bool :=
  negb (JsNumber.isNaN r) && JsNumber.ge r (JsNumber.lit 0.9)
  && JsNumber.le r (JsNumber.lit 1.1).

(** The conductivity test as one expression: the quotient and its verdict. *)
Definition conductivityCheck (numCond numTheoCond : JsNumber.number)
  : JsNumber.number * bool :=
  if negb (JsNumber.isNaN numCond) && negb (JsNumber.isNaN numTheoCond)
     && JsNumber.strictNotEqual numTheoCond (JsNumber.Fin 0)
  then
    let cq := JsNumber.div numCond numTheoCond in
    (cq,
     if JsNumber.gt numCond (JsNumber.Fin 20)
     then JsNumber.ge cq (JsNumber.lit 0.9) && JsNumber.le cq (JsNumber.lit 1.1)
     else if JsNumber.ge numCond (JsNumber.Fin 10)
     then JsNumber.ge cq (JsNumber.lit 0.8) && JsNumber.le cq (JsNumber.lit 1.2)
     else JsNumber.ge cq (JsNumber.lit 0.7) && JsNumber.le cq (JsNumber.lit 1.3))
  else (JsNumber.NaN, false).

(** Rows for the examples: a dataset with the six columns the diagnostics
    read. *)
Definition ib_headers : list string :=
  ["Corg berechnet"; "LFLFLFM1.3"; "LFLFLFM3.1"; "Quotient ELF_eu_korr";
   "Quotient Kationen Anionen NFV"; "Theo elekt Leit (EU) korr"].

Definition ib_row (repeat : bool) (corg cond31 cond13 quotientIons theoCond : string)
  : LabDataRow :=
  {| id := "row-2"; seriesId := "S1"; sampleId := "P1";
     isRepeat := repeat; rawRepeatValue := if repeat then "2" else "1";
     results := list_to_map
       [("Corg berechnet", corg); ("LFLFLFM1.3", cond13); ("LFLFLFM3.1", cond31);
        ("Quotient ELF_eu_korr", ""); ("Quotient Kationen Anionen NFV", quotientIons);
        ("Theo elekt Leit (EU) korr", theoCond)] |}.

(** ** Base names, orderings and further example data *)

(** A numeric suffix: digits, a point, digits. *)
Definition NumericSuffix (s : string) : Prop :=
  ∃ d1 d2, all_digits d1 ∧ all_digits d2 ∧ d1 ≠ [] ∧ d2 ≠ [] ∧
           s = string_of_list_ascii d1 +:+ "." +:+ string_of_list_ascii d2.

(** The number of characters of a text that are no decimal digits. *)
Fixpoint nonDigits (s : string) : nat :=
  match s with
  | EmptyString => O
  | String c s' => ((if JsNumber.is_digit c then 0 else 1) + nonDigits s')%nat
  end.

(** The last character of a text is a decimal digit. *)
Fixpoint endsWithDigit (s : string) : bool :=
  match s with
  | EmptyString => false
  | String c EmptyString => JsNumber.is_digit c
  | String _ s' => endsWithDigit s'
  end.

(** A character of a numeric suffix: a decimal digit or the point. *)
Definition numeric_char (c : ascii) : bool :=
  JsNumber.is_digit c || bool_decide (c = "."%char).

Fixpoint allChars (P : ascii → bool) (s : string) : bool :=
  match s with
  | EmptyString => true
  | String c s' => P c && allChars P s'
  end.

(** The alternative [M\d+\.] of the header pattern occurs in [s]. *)
Definition MDigitsPoint (s : string) : Prop :=
  ∃ a ds b, all_digits ds ∧ ds ≠ [] ∧
            s = a +:+ "M" +:+ string_of_list_ascii ds +:+ "." +:+ b.

(** A consistent comparison function, as [Array.prototype.sort] asks for:
    exchanging the arguments exchanges the sign, and "not after" is
    transitive. *)
Definition Consistent {A : Type} (compareFn : A → A → Z) : Prop :=
  (∀ a b, compareFn a b < 0 ↔ 0 < compareFn b a) ∧
  (∀ a b c, compareFn a b ≤ 0 → compareFn b c ≤ 0 → compareFn a c ≤ 0).

(** A dataset for the examples: a sample, its repeat and a second sample. *)
Definition example_dataset : ParsedDataset :=
  let row i sample repeat values :=
    {| id := "row-" +:+ i; seriesId := "S1"; sampleId := sample;
       isRepeat := repeat; rawRepeatValue := if repeat then "2" else "1";
       results := list_to_map values |} in
  {| fileName := "serie.csv"; uploadDate := 0;
     resultHeaders := ["Corg berechnet"; "ICCa2.1"; "ICCa8.1"; "ICPFe1.1";
                       "LFLFLFM3.1"; "TOCNPOC20.1"];
     data :=
       [ row "2" "P2" false
           [("Corg berechnet", "12"); ("ICCa2.1", "1,5"); ("ICCa8.1", "");
            ("ICPFe1.1", "0,2"); ("LFLFLFM3.1", "40"); ("TOCNPOC20.1", "3")];
         row "3" "P1" true
           [("Corg berechnet", ""); ("ICCa2.1", ""); ("ICCa8.1", "1,4");
            ("ICPFe1.1", ""); ("LFLFLFM3.1", ""); ("TOCNPOC20.1", "")];
         row "4" "P1" false
           [("Corg berechnet", "25"); ("ICCa2.1", "1,6"); ("ICCa8.1", "1,7");
            ("ICPFe1.1", "<0,1"); ("LFLFLFM3.1", "15"); ("TOCNPOC20.1", "")] ] |}.

(** The position of a device group in [GROUP_ORDER]. *)
Definition groupIndex (g : DeviceGroup) : Z := JsArray.indexOf GROUP_ORDER g.

(** The cell of [row] under the header [h] holds more than white space. *)
Definition hasValue (row : LabDataRow) (h : string) : bool :=
  match results row !! h with
  | Some v => negb (String.eqb (JsString.trim v) "")
  | None => false
  end.

(** A file for the examples: a title row, the header row and three data
    rows, the second of them too short to count. *)
Definition example_file : list (option (list string)) :=
  [ Some ["Export"; "2024"];
    Some ["Serie"; "Probe"; ""; "Wdh"; ""; ""; ""; "ICCa2.1"; "TOCNPOC20.1"; " "; "LFLFLFM3.1"];
    Some ["S1"; " P1 "; ""; "1"; ""; ""; ""; "1,5"; " 3 "; "x"; "40"];
    Some [""];
    Some ["S1"; "P1"; ""; "2"; ""; ""; ""; ""; "3,1"] ].

(** A file with a column named ["__proto__"]. *)
Definition proto_header_file : list (option (list string)) :=
  [ Some ["Export"];
    Some ["Serie"; "Probe"; ""; "Wdh"; ""; ""; ""; "__proto__"; "ICCa2.1"];
    Some ["S1"; "P1"; ""; "1"; ""; ""; ""; "1,5"; "2,5"] ].

(** The cell of a sheet that a reference points at: the lines of the sheet
    are its rows 1, 2, ... and the cells of a line its columns 0, 1, ... *)
Definition cellAt (sheet : list (list ReportView.SheetCell)) (ref : ReportView.CellRef)
  : option ReportView.SheetCell :=
  match ReportView.refRow ref with
  | O => None
  | S i => sheet !! i ≫= (λ line, line !! ReportView.refColumn ref)
  end.

(** Reading a line of fields separated by semicolons, the way a reader of
    CSV files does: a field that starts with a double quote runs to the
    double quote that closes it, and two double quotes in a row inside it
    stand for one. *)
Inductive ReadState := FieldStart | InBare | InQuoted | AfterQuote.

Fixpoint readFields (state : ReadState) (field : string) (line : string)
  : option (list string) :=
  match line with
  | EmptyString =>
      match state with
      | InQuoted => None
      | _ => Some [field]
      end
  | String c line' =>
      let isQuote := bool_decide (c = IonBalanceAnalysis.doubleQuote) in
      let isSeparator := bool_decide (c = ";"%char) in
      match state with
      | FieldStart =>
          if isQuote then readFields InQuoted field line'
          else if isSeparator then cons field <$> readFields FieldStart "" line'
          else readFields InBare (field +:+ String c "") line'
      | InBare =>
          if isSeparator then cons field <$> readFields FieldStart "" line'
          else readFields InBare (field +:+ String c "") line'
      | InQuoted =>
          if isQuote then readFields AfterQuote field line'
          else readFields InQuoted (field +:+ String c "") line'
      | AfterQuote =>
          if isQuote then readFields InQuoted (field +:+ String c "") line'
          else if isSeparator then cons field <$> readFields FieldStart "" line'
          else None
      end
  end.

Definition readLine (line : string) : option (list string) :=
  readFields FieldStart "" line.

(** A field as [handleExport] writes it: between double quotes, or one of
    the two words of the repeat column. *)
Inductive Written : string → string → Prop :=
  | Written_escape (val : option string) :
      Written (IonBalanceAnalysis.escape val) (default "" val)
  | Written_ja : Written "ja" "ja"
  | Written_nein : Written "nein" "nein".

(** * Properties *)

(** ** Substring search *)

Section includes_facts.
Import JsString.

Lemma append_String c (a b : string) : String c a +:+ b = String c (a +:+ b).
Proof. reflexivity. Qed.

Lemma append_empty_l (b : string) : "" +:+ b = b.
Proof. reflexivity. Qed.

Lemma startsWith_spec s p : startsWith s p = true ↔ ∃ b, s = p +:+ b.
Proof.
  revert s. induction p as [|a p IH]; intros s; simpl.
  - split; [intros _; by exists s | done].
  - destruct s as [|b s]; simpl.
    + split; [done | intros [? ?]; done].
    + case_decide as Hab.
      * subst b. rewrite IH. setoid_rewrite append_String.
        split; intros [r Hr]; exists r; congruence.
      * split; [done | intros [r Hr]; rewrite append_String in Hr; congruence].
Qed.

Lemma includes_spec s p : includes s p = true ↔ Contains p s.
Proof.
  induction s as [|c s IH]; simpl.
  - rewrite orb_false_r, startsWith_spec. split.
    + intros [b Hb]. by exists "", b.
    + intros ([|x a] & b & Hab); [by exists b | by rewrite append_String in Hab].
  - rewrite orb_true_iff, startsWith_spec, IH. split.
    + intros [[b Hb] | (a & b & Hab)].
      * by exists "", b.
      * exists (String c a), b. rewrite append_String. by rewrite Hab.
    + intros ([|x a] & b & Hab).
      * left. by exists b.
      * right. exists a, b. rewrite append_String in Hab. congruence.
Qed.

End includes_facts.

(** ** Device classification *)

Lemma selection_report_getDeviceGroup name :
  ReportView.getDeviceGroup name = DataSelection.getDeviceGroup name.
Proof. reflexivity. Qed.

(** Every name with ["ICP"] in it has ["IC"] in it: the test for ICP has
    to come first. *)
Lemma Contains_ICP_IC u : Contains "ICP" u → Contains "IC" u.
Proof. intros (a & b & ->). by exists a, ("P" +:+ b). Qed.

Lemma getDeviceGroup_chain name :
  let u := JsString.toUpperCase name in
  (pH_marker u → DataSelection.getDeviceGroup name = pH_LF_TIT) ∧
  (¬ pH_marker u → Contains "TOC" u → DataSelection.getDeviceGroup name = TOC) ∧
  (¬ pH_marker u → ¬ Contains "TOC" u → Contains "ICP" u →
     DataSelection.getDeviceGroup name = ICP_OES) ∧
  (¬ pH_marker u → ¬ Contains "TOC" u → ¬ Contains "ICP" u → Contains "IC" u →
     DataSelection.getDeviceGroup name = IC) ∧
  (¬ pH_marker u → ¬ Contains "TOC" u → ¬ Contains "ICP" u → ¬ Contains "IC" u →
     DataSelection.getDeviceGroup name = Sonstige).
Proof.
  intros u. unfold DataSelection.getDeviceGroup, pH_marker. fold u.
  rewrite <- !includes_spec.
  destruct (JsString.includes u "TIT"), (JsString.includes u "M1."),
    (JsString.includes u "M3."), (JsString.includes u "M8."),
    (JsString.includes u "HH+PHM"), (JsString.includes u "LFLFM"),
    (JsString.includes u "TOC"), (JsString.includes u "ICP"),
    (JsString.includes u "IC"); simpl; intuition congruence.
Qed.

(** C1. Device classification is a total function computing the ordered
    first-match chain on the upper-cased name (pH/LF/TIT markers, then TOC,
    then ICP, then IC, else Sonstige); ["ICPFe1.1"] is ICP-OES, ["ICCa2.1"]
    is IC, ["M3.TIT"] is pH-LF-TIT; the copy in the report view computes the
    same function as the copy in the selection view. The order matters: a
    name with ["ICP"] in it always has ["IC"] in it. *)
Theorem C1_getDeviceGroup_first_match :
  (∀ name : string,
     let u := JsString.toUpperCase name in
     (∃ g, DataSelection.getDeviceGroup name = g) ∧
     (pH_marker u → DataSelection.getDeviceGroup name = pH_LF_TIT) ∧
     (¬ pH_marker u → Contains "TOC" u → DataSelection.getDeviceGroup name = TOC) ∧
     (¬ pH_marker u → ¬ Contains "TOC" u → Contains "ICP" u →
        DataSelection.getDeviceGroup name = ICP_OES) ∧
     (¬ pH_marker u → ¬ Contains "TOC" u → ¬ Contains "ICP" u → Contains "IC" u →
        DataSelection.getDeviceGroup name = IC) ∧
     (¬ pH_marker u → ¬ Contains "TOC" u → ¬ Contains "ICP" u → ¬ Contains "IC" u →
        DataSelection.getDeviceGroup name = Sonstige) ∧
     ReportView.getDeviceGroup name = DataSelection.getDeviceGroup name) ∧
  DataSelection.getDeviceGroup "ICPFe1.1" = ICP_OES ∧
  DataSelection.getDeviceGroup "ICCa2.1" = IC ∧
  DataSelection.getDeviceGroup "M3.TIT" = pH_LF_TIT ∧
  (∀ u, Contains "ICP" u → Contains "IC" u).
Proof.
  split.
  - intros name u. split; [by eexists|].
    pose proof (getDeviceGroup_chain name) as H. cbv zeta in H. fold u in H.
    pose proof (selection_report_getDeviceGroup name). tauto.
  - repeat split; try reflexivity. apply Contains_ICP_IC.
Qed.

(** ** Selection model *)

Section selection_facts.
Import DataSelection.

Lemma toggle_twice_in (ps : gset string) (p : string) :
  p ∈ ps → (ps ∖ {[p]}) ∪ {[p]} = ps.
Proof.
  intros Hp. apply set_eq. intros x. rewrite elem_of_union, elem_of_difference,
    elem_of_singleton. destruct (decide (x = p)); subst; tauto.
Qed.

Lemma toggle_twice_out (ps : gset string) (p : string) :
  p ∉ ps → (ps ∪ {[p]}) ∖ {[p]} = ps.
Proof.
  intros Hp. apply set_eq. intros x. rewrite elem_of_difference, elem_of_union,
    elem_of_singleton. destruct (decide (x = p)); subst; tauto.
Qed.

Lemma toggleRowParam_lookup rowId p sel :
  rowParams (toggleRowParam rowId p sel) !! rowId =
    Some (let ps := default ∅ (rowParams sel !! rowId) in
          if decide (p ∈ ps) then ps ∖ {[p]} else ps ∪ {[p]}).
Proof.
  unfold toggleRowParam. simpl. rewrite lookup_insert_eq.
  by destruct (rowParams sel !! rowId).
Qed.

Lemma toggleRowParam_frame rowId p sel :
  selectedRowIds (toggleRowParam rowId p sel) = selectedRowIds sel ∧
  ∀ r, r ≠ rowId → rowParams (toggleRowParam rowId p sel) !! r = rowParams sel !! r.
Proof.
  split; [done|]. intros r Hr. unfold toggleRowParam. simpl.
  by rewrite lookup_insert_ne.
Qed.

Lemma toggleRowParam_twice rowId p sel :
  is_Some (rowParams sel !! rowId) →
  toggleRowParam rowId p (toggleRowParam rowId p sel) = sel.
Proof.
  intros [ps Hps]. destruct sel as [rows params]. simpl in Hps.
  unfold toggleRowParam at 1. rewrite toggleRowParam_lookup. simpl.
  rewrite Hps. simpl. f_equal. rewrite insert_insert_eq.
  apply insert_id. rewrite Hps. f_equal.
  destruct (decide (p ∈ ps)) as [Hin|Hout].
  - rewrite decide_False by set_solver. symmetry. by apply toggle_twice_in.
  - rewrite decide_True by set_solver. symmetry. by apply toggle_twice_out.
Qed.

(** Without an entry for the row the two toggles leave an entry behind, the
    empty set. *)
Lemma toggleRowParam_twice_fresh rowId p sel :
  rowParams sel !! rowId = None →
  rowParams (toggleRowParam rowId p (toggleRowParam rowId p sel)) !! rowId = Some ∅.
Proof.
  intros Hnone. rewrite toggleRowParam_lookup, toggleRowParam_lookup, Hnone.
  simpl. destruct (decide (p ∈ (∅ : gset string))) as [H|_]; [set_solver|].
  simpl. rewrite decide_True by set_solver. f_equal. set_solver.
Qed.

End selection_facts.

(** C10. When the row already has an entry in [rowParams], toggling one base
    parameter of that row twice gives back the original selection state; one
    toggle flips the membership of that parameter in the row's set and leaves
    [selectedRowIds] and the parameter sets of all other rows as they were. *)
Theorem C10_toggleRowParam_twice (sel : SelectionState) (rowId baseParam : string) :
  is_Some (rowParams sel !! rowId) →
  DataSelection.toggleRowParam rowId baseParam
    (DataSelection.toggleRowParam rowId baseParam sel) = sel ∧
  selectedRowIds (DataSelection.toggleRowParam rowId baseParam sel) = selectedRowIds sel ∧
  (∀ r, r ≠ rowId →
     rowParams (DataSelection.toggleRowParam rowId baseParam sel) !! r
     = rowParams sel !! r) ∧
  (∃ ps ps', rowParams sel !! rowId = Some ps ∧
     rowParams (DataSelection.toggleRowParam rowId baseParam sel) !! rowId = Some ps' ∧
     (baseParam ∈ ps' ↔ baseParam ∉ ps) ∧
     (∀ q, q ≠ baseParam → q ∈ ps' ↔ q ∈ ps)).
Proof.
  intros Hsome. split; [by apply toggleRowParam_twice|].
  destruct (toggleRowParam_frame rowId baseParam sel) as [Hrows Hother].
  split; [done|]. split; [done|].
  destruct Hsome as [ps Hps]. exists ps. eexists. split; [done|].
  split; [apply toggleRowParam_lookup|]. rewrite Hps. simpl.
  destruct (decide (baseParam ∈ ps)); set_solver.
Qed.

Lemma C10_toggleRowParam_twice_witness :
  DataSelection.toggleRowParam "row-2" "ICCa"
    (DataSelection.toggleRowParam "row-2" "ICCa" selection_example) = selection_example.
Proof.
  apply (C10_toggleRowParam_twice selection_example "row-2" "ICCa").
  vm_compute. eauto.
Defined.

Lemma chemSetMatch_spec type p :
  DataSelection.chemSetMatch type p = true ↔ MatchesChemSet type p.
Proof.
  unfold DataSelection.chemSetMatch, MatchesChemSet, chemSetNames.
  destruct type; rewrite ?orb_true_iff, !includes_spec; split.
  - intros [H|H]; [exists "PPO4IC"|exists "PPgesICP"];
      (split; [repeat first [apply list_elem_of_here|apply list_elem_of_further]|exact H]).
  - intros (n & Hn & Hc). repeat (apply elem_of_cons in Hn as [->|Hn]; [|]).
    + left. exact Hc.
    + right. exact Hc.
    + by apply elem_of_nil in Hn.
  - intros [H|H]; [exists "SSO4IC"|exists "SSgesICP"];
      (split; [repeat first [apply list_elem_of_here|apply list_elem_of_further]|exact H]).
  - intros (n & Hn & Hc). repeat (apply elem_of_cons in Hn as [->|Hn]; [|]).
    + left. exact Hc.
    + right. exact Hc.
    + by apply elem_of_nil in Hn.
  - intros [[[[H|H]|H]|H]|H];
      [exists "NNgesTOC"|exists "NNH4IC"|exists "NNO2IC"|exists "NNO3IC"|exists "CGES"];
      (split; [repeat first [apply list_elem_of_here|apply list_elem_of_further]|exact H]).
  - intros (n & Hn & Hc). repeat (apply elem_of_cons in Hn as [->|Hn]; [|]).
    + do 4 left. exact Hc.
    + do 3 left. right. exact Hc.
    + do 2 left. right. exact Hc.
    + left. right. exact Hc.
    + right. exact Hc.
    + by apply elem_of_nil in Hn.
Qed.

Lemma filter_chemSetMatch_nil type (avail : list string) :
  List.filter (DataSelection.chemSetMatch type) avail = [] ↔
  ∀ p, p ∈ avail → ¬ MatchesChemSet type p.
Proof.
  setoid_rewrite <- chemSetMatch_spec. induction avail as [|a avail IH]; cbn [List.filter].
  - split; [by intros _ p ?%elem_of_nil|done].
  - destruct (DataSelection.chemSetMatch type a) eqn:E.
    + split; [done|]. intros H. exfalso. apply (H a); [by left|done].
    + rewrite IH. split.
      * intros H p [->|Hp]%elem_of_cons; [congruence|by apply H].
      * intros H p Hp. apply H. by right.
Qed.

Lemma toggleChemSet_noop rowId type avail sel :
  List.filter (DataSelection.chemSetMatch type) avail = [] →
  DataSelection.toggleChemSet rowId type avail sel = sel.
Proof. unfold DataSelection.toggleChemSet. by intros ->. Qed.

Lemma toggleChemSet_replace rowId type avail sel :
  List.filter (DataSelection.chemSetMatch type) avail ≠ [] →
  DataSelection.toggleChemSet rowId type avail sel =
    {| selectedRowIds := selectedRowIds sel;
       rowParams := <[rowId := list_to_set
                        (List.filter (DataSelection.chemSetMatch type) avail)]>
                      (rowParams sel) |}.
Proof.
  unfold DataSelection.toggleChemSet.
  by destruct (List.filter (DataSelection.chemSetMatch type) avail).
Qed.

Lemma elem_of_filter_list_to_set (f : string → bool) (l : list string) (p : string) :
  p ∈ (list_to_set (List.filter f l) : gset string) ↔ p ∈ l ∧ f p = true.
Proof.
  rewrite elem_of_list_to_set, !list_elem_of_In. apply filter_In.
Qed.

(** C6. For every selection state, row and chemical set: when an available
    base parameter of the row matches the set's name list, the button
    replaces the row's whole active set by exactly the available parameters
    that match, so that every parameter active before and not in the match
    is gone; other rows and the row selection are untouched. When no
    available parameter matches, the selection state is unchanged. Choosing
    [S] on a row whose active set was a TOC and an IC parameter leaves only
    the S-parameters; choosing [P] where only ["PPO4IC"] matches leaves
    that one; choosing [P] where nothing matches changes nothing. *)
Theorem C6_toggleChemSet_exclusive_replace :
  (∀ (sel : SelectionState) (rowId : string) (type : ChemSet.t) (avail : list string),
     let sel' := DataSelection.toggleChemSet rowId type avail sel in
     ((∀ p, p ∈ avail → ¬ MatchesChemSet type p) → sel' = sel) ∧
     ((∃ p, p ∈ avail ∧ MatchesChemSet type p) →
        (∃ ps', rowParams sel' !! rowId = Some ps' ∧
           ∀ p, p ∈ ps' ↔ p ∈ avail ∧ MatchesChemSet type p) ∧
        selectedRowIds sel' = selectedRowIds sel ∧
        (∀ r, r ≠ rowId → rowParams sel' !! r = rowParams sel !! r))) ∧
  rowParams (DataSelection.toggleChemSet "row-2" ChemSet.S
               ["NNgesTOC"; "TOCNPOC"; "ICCa"; "SSO4IC"; "ICPFe"; "SSgesICP"]
               selection_example) !! "row-2"
    = Some {["SSO4IC"; "SSgesICP"]} ∧
  rowParams (DataSelection.toggleChemSet "row-2" ChemSet.P
               ["PPO4IC"; "ICCa"] selection_example) !! "row-2"
    = Some {["PPO4IC"]} ∧
  rowParams (DataSelection.toggleChemSet "row-2" ChemSet.N
               ["TOCNPOC"; "NNO3IC"; "Cges"] selection_example) !! "row-2"
    = Some {["NNO3IC"; "Cges"]} ∧
  DataSelection.toggleChemSet "row-2" ChemSet.P ["TOCNPOC"; "ICCa"] selection_example
    = selection_example.
Proof.
  split.
  - intros sel rowId type avail sel'. split.
    + intros Hnone. by apply toggleChemSet_noop, filter_chemSetMatch_nil.
    + intros (p0 & Hp0 & Hm0). subst sel'.
      rewrite toggleChemSet_replace
        by (intros Hnil; by apply (proj1 (filter_chemSetMatch_nil type avail) Hnil p0)).
      simpl. split; [|split; [done|]].
      * eexists. split; [apply lookup_insert_eq|].
        intros p. rewrite elem_of_filter_list_to_set, chemSetMatch_spec. done.
      * intros r Hr. by rewrite lookup_insert_ne.
  - split; [|split; [|split]].
    + rewrite toggleChemSet_replace by (vm_compute; discriminate).
      simpl. rewrite lookup_insert_eq. reflexivity.
    + rewrite toggleChemSet_replace by (vm_compute; discriminate).
      simpl. rewrite lookup_insert_eq. reflexivity.
    + rewrite toggleChemSet_replace by (vm_compute; discriminate).
      simpl. rewrite lookup_insert_eq. reflexivity.
    + reflexivity.
Qed.

(** ** Row colour *)

(** The priority rules come first in the code as well: a non-empty set whose
    names all match a chemical set gets that set's colour, whatever the
    groups are. *)
Lemma colorOfParams_priority (s : list string) :
  s ≠ [] →
  (forallb (DataSelection.chemSetMatch ChemSet.P) s = true →
     ReportView.colorOfParams s = ReportView.colorP) ∧
  (forallb (DataSelection.chemSetMatch ChemSet.P) s = false →
   forallb (DataSelection.chemSetMatch ChemSet.S) s = true →
     ReportView.colorOfParams s = ReportView.colorS) ∧
  (forallb (DataSelection.chemSetMatch ChemSet.P) s = false →
   forallb (DataSelection.chemSetMatch ChemSet.S) s = false →
   forallb (DataSelection.chemSetMatch ChemSet.N) s = true →
     ReportView.colorOfParams s = ReportView.colorN).
Proof.
  intros Hs. unfold ReportView.colorOfParams.
  destruct s as [|p s]; [done|]. cbn [length Nat.eqb Nat.ltb Nat.leb andb].
  unfold DataSelection.chemSetMatch.
  repeat split.
  - by intros ->.
  - by intros -> ->.
  - by intros -> -> ->.
Qed.

Lemma getRowColorClass_empty sel rowId :
  default ∅ (rowParams sel !! rowId) = ∅ →
  ReportView.getRowColorClass sel rowId = ReportView.colorDefault.
Proof.
  unfold ReportView.getRowColorClass. intros ->. by rewrite elements_empty.
Qed.

(** The examples of the specification, run on the code. *)
Lemma getRowColorClass_examples :
  let sel (ps : gset string) :=
    {| selectedRowIds := {["row-2"]}; rowParams := {["row-2" := ps]} |} in
  ReportView.getRowColorClass (sel ∅) "row-2" = ReportView.colorDefault ∧
  ReportView.getRowColorClass (sel {["PPO4IC"]}) "row-2" = ReportView.colorP ∧
  ReportView.getRowColorClass (sel {["TOCNPOC"; "ICCa"; "ICPFe"]}) "row-2"
    = ReportView.colorALL ∧
  ReportView.getRowColorClass (sel {["TOCNPOC"; "ICCa"; "TITpH"]}) "row-2"
    = ReportView.colorDefault ∧
  ReportView.getRowColorClass (sel {["PPO4IC"; "PPgesICP"]}) "row-2"
    = ReportView.colorP.
Proof. vm_compute. done. Qed.

(** C5. On a row whose only active parameter is ["ICPFe"], of group ICP-OES,
    the code returns the "IC+ICP" colour, and on a row with a TOC and an ICP
    parameter (and no IC parameter) the "ALL" colour: its presence test for
    IC is the bare substring ["IC"], which every ICP name contains. The chain
    over device groups gives the default colour on both. *)
Theorem C5_getRowColorClass_icp_counts_as_ic :
  let sel (ps : gset string) :=
    {| selectedRowIds := {["row-2"]}; rowParams := {["row-2" := ps]} |} in
  ReportView.getDeviceGroup "ICPFe" = ICP_OES ∧
  ReportView.getDeviceGroup "TOCNPOC" = TOC ∧
  ReportView.getRowColorClass (sel {["ICPFe"]}) "row-2" = ReportView.colorIC_ICP ∧
  colorBySpec (elements ({["ICPFe"]} : gset string)) = ReportView.colorDefault ∧
  ReportView.getRowColorClass (sel {["TOCNPOC"; "ICPFe"]}) "row-2" = ReportView.colorALL ∧
  colorBySpec (elements ({["TOCNPOC"; "ICPFe"]} : gset string)) = ReportView.colorDefault ∧
  ReportView.colorIC_ICP ≠ ReportView.colorDefault ∧
  ReportView.colorALL ≠ ReportView.colorDefault.
Proof. vm_compute. repeat split; discriminate. Qed.

(** ** Sorting *)

Section sort_facts.
Context {A : Type} (compareFn : A → A → Z).

Let le (a b : A) : Prop := compareFn a b ≤ 0.

Lemma insert_Permutation x l : JsArray.insert compareFn x l ≡ₚ x :: l.
Proof.
  induction l as [|y l IH]; simpl; [done|].
  destruct (compareFn x y <? 0); [done|].
  rewrite IH. apply Permutation_swap.
Qed.

Lemma sort_fold_Permutation l acc :
  fold_left (λ sorted x, JsArray.insert compareFn x sorted) l acc ≡ₚ acc ++ l.
Proof.
  revert acc. induction l as [|x l IH]; intros acc; simpl.
  - by rewrite app_nil_r.
  - rewrite IH, insert_Permutation. apply Permutation_middle.
Qed.

Lemma sort_Permutation l : JsArray.sort compareFn l ≡ₚ l.
Proof. unfold JsArray.sort. by rewrite sort_fold_Permutation. Qed.

(** A consistent comparator: when [a] does not come before [b], [b] comes
    before [a] or ties with it; and "not after" is transitive. *)
Hypothesis compare_total : ∀ a b, 0 ≤ compareFn a b → compareFn b a ≤ 0.
Hypothesis compare_trans :
  ∀ a b c, compareFn a b ≤ 0 → compareFn b c ≤ 0 → compareFn a c ≤ 0.

Lemma insert_HdRel z x l :
  le z x → HdRel le z l → HdRel le z (JsArray.insert compareFn x l).
Proof.
  intros Hzx Hz. destruct l as [|y l]; simpl; [by constructor|].
  destruct (compareFn x y <? 0); constructor; [done|]. by inversion Hz.
Qed.

Lemma insert_Sorted x l : Sorted le l → Sorted le (JsArray.insert compareFn x l).
Proof.
  induction 1 as [|y l Hl IH Hy]; simpl.
  - repeat constructor.
  - destruct (compareFn x y <? 0) eqn:Hxy.
    + apply Z.ltb_lt in Hxy. repeat constructor; [done..|]. unfold le. lia.
    + apply Z.ltb_ge in Hxy. constructor; [done|].
      apply insert_HdRel; [|done]. by apply compare_total.
Qed.

Lemma sort_fold_Sorted l acc :
  Sorted le acc →
  Sorted le (fold_left (λ sorted x, JsArray.insert compareFn x sorted) l acc).
Proof.
  revert acc. induction l as [|x l IH]; intros acc Hacc; simpl; [done|].
  by apply IH, insert_Sorted.
Qed.

Lemma sort_StronglySorted l : StronglySorted le (JsArray.sort compareFn l).
Proof.
  apply Sorted.Sorted_StronglySorted.
  - intros a b c. apply compare_trans.
  - apply sort_fold_Sorted. constructor.
Qed.

End sort_facts.

Lemma StronglySorted_map {A B : Type} (f : A → B) (R : B → B → Prop) (l : list A) :
  StronglySorted (λ a b, R (f a) (f b)) l → StronglySorted R (map f l).
Proof.
  induction 1 as [|x l Hl IH Hx]; simpl; constructor; [done|].
  apply Forall_forall. intros y Hy.
  apply list_elem_of_In, in_map_iff in Hy as (a & <- & Ha).
  rewrite Forall_forall in Hx. by apply Hx, list_elem_of_In.
Qed.

(** ** CSV ingestion *)

Section csv_facts.
Import CsvService.

Lemma parseRows_rowsFrom hm i rows acc :
  parseRows hm i rows acc = acc ++ rowsFrom hm i rows.
Proof.
  revert i acc. induction rows as [|row rows IH]; intros i acc; simpl.
  - by rewrite app_nil_r.
  - rewrite IH. unfold rowOutput.
    destruct row as [cells|]; [|done].
    destruct (skipRow (Some cells)); [done|]. by rewrite <- app_assoc.
Qed.

Lemma skipRow_short (row : option (list string)) :
  skipRow row = true ↔ row = None ∨ ∃ cells, row = Some cells ∧ (length cells < 2)%nat.
Proof.
  destruct row as [cells|]; simpl; [|naive_solver].
  rewrite orb_true_iff, andb_true_iff, Nat.ltb_lt, Nat.eqb_eq. split.
  - intros [H|[H _]]; right; exists cells; split; [done|lia|done|lia].
  - intros [|(? & [= <-] & ?)]; [done|by left].
Qed.

Lemma rowOutput_skip hm i row : skipRow row = true → rowOutput hm i row = [].
Proof. destruct row; simpl; [by intros ->|done]. Qed.

Lemma elem_of_rowsFrom hm i rows r :
  r ∈ rowsFrom hm i rows ↔
  ∃ k cells, rows !! k = Some (Some cells) ∧ (2 ≤ length cells)%nat ∧
             r = buildRow hm (i + k) cells.
Proof.
  revert i. induction rows as [|row rows IH]; intros i; cbn [rowsFrom].
  - split; [by intros ?%elem_of_nil | by intros (k & ? & ? & _)].
  - rewrite elem_of_app, IH. split.
    + intros [Hr | (k & cells & Hk & Hlen & ->)].
      * destruct row as [cells|]; [|by apply elem_of_nil in Hr].
        unfold rowOutput in Hr.
        destruct (skipRow (Some cells)) eqn:Hskip; [by apply elem_of_nil in Hr|].
        apply list_elem_of_singleton in Hr as ->.
        exists 0%nat, cells. rewrite Nat.add_0_r. split; [done|]. split; [|done].
        destruct (decide (2 ≤ length cells)%nat) as [|Hn]; [done|].
        assert (skipRow (Some cells) = true) as Hs; [|congruence].
        apply skipRow_short. right. exists cells. split; [done|lia].
      * exists (S k), cells. by rewrite Nat.add_succ_r.
    + intros ([|k] & cells & Hk & Hlen & ->); cbn [lookup list_lookup] in Hk.
      * left. injection Hk as ->. unfold rowOutput.
        destruct (skipRow (Some cells)) eqn:Hskip.
        -- apply skipRow_short in Hskip as [|(? & [= <-] & ?)]; [done|lia].
        -- rewrite Nat.add_0_r. by apply list_elem_of_singleton.
      * right. exists k, cells. by rewrite Nat.add_succ_r.
Qed.

Lemma rowsFrom_insert_skip hm i rows k row row' :
  rows !! k = Some row → skipRow row = true → skipRow row' = true →
  rowsFrom hm i (<[k := row']> rows) = rowsFrom hm i rows.
Proof.
  revert i k. induction rows as [|r rows IH]; intros i k Hk Hs Hs'; [done|].
  destruct k as [|k]; simpl in *.
  - injection Hk as ->. by rewrite !rowOutput_skip.
  - f_equal. by eapply IH.
Qed.

(** The header list before sorting: the trimmed cells from column
    [resultStartIndex] on that are not blank. *)
Lemma collectHeaders_names i cells acc :
  map name (collectHeaders i cells acc)
  = map name acc ++ List.filter (λ h, negb (String.eqb h "")) (map JsString.trim cells).
Proof.
  revert i acc. induction cells as [|h cells IH]; intros i acc; cbn [collectHeaders].
  - by rewrite app_nil_r.
  - rewrite IH. cbn [map List.filter].
    destruct h as [|c h]; [by vm_compute (JsString.trim "")|].
    cbn [JsString.truthy andb].
    destruct (negb (String.eqb (JsString.trim (String c h)) "")); [|done].
    rewrite map_app. cbn [map name]. by rewrite <- app_assoc.
Qed.

Lemma sortedMapping_names localeCompareDe headerRow :
  map name (sortedMapping localeCompareDe headerRow)
  ≡ₚ List.filter (λ h, negb (String.eqb h ""))
       (map JsString.trim (drop resultStartIndex headerRow)).
Proof.
  unfold sortedMapping. rewrite sort_Permutation.
  by rewrite collectHeaders_names.
Qed.

(** The items of the sorted mapping: each stands for a header cell from
    column [resultStartIndex] on and carries its trimmed text. *)
Lemma collectHeaders_items i (cells : list string) acc item :
  item ∈ collectHeaders i cells acc →
  item ∈ acc ∨
  ∃ k c, cells !! k = Some c ∧ originalIndex item = (i + k)%nat ∧
         name item = JsString.trim c.
Proof.
  revert i acc. induction cells as [|h cells IH]; intros i acc; cbn [collectHeaders].
  - by left.
  - intros [Hacc|(k & c & Hk & Hi & Hn)]%IH.
    + destruct (_ && _).
      * apply elem_of_app in Hacc as [? | ->%list_elem_of_singleton]; [by left|].
        right. exists 0%nat, h. cbn [originalIndex name]. split; [done|]. split; [lia|done].
      * by left.
    + right. exists (S k), c. split; [done|]. split; [lia|done].
Qed.

Lemma sortedMapping_items localeCompareDe (headerRow : list string) item :
  item ∈ sortedMapping localeCompareDe headerRow →
  ∃ j c, (resultStartIndex ≤ j)%nat ∧ headerRow !! j = Some c ∧
         originalIndex item = j ∧ name item = JsString.trim c.
Proof.
  unfold sortedMapping. rewrite sort_Permutation.
  intros [?%elem_of_nil|(k & c & Hk & Hi & Hn)]%collectHeaders_items; [done|].
  rewrite lookup_drop in Hk. exists (resultStartIndex + k)%nat, c.
  split; [lia|done].
Qed.

Lemma trimmedOrEmpty_spec (val : option string) :
  trimmedOrEmpty val = match val with
                       | Some cell => JsString.trim cell
                       | None => ""
                       end.
Proof. by destruct val as [[|c cell]|]. Qed.

(** Keys and values of the result map of one row. *)

Lemma JsObject_set_dom (key value : string) (o : gmap string string) :
  dom (JsObject.set key value o) = dom o ∪ ({[key]} ∖ {["__proto__"]}).
Proof.
  unfold JsObject.set. case_decide as Hk.
  - subst key. apply set_eq. intros x.
    rewrite elem_of_union, elem_of_difference, elem_of_singleton. tauto.
  - rewrite dom_insert_L. apply set_eq. intros x.
    rewrite !elem_of_union, elem_of_difference, !elem_of_singleton.
    split; [intros [->|?]; tauto|tauto].
Qed.

Lemma buildResults_fold_dom (hm : list HeaderMapping) (cells : list string)
    (acc : gmap string string) :
  dom (fold_left (λ resultValues mapItem,
                    JsObject.set (name mapItem)
                      (trimmedOrEmpty (cells !! originalIndex mapItem)) resultValues)
                 hm acc)
  = dom acc ∪ (list_to_set (map name hm) ∖ {["__proto__"]}).
Proof.
  revert acc. induction hm as [|item hm IH]; intros acc; cbn [fold_left map].
  - apply set_eq. intros x.
    rewrite elem_of_union, elem_of_difference, elem_of_list_to_set, elem_of_nil. tauto.
  - rewrite IH, JsObject_set_dom. apply set_eq. intros x.
    rewrite !elem_of_union, !elem_of_difference, !elem_of_list_to_set, elem_of_cons,
      !elem_of_singleton. tauto.
Qed.

Lemma buildResults_dom hm cells :
  dom (buildResults hm cells) = list_to_set (map name hm) ∖ {["__proto__"]}.
Proof.
  unfold buildResults. rewrite buildResults_fold_dom, dom_empty_L. apply set_eq.
  intros x. rewrite elem_of_union, elem_of_empty. tauto.
Qed.

Lemma buildResults_fold_lookup (hm : list HeaderMapping) (cells : list string)
    (acc : gmap string string) h :
  h ≠ "__proto__" →
  let m := fold_left (λ resultValues mapItem,
                        JsObject.set (name mapItem)
                          (trimmedOrEmpty (cells !! originalIndex mapItem)) resultValues)
                     hm acc in
  ((h ∉ map name hm) ∧ (m !! h = acc !! h)) ∨
  (∃ item, item ∈ hm ∧ name item = h ∧
     m !! h = Some (trimmedOrEmpty (cells !! originalIndex item))).
Proof.
  intros Hh. revert acc. induction hm as [|item hm IH]; intros acc; cbn [fold_left map].
  - left. split; [apply not_elem_of_nil|done].
  - destruct (IH (JsObject.set (name item)
                    (trimmedOrEmpty (cells !! originalIndex item)) acc))
      as [[Hnot Hm] | (it & Hit & Hname & Hm)].
    + destruct (decide (name item = h)) as [Heq|Hne].
      * right. exists item. split; [left|]. split; [done|].
        rewrite Hm. unfold JsObject.set. rewrite decide_False by congruence.
        rewrite Heq. apply lookup_insert_eq.
      * left. split.
        -- intros [?|?]%elem_of_cons; [congruence|done].
        -- rewrite Hm. unfold JsObject.set. case_decide; [done|].
           by apply lookup_insert_ne.
    + right. exists it. split; [by right|done].
Qed.

Lemma buildResults_lookup hm cells h :
  h ∈ map name hm → h ≠ "__proto__" →
  ∃ item, item ∈ hm ∧ name item = h ∧
    buildResults hm cells !! h = Some (trimmedOrEmpty (cells !! originalIndex item)).
Proof.
  intros Hh Hp. destruct (buildResults_fold_lookup hm cells ∅ h Hp) as [[Hnot _]|H]; done.
Qed.

End csv_facts.

Lemma size_list_to_set_remove_dups (l : list string) :
  size (list_to_set l : gset string) = length (remove_dups l).
Proof.
  rewrite <- (size_list_to_set (C := gset string) (remove_dups l))
    by apply NoDup_remove_dups.
  f_equal. apply set_eq. intros x.
  by rewrite !elem_of_list_to_set, elem_of_remove_dups.
Qed.

Lemma length_remove_dups_le (l : list string) : (length (remove_dups l) ≤ length l)%nat.
Proof.
  induction l as [|x l IH]; simpl; [done|].
  destruct (decide_rel _ _ _); simpl; lia.
Qed.

Lemma length_remove_dups_NoDup (l : list string) :
  length (remove_dups l) = length l ↔ NoDup l.
Proof.
  induction l as [|x l IH]; simpl.
  - split; [constructor|done].
  - pose proof (length_remove_dups_le l). rewrite NoDup_cons.
    destruct (decide_rel _ _ _) as [Hin|Hout]; simpl.
    + split; [lia|tauto].
    + rewrite <- IH. split; [intros [= ?]; tauto | intros [_ ->]; done].
Qed.

Lemma list_to_set_filter_ne (p : string) (l : list string) :
  (list_to_set (List.filter (λ h, negb (String.eqb h p)) l) : gset string)
  = list_to_set l ∖ {[p]}.
Proof.
  apply set_eq. intros x.
  rewrite elem_of_difference, !elem_of_list_to_set, elem_of_singleton.
  rewrite !list_elem_of_In, filter_In, negb_true_iff, String.eqb_neq. done.
Qed.

Lemma filter_ne_all (p : string) (l : list string) :
  List.filter (λ h, negb (String.eqb h p)) l = l ↔ p ∉ l.
Proof.
  induction l as [|x l IH]; cbn [List.filter].
  - split; [intros _; apply not_elem_of_nil|done].
  - rewrite not_elem_of_cons. destruct (String.eqb x p) eqn:E; cbn [negb].
    + apply String.eqb_eq in E. subst x. split; [|tauto]. intros H.
      pose proof (filter_length_le (λ h, negb (String.eqb h p)) l) as Hle.
      rewrite H in Hle. cbn [length] in Hle. lia.
    + apply String.eqb_neq in E. rewrite <- IH. split.
      * intros [= H]. split; [congruence|done].
      * intros [_ ->]. done.
Qed.

Lemma filter_ne_length (p : string) (l : list string) :
  length (List.filter (λ h, negb (String.eqb h p)) l) = length l → p ∉ l.
Proof.
  intros H. apply filter_ne_all. induction l as [|x l IH]; [done|].
  cbn [List.filter length] in *.
  pose proof (filter_length_le (λ h, negb (String.eqb h p)) l) as Hle.
  destruct (negb (String.eqb x p)); cbn [length] in H; [|lia].
  f_equal. apply IH. lia.
Qed.

(** C9. Ingestion rejects, with an error message and no dataset, a file
    with fewer than three raw rows and a file whose header row (index 1) is
    missing. Otherwise it resolves: the records are exactly those of the
    rows from index 2 on that have at least two cells, in file order, each
    built from its own cells and index; a malformed data row contributes
    nothing, and exchanging one malformed data row for another changes
    nothing in the outcome. *)
Theorem C9_ingestion_errors_and_skipped_rows
    (localeCompareDe : string → string → Z) (fileName_ : string) (now : Z) :
  let parse := CsvService.parseLabDataCsv localeCompareDe fileName_ now in
  parse None = CsvService.Rejected CsvService.errTooFewRows ∧
  (∀ rows, (length rows < 3)%nat →
     parse (Some rows) = CsvService.Rejected CsvService.errTooFewRows) ∧
  (∀ rows, (3 ≤ length rows)%nat → rows !! 1%nat = Some None →
     parse (Some rows) = CsvService.Rejected CsvService.errNoHeaderRow) ∧
  (∀ rows headerRow, (3 ≤ length rows)%nat → rows !! 1%nat = Some (Some headerRow) →
     let headerMapping := CsvService.sortedMapping localeCompareDe headerRow in
     ∃ d, parse (Some rows) = CsvService.Resolved d ∧
       data d = rowsFrom headerMapping 2 (drop 2 rows) ∧
       (∀ r, r ∈ data d ↔
             ∃ i cells, (2 ≤ i)%nat ∧ rows !! i = Some (Some cells) ∧
                        (2 ≤ length cells)%nat ∧
                        r = CsvService.buildRow headerMapping i cells) ∧
       (∀ i row, (2 ≤ i)%nat → rows !! i = Some row → Malformed row →
          rowOutput headerMapping i row = [] ∧
          ∀ row', Malformed row' → parse (Some (<[i := row']> rows)) = parse (Some rows))).
Proof.
  intros parse. subst parse. unfold CsvService.parseLabDataCsv.
  split; [done|]. split; [|split].
  - intros rows Hlen. apply Nat.ltb_lt in Hlen. by rewrite Hlen.
  - intros rows Hlen Hhead. apply Nat.ltb_ge in Hlen. rewrite Hlen.
    unfold CsvService.headerRowIndex. by rewrite Hhead.
  - intros rows headerRow Hlen Hhead.
    set (hm := CsvService.sortedMapping localeCompareDe headerRow).
    pose proof Hlen as Hlenb.
    apply Nat.ltb_ge in Hlenb. rewrite Hlenb.
    unfold CsvService.headerRowIndex, CsvService.dataStartIndex. rewrite Hhead.
    fold hm. eexists. split; [done|]. cbn [data].
    rewrite parseRows_rowsFrom. cbn [app].
    split; [done|]. split.
    + intros r. rewrite elem_of_rowsFrom. split.
      * intros (k & cells & Hk & Hc & ->). exists (2 + k)%nat, cells.
        rewrite lookup_drop in Hk. repeat split; [lia|done..].
      * intros (i & cells & Hi & Hk & Hc & ->). exists (i - 2)%nat, cells.
        rewrite lookup_drop. replace (2 + (i - 2))%nat with i by lia. done.
    + intros i row Hi Hrow Hbad. apply skipRow_short in Hbad.
      split; [by apply rowOutput_skip|].
      intros row' Hbad'. apply skipRow_short in Hbad'.
      rewrite length_insert, Hlenb, list_lookup_insert_ne, Hhead by lia.
      fold hm. do 2 f_equal. rewrite !parseRows_rowsFrom. f_equal.
      rewrite drop_insert_ge by lia.
      apply rowsFrom_insert_skip with (row := row); [|done..].
      rewrite lookup_drop. by replace (2 + (i - 2))%nat with i by lia.
Qed.

Lemma codeCompare_le a b : codeCompare a b ≤ 0 ↔ String.le a b.
Proof.
  unfold codeCompare. destruct (decide (a = b)) as [->|Hne].
  - split; [intros _; reflexivity | lia].
  - destruct (decide (String.le a b)); split; (done || lia).
Qed.

Lemma codeCompare_total a b : 0 ≤ codeCompare a b → codeCompare b a ≤ 0.
Proof.
  intros H. apply codeCompare_le. destruct (total String.le a b) as [Hab|]; [|done].
  unfold codeCompare in H. destruct (decide (a = b)) as [->|]; [reflexivity|].
  rewrite decide_True in H by done. lia.
Qed.

Lemma codeCompare_trans a b c :
  codeCompare a b ≤ 0 → codeCompare b c ≤ 0 → codeCompare a c ≤ 0.
Proof. rewrite !codeCompare_le. apply transitivity. Qed.

(** C8, as stated, fails: with a duplicated header text the header list has
    two elements and the result map of the record one entry, which holds
    the value of the second column. *)
Lemma C8_duplicate_headers_counterexample :
  ∃ d row,
    CsvService.parseLabDataCsv codeCompare "dup.csv" 0 (Some duplicate_header_file)
      = CsvService.Resolved d ∧
    data d = [row] ∧
    resultHeaders d = ["ICCa2.1"; "ICCa2.1"] ∧
    size (results row) = 1%nat ∧
    results row !! "ICCa2.1" = Some "2,5" ∧
    ¬ one_entry_per_header d.
Proof.
  eexists. eexists. split; [reflexivity|]. split; [reflexivity|].
  split; [reflexivity|]. split; [reflexivity|]. split; [reflexivity|].
  intros H. specialize (H _ (list_elem_of_here _ _)). vm_compute in H. discriminate.
Qed.

(** A header cell with the text ["__proto__"] is listed in [resultHeaders]
    and has no entry in the result map of a record. *)
Lemma proto_header_no_entry :
  ∃ d row,
    CsvService.parseLabDataCsv codeCompare "proto.csv" 0
      (Some [ Some ["Export"];
              Some ["Serie"; "Probe"; ""; "Wdh"; ""; ""; ""; "__proto__"; "ICCa2.1"];
              Some ["S1"; "P1"; ""; "1"; ""; ""; ""; "1,5"; "2,5"] ])
      = CsvService.Resolved d ∧
    data d = [row] ∧
    resultHeaders d = ["ICCa2.1"; "__proto__"] ∧
    results row !! "__proto__" = None ∧
    results row !! "ICCa2.1" = Some "2,5" ∧
    size (results row) = 1%nat.
Proof. do 2 eexists. by repeat (split; [reflexivity|]). Qed.

(** C8 (amended). After a successful ingestion [resultHeaders] is sorted by
    the comparison (for a consistent comparator) and holds, each as often as
    it occurs, the non-blank trimmed header texts from column 7 on. In every
    record the key set of [results] is the set of header names other than
    ["__proto__"], a name that a plain object does not keep as a key of its
    own: every such header has an entry, which is the trimmed cell of the
    record's row in a column with that header text, or the empty string when
    the row has no cell there, and there is no other key. The number of
    entries is the number of distinct header texts other than ["__proto__"];
    it is the number of headers exactly when no header text occurs twice and
    none is ["__proto__"]. *)
Theorem C8_headers_sorted_results_keys
    (localeCompareDe : string → string → Z) (fileName_ : string) (now : Z)
    (rawRows : option (list (option (list string)))) (d : ParsedDataset) :
  (∀ a b, 0 ≤ localeCompareDe a b → localeCompareDe b a ≤ 0) →
  (∀ a b c, localeCompareDe a b ≤ 0 → localeCompareDe b c ≤ 0 → localeCompareDe a c ≤ 0) →
  CsvService.parseLabDataCsv localeCompareDe fileName_ now rawRows = CsvService.Resolved d →
  StronglySorted (λ a b, localeCompareDe a b ≤ 0) (resultHeaders d) ∧
  ∃ rows headerRow,
    rawRows = Some rows ∧ rows !! 1%nat = Some (Some headerRow) ∧
    resultHeaders d ≡ₚ List.filter (λ h, negb (String.eqb h ""))
                         (map JsString.trim (drop 7 headerRow)) ∧
    ∀ row, row ∈ data d →
      dom (results row) = list_to_set (resultHeaders d) ∖ {["__proto__"]} ∧
      (∃ i cells, rows !! i = Some (Some cells) ∧ (2 ≤ i)%nat ∧
         ∀ h, h ∈ resultHeaders d → h ≠ "__proto__" →
           ∃ j headerCell, (7 ≤ j)%nat ∧ headerRow !! j = Some headerCell ∧
             JsString.trim headerCell = h ∧
             results row !! h = Some (match cells !! j with
                                      | Some cell => JsString.trim cell
                                      | None => ""
                                      end)) ∧
      (∀ h, h ∉ resultHeaders d ∨ h = "__proto__" → results row !! h = None) ∧
      size (results row)
      = length (remove_dups (List.filter (λ h, negb (String.eqb h "__proto__"))
                                         (resultHeaders d))) ∧
      (size (results row) = length (resultHeaders d) ↔
       NoDup (resultHeaders d) ∧ "__proto__" ∉ resultHeaders d).
Proof.
  intros Htotal Htrans Hparse. unfold CsvService.parseLabDataCsv in Hparse.
  destruct rawRows as [rows|]; [|done].
  destruct (length rows <? 3)%nat; [done|].
  destruct (rows !! CsvService.headerRowIndex) as [[headerRow|]|] eqn:Hhead; [|done..].
  injection Hparse as <-. cbn [resultHeaders data].
  set (hm := CsvService.sortedMapping localeCompareDe headerRow).
  split.
  { apply StronglySorted_map. apply sort_StronglySorted.
    - intros a b. apply Htotal.
    - intros a b c. apply Htrans. }
  exists rows, headerRow. split; [done|]. split; [exact Hhead|].
  split; [apply sortedMapping_names|].
  intros row Hrow. rewrite parseRows_rowsFrom in Hrow. cbn [app] in Hrow.
  apply elem_of_rowsFrom in Hrow as (k & cells & Hk & _ & ->).
  cbn [results CsvService.buildRow].
  assert (dom (CsvService.buildResults hm cells)
          = list_to_set (map CsvService.name hm) ∖ {["__proto__"]}) as Hdom
    by apply buildResults_dom.
  assert (size (CsvService.buildResults hm cells)
          = length (remove_dups (List.filter (λ h, negb (String.eqb h "__proto__"))
                                             (map CsvService.name hm)))) as Hsize
    by (by rewrite <- size_dom, Hdom, <- list_to_set_filter_ne,
          size_list_to_set_remove_dups).
  split; [done|]. split; [|split; [|split; [done|]]].
  - rewrite lookup_drop in Hk. exists (CsvService.dataStartIndex + k)%nat, cells.
    split; [done|]. split; [unfold CsvService.dataStartIndex; lia|].
    intros h Hh Hne.
    destruct (buildResults_lookup hm cells h Hh Hne) as (item & Hitem & Hname & ->).
    destruct (sortedMapping_items localeCompareDe headerRow item Hitem)
      as (j & c & Hj & Hc & Hidx & Hnm).
    exists j, c. rewrite trimmedOrEmpty_spec, Hidx.
    split; [exact Hj|]. split; [done|]. split; [congruence|done].
  - intros h Hh. apply not_elem_of_dom. rewrite Hdom.
    rewrite elem_of_difference, elem_of_list_to_set, elem_of_singleton. tauto.
  - rewrite Hsize.
    pose proof (length_remove_dups_le
                  (List.filter (λ h, negb (String.eqb h "__proto__"))
                               (map CsvService.name hm))) as Hle1.
    pose proof (filter_length_le (λ h, negb (String.eqb h "__proto__"))
                  (map CsvService.name hm)) as Hle2.
    split.
    + intros E. assert ("__proto__" ∉ map CsvService.name hm) as Hp
        by (apply filter_ne_length; lia).
      split; [|done]. apply length_remove_dups_NoDup.
      rewrite (proj2 (filter_ne_all _ _) Hp) in E. exact E.
    + intros [Hnd Hp]. rewrite (proj2 (filter_ne_all _ _) Hp).
      by apply length_remove_dups_NoDup.
Qed.

Lemma C8_headers_sorted_results_keys_witness :
  ∃ d, CsvService.parseLabDataCsv codeCompare "dup.csv" 0 (Some duplicate_header_file)
       = CsvService.Resolved d ∧
    StronglySorted (λ a b, codeCompare a b ≤ 0) (resultHeaders d) ∧
    ∃ rows headerRow,
      Some duplicate_header_file = Some rows ∧ rows !! 1%nat = Some (Some headerRow) ∧
      resultHeaders d ≡ₚ List.filter (λ h, negb (String.eqb h ""))
                           (map JsString.trim (drop 7 headerRow)) ∧
      ∀ row, row ∈ data d →
        dom (results row) = list_to_set (resultHeaders d) ∖ {["__proto__"]} ∧
        (∃ i cells, rows !! i = Some (Some cells) ∧ (2 ≤ i)%nat ∧
           ∀ h, h ∈ resultHeaders d → h ≠ "__proto__" →
             ∃ j headerCell, (7 ≤ j)%nat ∧ headerRow !! j = Some headerCell ∧
               JsString.trim headerCell = h ∧
               results row !! h = Some (match cells !! j with
                                        | Some cell => JsString.trim cell
                                        | None => ""
                                        end)) ∧
        (∀ h, h ∉ resultHeaders d ∨ h = "__proto__" → results row !! h = None) ∧
        size (results row)
        = length (remove_dups (List.filter (λ h, negb (String.eqb h "__proto__"))
                                           (resultHeaders d))) ∧
        (size (results row) = length (resultHeaders d) ↔
         NoDup (resultHeaders d) ∧ "__proto__" ∉ resultHeaders d).
Proof.
  eexists. split; [reflexivity|].
  apply (C8_headers_sorted_results_keys codeCompare "dup.csv" 0
           (Some duplicate_header_file)).
  - apply codeCompare_total.
  - apply codeCompare_trans.
  - reflexivity.
Defined.

(** ** Numbers: rounding, printing and reading *)

Section round64_facts.
Import JsNumber.
Local Open Scope Q_scope.

Lemma Qpower2_pos (k : Z) : 0 < 2 ^ k.
Proof. by apply Qpower_0_lt. Qed.

Lemma Qmake_inject (p : Z) (d : positive) : p # d == inject_Z p / inject_Z (Zpos d).
Proof. apply Qmake_Qdiv. Qed.

Lemma flog2_lower (x : Q) : 0 < x → 2 ^ flog2 x <= x.
Proof.
  intros Hx. unfold flog2.
  set (k := (Z.log2 (Qnum x) - Z.log2 (Z.pos (Qden x)))%Z).
  destruct (Qle_bool (2 ^ k) x) eqn:Hk; [by apply Qle_bool_iff|].
  destruct x as [p d]. unfold Qlt in Hx. cbn [Qnum Qden] in Hx, k. clear Hk.
  assert (0 < p)%Z as Hp by lia.
  pose proof (Z.log2_spec p Hp) as [Hlo _].
  pose proof (Z.log2_spec (Z.pos d) (Pos2Z.is_pos d)) as [_ Hhi].
  pose proof (Z.log2_nonneg p) as Hp0. pose proof (Z.log2_nonneg (Z.pos d)) as Hd0.
  replace (k - 1)%Z with (Z.log2 p - Z.succ (Z.log2 (Z.pos d)))%Z by (subst k; lia).
  rewrite Qpower_minus by done.
  set (A := (2 ^ Z.log2 p)%Z) in *. set (B := (2 ^ Z.succ (Z.log2 (Z.pos d)))%Z) in *.
  assert (2 ^ Z.log2 p == inject_Z A) as ->
    by (symmetry; apply (Zpower_Qpower 2); lia).
  assert (2 ^ Z.succ (Z.log2 (Z.pos d)) == inject_Z B) as ->
    by (symmetry; apply (Zpower_Qpower 2); lia).
  rewrite Qmake_inject.
  assert (0 < A)%Z by (subst A; apply Z.pow_pos_nonneg; lia).
  assert (0 < inject_Z B) by (change 0 with (inject_Z 0); rewrite <- Zlt_Qlt; lia).
  assert (0 < inject_Z (Z.pos d)) by (change 0 with (inject_Z 0); by rewrite <- Zlt_Qlt).
  apply Qle_shift_div_r; [done|].
  unfold Qdiv. rewrite <- Qmult_assoc, (Qmult_comm (/ _)), Qmult_assoc.
  apply Qle_shift_div_l; [done|].
  rewrite <- !inject_Z_mult, <- Zle_Qle. nia.
Qed.

Lemma roundHalfEven_error (x : Q) :
  x - (1 # 2) <= inject_Z (roundHalfEven x) <= x + (1 # 2).
Proof.
  unfold roundHalfEven. pose proof (Qfloor_le x) as Hlo. pose proof (Qlt_floor x) as Hhi.
  rewrite inject_Z_plus in Hhi. change (inject_Z 1) with 1 in Hhi.
  destruct (x - inject_Z (Qfloor x) ?= 1 # 2) eqn:Hc.
  - apply Qeq_alt in Hc. destruct (Z.even _); rewrite ?inject_Z_plus;
      change (inject_Z 1) with 1; lra.
  - apply Qlt_alt in Hc. lra.
  - apply Qgt_alt in Hc. rewrite inject_Z_plus. change (inject_Z 1) with 1. lra.
Qed.

Lemma half_ulp_bound (x : Q) :
  0 < x →
  2 ^ (Z.max (flog2 x) (-1022) - 52) * (1 # 2) <= x * 2 ^ (-53) + 2 ^ (-1075).
Proof.
  intros Hx. pose proof (flog2_lower x Hx) as Hf.
  pose proof (Qpower2_pos (-53)) as H53. pose proof (Qpower2_pos (-1075)) as H1075.
  destruct (Z.max_spec (flog2 x) (-1022)) as [[_ ->]|[_ ->]].
  - change (2 ^ (-1022 - 52) * (1 # 2)) with (2 ^ (-1074) * (1 # 2)).
    assert (2 ^ (-1074) * (1 # 2) == 2 ^ (-1075)) as -> by reflexivity.
    assert (0 <= x * 2 ^ (-53)) by (apply Qmult_le_0_compat; lra). lra.
  - replace (flog2 x - 52)%Z with (flog2 x + -52)%Z by lia.
    rewrite Qpower_plus by done.
    assert (2 ^ (-52) * (1 # 2) == 2 ^ (-53)) as E by reflexivity.
    rewrite <- Qmult_assoc, E.
    assert (2 ^ flog2 x * 2 ^ (-53) <= x * 2 ^ (-53))
      by (apply Qmult_le_compat_r; lra). lra.
Qed.

Lemma Qabs_of_pos (x : Q) : 0 < x → Qabs x = x.
Proof.
  destruct x as [p d]. unfold Qlt. cbn [Qnum Qden]. intros H.
  unfold Qabs. f_equal. apply Z.abs_eq. lia.
Qed.

Lemma round64_pos (x : Q) :
  0 < x →
  round64 x = Inf false ∨
  ∃ v, round64 x = Fin v ∧
       x - (x * 2 ^ (-53) + 2 ^ (-1075)) <= v <= x + (x * 2 ^ (-53) + 2 ^ (-1075)).
Proof.
  intros Hx. unfold round64.
  destruct (Qeq_bool x 0) eqn:H0; [apply Qeq_bool_iff in H0; lra|]. clear H0.
  rewrite (Qabs_of_pos x Hx).
  assert (Qnegative x = false) as ->.
  { unfold Qnegative. apply negb_false_iff, Qle_bool_iff. lra. }
  pose proof (half_ulp_bound x Hx) as Hulp.
  set (u := 2 ^ (Z.max (flog2 x) (-1022) - 52)) in *.
  assert (0 < u) as Hu by apply Qpower2_pos.
  pose proof (roundHalfEven_error (x / u)) as [Hlo Hhi].
  set (m := inject_Z (roundHalfEven (x / u))) in *.
  destruct (Qle_bool (2 ^ 1024) (m * u)); [by left|right].
  exists (Qred (m * u)). split; [done|]. rewrite Qred_correct.
  assert (x / u * u == x) as Hy by (field; intros E; rewrite E in Hu; lra).
  apply (Qmult_le_compat_r _ _ u) in Hlo; [|lra].
  apply (Qmult_le_compat_r _ _ u) in Hhi; [|lra].
  assert ((x / u - (1 # 2)) * u == x / u * u - u * (1 # 2)) as E1 by ring.
  assert ((x / u + (1 # 2)) * u == x / u * u + u * (1 # 2)) as E2 by ring.
  rewrite E1, Hy in Hlo. rewrite E2, Hy in Hhi.
  lra.
Qed.

Lemma inject_Z_half_nonneg (k : Z) : - (1 # 2) <= inject_Z k → (0 <= k)%Z.
Proof. unfold Qle. cbn. lia. Qed.

Lemma round64_nonpos (x : Q) :
  x <= 0 →
  round64 x = Inf true ∨ ∃ v, round64 x = Fin v ∧ v <= 0.
Proof.
  intros Hx. unfold round64.
  destruct (Qeq_bool x 0) eqn:H0; [right; exists 0; split; [done|lra]|].
  apply Qeq_bool_neq in H0.
  assert (Qnegative x = true) as ->.
  { unfold Qnegative. apply negb_true_iff. destruct (Qle_bool 0 x) eqn:E; [|done].
    apply Qle_bool_iff in E. exfalso. apply H0. lra. }
  set (u := 2 ^ (Z.max (flog2 (Qabs x)) (-1022) - 52)).
  assert (0 < u) as Hu by apply Qpower2_pos.
  pose proof (roundHalfEven_error (Qabs x / u)) as [Hlo _].
  assert (0 <= Qabs x / u) as Hy.
  { apply Qle_shift_div_l; [done|]. pose proof (Qabs_nonneg x). lra. }
  assert (0 <= roundHalfEven (Qabs x / u))%Z as Hm
    by (apply inject_Z_half_nonneg; lra).
  rewrite Zle_Qle in Hm. change (inject_Z 0) with 0 in Hm.
  set (m := inject_Z (roundHalfEven (Qabs x / u))) in *.
  destruct (Qle_bool (2 ^ 1024) (m * u)); [by left|right].
  exists (Qred (- (m * u))). split; [done|]. rewrite Qred_correct.
  assert (0 <= m * u) by (apply Qmult_le_0_compat; lra). lra.
Qed.

End round64_facts.

Section decimal_facts.
Import JsString JsNumber Decimal.

Local Abbreviation text := string_of_list_ascii.

Lemma text_app (a b : list ascii) : text (a ++ b) = text a +:+ text b.
Proof.
  induction a as [|c a IH]; [done|].
  cbn [app string_of_list_ascii]. rewrite append_String. by rewrite IH.
Qed.

Lemma digit_char_spec (k : N) :
  (k < 10)%N → is_digit (digit_char k) = true ∧ digit_value (digit_char k) = Z.of_N k.
Proof.
  intros Hk. assert (∃ n : nat, (n < 10)%nat ∧ k = N.of_nat n) as (n & Hn & ->)
    by (exists (N.to_nat k); lia).
  do 10 (destruct n as [|n]; [by vm_compute|]). lia.
Qed.

Lemma digits_value_snoc ds c :
  digits_value (ds ++ [c]) = 10 * digits_value ds + digit_value c.
Proof. unfold digits_value. by rewrite fold_left_app. Qed.

Lemma digits_fuel_S (f : nat) (n : N) (acc : string) :
  digits_fuel (S f) n acc =
    if (n / 10 =? 0)%N then String (digit_char (n mod 10)) acc
    else digits_fuel f (n / 10) (String (digit_char (n mod 10)) acc).
Proof. reflexivity. Qed.

Lemma append_assoc_String (s : string) c (acc : string) :
  s +:+ String c acc = (s +:+ String c "") +:+ acc.
Proof. induction s as [|c' s IH]; [done|]. rewrite !append_String. by rewrite IH. Qed.

Lemma append_empty_r (s : string) : s +:+ "" = s.
Proof. induction s as [|c s IH]; [done|]. rewrite append_String. by rewrite IH. Qed.

Lemma digits_fuel_spec (f : nat) (n : N) (acc : string) :
  (n < 10 ^ N.of_nat (S f))%N →
  ∃ ds, digits_fuel (S f) n acc = text ds +:+ acc ∧ all_digits ds ∧ ds ≠ [] ∧
        digits_value ds = Z.of_N n.
Proof.
  revert n acc. induction f as [|f IH]; intros n acc Hn.
  - assert (n < 10)%N as Hlt by (change (10 ^ N.of_nat 1)%N with 10%N in Hn; lia).
    rewrite digits_fuel_S. replace (n / 10)%N with 0%N by (symmetry; by apply N.div_small).
    rewrite N.mod_small by done. cbn [N.eqb].
    destruct (digit_char_spec n Hlt) as [Hd Hv].
    exists [digit_char n]. repeat split; [by repeat constructor|done|].
    unfold digits_value. cbn. lia.
  - rewrite digits_fuel_S. destruct (n / 10 =? 0)%N eqn:Hq.
    + apply N.eqb_eq in Hq.
      assert (n < 10)%N as Hlt.
      { destruct (N.lt_ge_cases n 10) as [|Hge]; [done|].
        pose proof (N.Div0.div_le_mono 10 n 10 Hge) as Hd.
        rewrite N.div_same in Hd by lia. lia. }
      rewrite N.mod_small by done.
      destruct (digit_char_spec n Hlt) as [Hd Hv].
      exists [digit_char n]. repeat split; [by repeat constructor|done|].
      unfold digits_value. cbn. lia.
    + assert (n / 10 < 10 ^ N.of_nat (S f))%N as Hrec.
      { apply N.Div0.div_lt_upper_bound.
        replace (N.of_nat (S (S f))) with (N.succ (N.of_nat (S f))) in Hn by lia.
        by rewrite N.pow_succ_r' in Hn. }
      destruct (IH (n / 10)%N (String (digit_char (n mod 10)) acc) Hrec)
        as (ds & Heq & Hds & Hne & Hval).
      assert (n mod 10 < 10)%N as Hm by (apply N.mod_lt; lia).
      destruct (digit_char_spec _ Hm) as [Hd Hv].
      exists (ds ++ [digit_char (n mod 10)]). split; [|split; [|split]].
      * rewrite Heq, text_app. cbn [string_of_list_ascii].
        apply append_assoc_String.
      * apply Forall_app. split; [done|by repeat constructor].
      * by destruct ds.
      * rewrite digits_value_snoc, Hval, Hv.
        pose proof (N.div_mod n 10 ltac:(lia)). lia.
Qed.

Lemma decimal_spec (n : N) :
  ∃ ds, decimal n = text ds ∧ all_digits ds ∧ ds ≠ [] ∧ digits_value ds = Z.of_N n.
Proof.
  unfold decimal.
  destruct (digits_fuel_spec (N.to_nat (N.log2 n)) n "") as (ds & Heq & H).
  - rewrite Nat2N.inj_succ, N2Nat.id.
    destruct (N.eq_dec n 0%N) as [->|Hn]; [done|].
    destruct (N.log2_spec n) as [_ Hhi]; [lia|].
    eapply N.lt_le_trans; [exact Hhi|].
    apply N.pow_le_mono_l. lia.
  - exists ds. split; [|done]. by rewrite Heq, append_empty_r.
Qed.

End decimal_facts.

Section parse_facts.
Import JsString JsNumber Decimal.
Local Abbreviation text := string_of_list_ascii.

Lemma is_digit_not_special (c : ascii) :
  is_digit c = true →
  is_space c = false ∧ c ≠ "-"%char ∧ c ≠ "+"%char ∧ c ≠ "I"%char.
Proof. destruct c as [[] [] [] [] [] [] [] []]; by vm_compute. Qed.

Lemma span_digits_text (ds : list ascii) (rest : string) :
  all_digits ds → span_digits rest = ([], rest) →
  span_digits (text ds +:+ rest) = (ds, rest).
Proof.
  intros Hds Hrest. induction Hds as [|c ds Hc Hds IH]; [done|].
  cbn [string_of_list_ascii]. rewrite append_String. cbn [span_digits].
  by rewrite Hc, IH.
Qed.

Lemma pad2_spec (r : N) :
  (r < 100)%N →
  ∃ d1 d0, padZeros 2 (decimal r) = String d1 (String d0 "") ∧
           is_digit d1 = true ∧ is_digit d0 = true ∧
           10 * digit_value d1 + digit_value d0 = Z.of_N r.
Proof.
  intros Hr.
  assert (forallb pad2_ok (map N.of_nat (seq 0 100)) = true) as Hall by (by vm_compute).
  assert (pad2_ok r = true) as Hok.
  { eapply (proj1 (forallb_forall _ _) Hall). apply in_map_iff.
    exists (N.to_nat r). split; [lia|]. apply in_seq. lia. }
  unfold pad2_ok in Hok.
  destruct (padZeros 2 (decimal r)) as [|d1 [|d0 [|]]]; try done.
  apply andb_true_iff in Hok as [Hok Hv]. apply andb_true_iff in Hok as [H1 H0].
  exists d1, d0. repeat split; [done..|]. by apply Z.eqb_eq.
Qed.

Lemma Qfloor_nonneg (x : Q) : (0 <= x)%Q → 0 ≤ Qfloor x.
Proof. intros H. apply Qfloor_resp_le in H. exact H. Qed.

Lemma hundredths_nonneg q : 0 ≤ hundredths q.
Proof.
  apply Qfloor_nonneg. pose proof (Qabs_nonneg q).
  assert (0 <= Qabs q * inject_Z 100)%Q by (apply Qmult_le_0_compat; [done|by vm_compute]).
  lra.
Qed.

Lemma parse_unsigned_digits negative (ip fp : list ascii) :
  all_digits ip → all_digits fp → ip ≠ [] →
  parse_unsigned negative
    (text ip +:+ match fp with [] => "" | _ => String "." (text fp) end)
  = round64 ((if negative then - inject_Z (digits_value (ip ++ fp))
              else inject_Z (digits_value (ip ++ fp)))
             * 10 ^ (- Z.of_nat (length fp)))%Q.
Proof.
  intros Hip Hfp Hne. unfold parse_unsigned.
  destruct ip as [|c ip]; [done|]. clear Hne.
  assert (is_digit c = true) as Hc by (by inversion Hip).
  destruct (is_digit_not_special c Hc) as (_ & _ & _ & HI).
  replace (startsWith _ "Infinity") with false.
  2:{ cbn [string_of_list_ascii]. rewrite append_String. cbn [startsWith].
      by rewrite decide_False by done. }
  destruct fp as [|d fp].
  - rewrite span_digits_text by done. rewrite app_nil_r. cbn [app length parse_exponent].
    done.
  - rewrite span_digits_text by done.
    replace (span_digits (text (d :: fp))) with (d :: fp, "").
    2:{ symmetry. rewrite <- (append_empty_r (text (d :: fp))).
        by apply span_digits_text. }
    cbn [app parse_exponent]. done.
Qed.

Lemma parseFloat_sign_digits (negative : bool) (ip : list ascii) (rest : string) :
  all_digits ip → ip ≠ [] →
  parseFloat ((if negative then "-" else "") +:+ text ip +:+ rest)
  = parse_unsigned negative (text ip +:+ rest).
Proof.
  intros Hip Hne. destruct ip as [|c ip]; [done|].
  assert (is_digit c = true) as Hc by (by inversion Hip).
  destruct (is_digit_not_special c Hc) as (Hs & Hm & Hp & _).
  unfold parseFloat. destruct negative.
  - rewrite append_String, append_empty_l. cbn [trimStart].
    replace (is_space "-") with false by (by vm_compute). cbv zeta.
    by rewrite decide_True by done.
  - rewrite append_empty_l. cbn [string_of_list_ascii]. rewrite append_String.
    cbn [trimStart]. rewrite Hs. cbv zeta.
    by rewrite !decide_False by done.
Qed.

Lemma parseFloat_toFixed2_small (q : Q) :
  Qle_bool (10 ^ 21)%Q (Qabs q) = false →
  parseFloat (toFixed (Fin q) 2)
  = round64 ((if Qnegative q then - inject_Z (hundredths q) else inject_Z (hundredths q))
             * 10 ^ (-2))%Q.
Proof.
  intros Hsmall. unfold toFixed. rewrite Hsmall.
  change (10 ^ Z.of_nat 2) with 100. fold (hundredths q).
  pose proof (hundredths_nonneg q) as Hn. set (n := hundredths q) in *.
  destruct (decimal_spec (Z.to_N (n / 100))) as (ip & -> & Hip & Hne & Hv).
  destruct (pad2_spec (Z.to_N (n mod 100))) as (d1 & d0 & -> & Hd1 & Hd0 & Hr).
  { pose proof (Z.mod_pos_bound n 100). lia. }
  rewrite parseFloat_sign_digits by done.
  change (text ip +:+ "." +:+ String d1 (String d0 ""))
    with (text ip +:+ match [d1; d0] with [] => "" | _ => String "." (text [d1; d0]) end).
  rewrite parse_unsigned_digits; [|done|by repeat constructor|done].
  replace (digits_value (ip ++ [d1; d0])) with n; [done|].
  change (ip ++ [d1; d0]) with (ip ++ [d1] ++ [d0]).
  rewrite app_assoc, !digits_value_snoc, Hv.
  pose proof (Z.div_mod n 100). pose proof (Z.mod_pos_bound n 100).
  pose proof (Z.div_pos n 100). lia.
Qed.

Lemma parseFloat_toFixed2_large (q : Q) :
  Qle_bool (10 ^ 21)%Q (Qabs q) = true →
  parseFloat (toFixed (Fin q) 2)
  = round64 ((if Qnegative q then - inject_Z (Qfloor (Qabs q))
              else inject_Z (Qfloor (Qabs q))) * 10 ^ 0)%Q.
Proof.
  intros Hlarge. unfold toFixed. rewrite Hlarge.
  assert (0 ≤ Qfloor (Qabs q)) as Hn by apply Qfloor_nonneg, Qabs_nonneg.
  destruct (decimal_spec (Z.to_N (Qfloor (Qabs q)))) as (ip & -> & Hip & Hne & Hv).
  rewrite <- (append_empty_r (text ip)) at 1.
  rewrite parseFloat_sign_digits by done.
  change "" with (match @nil ascii with [] => "" | _ => String "." (text []) end).
  rewrite parse_unsigned_digits; [|done|constructor|done].
  rewrite app_nil_r, Hv. cbn [length Z.of_nat Z.opp]. by rewrite Z2N.id.
Qed.

End parse_facts.

Section ion_balance_rounding.
Import JsNumber.
Local Open Scope Q_scope.

Lemma lit_0_9 : lit 0.9 = Fin (8106479329266893 # 9007199254740992).
Proof. by vm_compute. Qed.
Lemma lit_1_1 : lit 1.1 = Fin (2476979795053773 # 2251799813685248).
Proof. by vm_compute. Qed.

Lemma eps53 : 2 ^ (-53) == 1 # 9007199254740992.
Proof. reflexivity. Qed.
Lemma eps1075 : 2 ^ (-1075) <= 1 # 1152921504606846976.
Proof. apply Qle_bool_iff. by vm_compute. Qed.

Lemma inBand_round64_range (x : Q) :
  inBand (round64 x) = true → 89 # 100 < x ∧ x < 111 # 100.
Proof.
  unfold inBand. rewrite lit_0_9, lit_1_1. intros H.
  pose proof eps53 as E53. pose proof eps1075 as E1075.
  destruct (Qlt_le_dec 0 x) as [Hpos|Hneg].
  - destruct (round64_pos x Hpos) as [E|(v & E & Hlo & Hhi)]; rewrite E in H; [done|].
    cbn [isNaN negb andb ge le] in H. apply andb_true_iff in H as [H1 H2].
    apply Qle_bool_iff in H1, H2. rewrite E53 in Hlo, Hhi. split.
    + apply Qnot_le_lt. intros Hx. lra.
    + apply Qnot_le_lt. intros Hx. lra.
  - exfalso. destruct (round64_nonpos x Hneg) as [E|(v & E & Hv)]; rewrite E in H; [done|].
    cbn [isNaN negb andb ge le] in H. apply andb_true_iff in H as [H1 H2].
    apply Qle_bool_iff in H1. lra.
Qed.

Lemma inBand_hundredths (k : Z) :
  (90 <= k <= 110)%Z → inBand (round64 (inject_Z k * 10 ^ (-2))) = true.
Proof.
  intros Hk. assert (∃ m : nat, (m <= 20)%nat ∧ k = (90 + Z.of_nat m)%Z) as (m & Hm & ->)
    by (exists (Z.to_nat (k - 90)); lia).
  do 21 (destruct m as [|m]; [by vm_compute|]). lia.
Qed.

Lemma inject_Z_lt_inv (a b : Z) : inject_Z a < inject_Z b → (a < b)%Z.
Proof. by rewrite <- Zlt_Qlt. Qed.

Lemma inBand_rounded (q : Q) :
  inBand (parseFloat (toFixed (Fin q) 2)) = true ↔
  Qnegative q = false ∧ (90 <= hundredths q <= 110)%Z.
Proof.
  assert (10 ^ (-2) == 1 # 100) as E2 by reflexivity.
  destruct (Qle_bool (10 ^ 21) (Qabs q)) eqn:Hsize.
  - rewrite parseFloat_toFixed2_large by done.
    apply Qle_bool_iff in Hsize.
    assert (inject_Z (10 ^ 21) <= inject_Z (Qfloor (Qabs q))) as Hfl.
    { rewrite <- Zle_Qle. apply (Qfloor_resp_le (10 ^ 21)) in Hsize. exact Hsize. }
    change (inject_Z (10 ^ 21)) with (1000000000000000000000 # 1) in Hfl.
    split.
    + intros [Hlo Hhi]%inBand_round64_range. exfalso.
      change (10 ^ 0) with 1 in Hlo, Hhi. destruct (Qnegative q); lra.
    + intros [_ [_ Hn]]. exfalso. unfold hundredths in Hn.
      assert (inject_Z (Qfloor (Qabs q * inject_Z 100 + (1 # 2))) <= inject_Z 110) as Hq
        by (by rewrite <- Zle_Qle).
      pose proof (Qlt_floor (Qabs q * inject_Z 100 + (1 # 2))) as Hf.
      rewrite inject_Z_plus in Hf.
      change (inject_Z 100) with 100 in Hf, Hq. change (inject_Z 1) with 1 in Hf.
      change (inject_Z 110) with 110 in Hq.
      change (10 ^ 21) with (1000000000000000000000 # 1) in Hsize. lra.
  - rewrite parseFloat_toFixed2_small by done.
    pose proof (hundredths_nonneg q) as Hn0. set (n := hundredths q) in *.
    rewrite Zle_Qle in Hn0. change (inject_Z 0) with 0 in Hn0.
    split.
    + intros [Hlo Hhi]%inBand_round64_range. rewrite E2 in Hlo, Hhi.
      destruct (Qnegative q); [exfalso; lra|]. split; [done|].
      assert (inject_Z 89 < inject_Z n) as H1 by (change (inject_Z 89) with 89; lra).
      assert (inject_Z n < inject_Z 111) as H2 by (change (inject_Z 111) with 111; lra).
      apply inject_Z_lt_inv in H1, H2. lia.
    + intros [-> Hn]. by apply inBand_hundredths.
Qed.

Lemma Qfloor_unique (x : Q) (z : Z) :
  inject_Z z <= x → x < inject_Z z + 1 → Qfloor x = z.
Proof.
  intros Hlo Hhi. pose proof (Qfloor_le x) as Flo. pose proof (Qlt_floor x) as Fhi.
  rewrite inject_Z_plus in Fhi. change (inject_Z 1) with 1 in Fhi.
  assert (inject_Z (Qfloor x) < inject_Z (z + 1)) as H1
    by (rewrite inject_Z_plus; change (inject_Z 1) with 1; lra).
  assert (inject_Z z < inject_Z (Qfloor x + 1)) as H2
    by (rewrite inject_Z_plus; change (inject_Z 1) with 1; lra).
  apply inject_Z_lt_inv in H1, H2. lia.
Qed.

Lemma hundredths_third_digit (q : Q) : hundredths q = hundredthsByThirdDigit q.
Proof.
  unfold hundredths, hundredthsByThirdDigit.
  set (a := Qabs q). set (t := Qfloor (a * inject_Z 1000)).
  pose proof (Qfloor_le (a * inject_Z 1000)) as Tlo.
  pose proof (Qlt_floor (a * inject_Z 1000)) as Thi. fold t in Tlo, Thi.
  rewrite inject_Z_plus in Thi.
  pose proof (Z.div_mod t 10 ltac:(lia)) as Ht.
  pose proof (Z.mod_pos_bound t 10 ltac:(lia)) as [Hd0 Hd9].
  set (k := (t / 10)%Z) in *. set (d := (t mod 10)%Z) in *.
  assert (inject_Z t == 10 * inject_Z k + inject_Z d) as Et
    by (rewrite Ht, inject_Z_plus, inject_Z_mult; reflexivity).
  rewrite Et in Tlo, Thi.
  change (inject_Z 1000) with 1000 in *. change (inject_Z 100) with 100.
  change (inject_Z 1) with 1 in Thi.
  apply Qfloor_unique.
  - destruct (5 <=? d)%Z eqn:Hd.
    + apply Z.leb_le in Hd. rewrite Zle_Qle in Hd. change (inject_Z 5) with 5 in Hd.
      rewrite inject_Z_plus. change (inject_Z 1) with 1. lra.
    + rewrite Zle_Qle in Hd0. change (inject_Z 0) with 0 in Hd0.
      rewrite inject_Z_plus. change (inject_Z 0) with 0. lra.
  - destruct (5 <=? d)%Z eqn:Hd.
    + assert (d <= 9)%Z as H9 by lia. rewrite Zle_Qle in H9.
      change (inject_Z 9) with 9 in H9.
      rewrite inject_Z_plus. change (inject_Z 1) with 1. lra.
    + apply Z.leb_gt in Hd. assert (d <= 4)%Z as H4 by lia. rewrite Zle_Qle in H4.
      change (inject_Z 4) with 4 in H4.
      rewrite inject_Z_plus. change (inject_Z 0) with 0. lra.
Qed.

End ion_balance_rounding.

(** ** Ion balance, conductivity, remark and auto-comment *)

Section row_analysis_facts.
Import JsString JsNumber IonBalanceAnalysis.

Lemma processRow_fields (headers : list string) (row : LabDataRow) :
  let a := processRow headers row in
  numCorg a = parseGermanFloat (cellOf row (findHeader (String.eqb "Corg berechnet") headers)) ∧
  numQuotientIons a =
    parseGermanFloat
      (cellOf row (findHeader (String.eqb "Quotient Kationen Anionen NFV") headers)) ∧
  numTheoCond a =
    parseGermanFloat
      (cellOf row (findHeader (String.eqb "Theo elekt Leit (EU) korr") headers)) ∧
  numCond a = parseGermanFloat (Some (valCond a)) ∧
  roundedQuotientIons a =
    (if negb (isNaN (numQuotientIons a)) then parseFloat (toFixed (numQuotientIons a) 2)
     else NaN) ∧
  isIbOk a = inBand (roundedQuotientIons a) ∧
  (calculatedCondQuotient a, isLfOk a) = conductivityCheck (numCond a) (numTheoCond a) ∧
  bem a =
    (if negb (isRepeat row) then
       let hasIbData := negb (isNaN (roundedQuotientIons a)) in
       let hasLfData := negb (isNaN (calculatedCondQuotient a)) in
       if hasIbData && hasLfData then
         if isIbOk a && isLfOk a then "ok"
         else if isIbOk a && negb (isLfOk a) then "IB ok, LF nicht"
         else if negb (isIbOk a) && isLfOk a then "IB nicht ok ; LF ok"
         else "IB nicht ok + LF nicht ok"
       else if hasIbData && negb hasLfData then
         if isIbOk a then "IB ok" else "IB nicht ok"
       else ""
     else "") ∧
  autoComment a =
    (if negb (isRepeat row) then
       let isDeviation := negb (isIbOk a) || negb (isLfOk a) in
       if isDeviation && negb (isNaN (numCorg a)) && gt (numCorg a) (Fin 20) then "Corg>20"
       else if isDeviation && negb (isNaN (numCorg a)) && gt (numCorg a) (Fin 10)
               && negb (isNaN (numCond a)) && lt (numCond a) (Fin 50) then "Corg>10 LTF<50"
       else if negb (isNaN (numCond a)) && gt (numCond a) (Fin 300) && negb (isLfOk a)
       then commentIdealDilute
       else if isDeviation && negb (isNaN (numCond a)) && lt (numCond a) (Fin 30)
       then commentLowConductivity
       else ""
     else "").
Proof.
  unfold processRow, conductivityCheck, inBand. cbv zeta.
  match goal with
  | |- context [match ?p with (_, _) => _ end] =>
      match p with
      | (if nonBlank _ then _ else _) => generalize p; intros [vc fb]
      end
  end.
  match goal with
  | |- context [match ?p with (_, _) => _ end] =>
      match p with
      | (if _ then (div _ _, _) else _) => remember p as p2 eqn:E2; destruct p2 as [cq ok]
      end
  end.
  cbn [numCorg numQuotientIons numTheoCond numCond valCond roundedQuotientIons isIbOk
            isLfOk calculatedCondQuotient bem autoComment].
  repeat split. exact E2.
Qed.

Lemma ibRow_processRow (headers : list string) (row : LabDataRow) :
  ReportView.ibRow headers row = processRow headers row.
Proof.
  unfold ReportView.ibRow, processRow.
  change ReportView.findHeader with findHeader.
  change ReportView.cellOf with cellOf.
  change ReportView.nonBlank with nonBlank.
  change ReportView.parseGermanFloat with parseGermanFloat.
  cbv zeta.
  match goal with
  | |- context [match ?p with (_, _) => _ end] =>
      match p with
      | (if nonBlank _ then _ else _) => generalize p; intros [vc fb]
      end
  end.
  match goal with
  | |- context [match ?p with (_, _) => _ end] =>
      match p with
      | (if _ then (div _ _, _) else _) => generalize p; intros [cq ok]
      end
  end.
  f_equal.
  repeat match goal with |- context [isNaN ?x] => destruct (isNaN x) end; reflexivity.
Qed.

End row_analysis_facts.

Section number_order_facts.
Import JsNumber.

Lemma le_not_NaN x y : le x y = true → isNaN x = false ∧ isNaN y = false.
Proof. by destruct x as [|[]|], y as [|[]|]. Qed.





Lemma le_lt_false x y : le x y = true → lt y x = false.
Proof.
  destruct x as [|[]|a], y as [|[]|b]; try done. cbn. intros ->. done.
Qed.

Lemma lt_le_false x y : lt x y = true → le y x = false.
Proof.
  destruct x as [|[]|a], y as [|[]|b]; try done. cbn. by intros ->%negb_true_iff.
Qed.

Lemma lt_le_total x y : isNaN x = false → isNaN y = false → lt x y = true ∨ le y x = true.
Proof.
  destruct x as [|[]|a], y as [|[]|b]; try done; cbn; intros _ _; auto.
  destruct (Qle_bool b a); auto.
Qed.

Lemma lt_below_above (a b : Q) x : (a <= b)%Q → lt x (Fin a) = true → lt (Fin b) x = false.
Proof.
  destruct x as [|[]|c]; try done. cbn. intros Hab Hbc%negb_true_iff.
  apply negb_false_iff, Qle_bool_iff. destruct (Qlt_le_dec b c) as [Hlt|]; [|done].
  exfalso. assert (Qle_bool a c = true) as E; [|congruence]. apply Qle_bool_iff. lra.
Qed.

Lemma strictNotEqual_zero x :
  strictNotEqual x (Fin 0) = false ↔ ∃ q, x = Fin q ∧ (q == 0)%Q.
Proof.
  destruct x as [|s|a]; cbn.
  - split; [done|]. by intros (? & ? & _).
  - split; [done|]. by intros (? & ? & _).
  - rewrite negb_false_iff, Qeq_bool_iff. split; [by exists a|]. by intros (? & [= <-] & ?).
Qed.

Lemma round64_not_NaN (x : Q) : isNaN (round64 x) = false.
Proof.
  unfold round64. destruct (Qeq_bool x 0); [done|]. by destruct (Qle_bool _ _).
Qed.

Lemma div_Fin (a b : Q) : ¬ (b == 0)%Q → div (Fin a) (Fin b) = round64 (a / b).
Proof.
  intros Hb. cbn [div]. destruct (Qeq_bool b 0) eqn:E; [|done].
  by apply Qeq_bool_iff in E.
Qed.

Lemma parseFloat_toFixed2_not_NaN x :
  isNaN x = false → isNaN (parseFloat (toFixed x 2)) = false.
Proof.
  destruct x as [|[]|q]; [done|by vm_compute|by vm_compute|]. intros _.
  destruct (Qle_bool (10 ^ 21)%Q (Qabs q)) eqn:E.
  - rewrite parseFloat_toFixed2_large by done. apply round64_not_NaN.
  - rewrite parseFloat_toFixed2_small by done. apply round64_not_NaN.
Qed.

Lemma inBand_le r : inBand r = true ↔ num_le (lit 0.9) r ∧ num_le r (lit 1.1).
Proof.
  unfold inBand, num_le, ge. destruct (isNaN r) eqn:E.
  - split; [done|]. intros [_ H]. apply le_not_NaN in H as [H _]. congruence.
  - cbn [negb andb]. apply andb_true_iff.
Qed.

End number_order_facts.

Lemma roundHalfUp2dp_band (q : Q) :
  (0.9 <= roundHalfUp2dp q ∧ roundHalfUp2dp q <= 1.1)%Q ↔
  JsNumber.Qnegative q = false ∧ 90 ≤ hundredths q ≤ 110.
Proof.
  unfold roundHalfUp2dp. rewrite <- hundredths_third_digit.
  pose proof (hundredths_nonneg q) as Hn0. set (n := hundredths q) in *.
  assert (10 ^ (-2) == 1 # 100)%Q as -> by reflexivity.
  rewrite Zle_Qle in Hn0. change (inject_Z 0) with 0%Q in Hn0.
  rewrite !Zle_Qle. change (inject_Z 90) with 90%Q. change (inject_Z 110) with 110%Q.
  destruct (JsNumber.Qnegative q); split; intros [H1 H2].
  - exfalso. lra.
  - done.
  - split; [done|]. lra.
  - lra.
Qed.

(** C2. The ion quotient [q] of a row is rounded to two decimals, half up
    on the third decimal digit (the result is the double nearest to that
    decimal), and the ion-balance diagnostic holds exactly when the rounded
    value lies in [0.9, 1.1], both ends included. A quotient read from
    ["1,004"] rounds to 1.00 and is valid, one read from ["1,114"] rounds to
    1.11 and is not, and the rounded values 0.90 and 1.10 are valid. [q] is
    the double that was read: 1.125 is a double and rounds up to 1.13, the
    doubles read from ["1,005"] and ["1,105"] lie just below these decimals
    and round to 1.00 and 1.10. *)
Theorem C2_ion_balance_rounding (headers : list string) (row : LabDataRow) :
  let a := IonBalanceAnalysis.processRow headers row in
  (∀ q, numQuotientIons a = JsNumber.Fin q →
     ((Qabs q < 10 ^ 21)%Q →
        roundedQuotientIons a = JsNumber.round64 (roundHalfUp2dp q)) ∧
     (isIbOk a = true ↔ (0.9 <= roundHalfUp2dp q ∧ roundHalfUp2dp q <= 1.1)%Q)) ∧
  (isIbOk a = true ↔
     num_le (JsNumber.lit 0.9) (roundedQuotientIons a) ∧
     num_le (roundedQuotientIons a) (JsNumber.lit 1.1)) ∧
  ReportView.ibRow headers row = a ∧
  (let ex q := IonBalanceAnalysis.processRow ib_headers (ib_row false "" "" "" q "") in
   JsNumber.toFixed (numQuotientIons (ex "1,004")) 2 = "1.00" ∧
   roundedQuotientIons (ex "1,004") = JsNumber.Fin 1 ∧ isIbOk (ex "1,004") = true ∧
   JsNumber.toFixed (numQuotientIons (ex "1,114")) 2 = "1.11" ∧
   roundedQuotientIons (ex "1,114") = JsNumber.lit 1.11 ∧ isIbOk (ex "1,114") = false ∧
   roundedQuotientIons (ex "0,90") = JsNumber.lit 0.9 ∧ isIbOk (ex "0,90") = true ∧
   roundedQuotientIons (ex "1,10") = JsNumber.lit 1.1 ∧ isIbOk (ex "1,10") = true ∧
   roundedQuotientIons (ex "0,895") = JsNumber.lit 0.9 ∧ isIbOk (ex "0,895") = true ∧
   roundedQuotientIons (ex "0,894") = JsNumber.lit 0.89 ∧ isIbOk (ex "0,894") = false ∧
   roundedQuotientIons (ex "1,125") = JsNumber.lit 1.13 ∧ isIbOk (ex "1,125") = false ∧
   JsNumber.toFixed (numQuotientIons (ex "1,005")) 2 = "1.00" ∧
   roundedQuotientIons (ex "1,105") = JsNumber.lit 1.1 ∧ isIbOk (ex "1,105") = true).
Proof.
  intros a.
  destruct (processRow_fields headers row) as (_ & _ & _ & _ & Hr & Hib & _).
  fold a in Hr, Hib. split; [|split; [|split]].
  - intros q Hq. rewrite Hq in Hr. cbn [JsNumber.isNaN negb] in Hr. split.
    + intros Hsmall. rewrite Hr. rewrite parseFloat_toFixed2_small.
      * unfold roundHalfUp2dp. by rewrite hundredths_third_digit.
      * destruct (Qle_bool (10 ^ 21) (Qabs q)) eqn:E; [|done].
        apply Qle_bool_iff in E. lra.
    + rewrite Hib, Hr, inBand_rounded. symmetry. apply roundHalfUp2dp_band.
  - rewrite Hib. apply inBand_le.
  - apply ibRow_processRow.
  - by vm_compute.
Qed.

(** C3. The conductivity quotient is the measured conductivity divided by
    the theoretical one. When an operand is missing or not a number, or the
    theoretical value is zero, there is no quotient (NaN, never zero) and the
    diagnostic is not valid. Otherwise the diagnostic is valid exactly when
    the quotient lies in [0.9, 1.1] for a measured value above 20, in
    [0.8, 1.2] for one from 10 to 20, in [0.7, 1.3] for one below 10, ends
    included. 25 over 25 gives 1 and is valid; 15 over 10 gives 1.5 and is
    not. *)
Theorem C3_conductivity_quotient_bands (headers : list string) (row : LabDataRow) :
  let a := IonBalanceAnalysis.processRow headers row in
  let m := numCond a in
  let t := numTheoCond a in
  let cq := calculatedCondQuotient a in
  (JsNumber.isNaN m = true ∨ JsNumber.isNaN t = true ∨
   (∃ q, t = JsNumber.Fin q ∧ (q == 0)%Q) →
     cq = JsNumber.NaN ∧ isLfOk a = false) ∧
  (JsNumber.isNaN m = false → JsNumber.isNaN t = false →
   ¬ (∃ q, t = JsNumber.Fin q ∧ (q == 0)%Q) →
     cq = JsNumber.div m t ∧
     (∀ qm qt, m = JsNumber.Fin qm → t = JsNumber.Fin qt →
        cq = JsNumber.round64 (qm / qt)) ∧
     (num_lt (JsNumber.Fin 20) m →
        (isLfOk a = true ↔
         num_le (JsNumber.lit 0.9) cq ∧ num_le cq (JsNumber.lit 1.1))) ∧
     (num_le (JsNumber.Fin 10) m → num_le m (JsNumber.Fin 20) →
        (isLfOk a = true ↔
         num_le (JsNumber.lit 0.8) cq ∧ num_le cq (JsNumber.lit 1.2))) ∧
     (num_lt m (JsNumber.Fin 10) →
        (isLfOk a = true ↔
         num_le (JsNumber.lit 0.7) cq ∧ num_le cq (JsNumber.lit 1.3))) ∧
     (num_lt (JsNumber.Fin 20) m ∨
      (num_le (JsNumber.Fin 10) m ∧ num_le m (JsNumber.Fin 20)) ∨
      num_lt m (JsNumber.Fin 10))) ∧
  m = IonBalanceAnalysis.parseGermanFloat (Some (valCond a)) ∧
  t = IonBalanceAnalysis.parseGermanFloat
        (IonBalanceAnalysis.cellOf row
           (IonBalanceAnalysis.findHeader (String.eqb "Theo elekt Leit (EU) korr") headers)) ∧
  ReportView.ibRow headers row = a ∧
  IonBalanceAnalysis.parseGermanFloat None = JsNumber.NaN ∧
  IonBalanceAnalysis.parseGermanFloat (Some "") = JsNumber.NaN ∧
  IonBalanceAnalysis.parseGermanFloat (Some "n.b.") = JsNumber.NaN ∧
  (let ex cond theo :=
     IonBalanceAnalysis.processRow ib_headers (ib_row false "" cond "" "" theo) in
   calculatedCondQuotient (ex "25" "25") = JsNumber.Fin 1 ∧ isLfOk (ex "25" "25") = true ∧
   calculatedCondQuotient (ex "15" "10") = JsNumber.lit 1.5 ∧ isLfOk (ex "15" "10") = false ∧
   calculatedCondQuotient (ex "15" "0") = JsNumber.NaN ∧ isLfOk (ex "15" "0") = false ∧
   calculatedCondQuotient (ex "" "10") = JsNumber.NaN ∧ isLfOk (ex "" "10") = false).
Proof.
  intros a m t cq.
  destruct (processRow_fields headers row) as (_ & _ & Ht & Hm & _ & _ & Hlf & _).
  fold a in Ht, Hm, Hlf. fold m t in Hlf. fold m in Hm. fold t in Ht.
  assert (calculatedCondQuotient a = (conductivityCheck m t).1 ∧
          isLfOk a = (conductivityCheck m t).2) as [Hcq Hok]
    by (rewrite <- Hlf; split; reflexivity).
  fold cq in Hcq. clearbody cq m t. unfold conductivityCheck in Hcq, Hok.
  rewrite <- (strictNotEqual_zero t).
  split; [|split; [|split; [exact Hm|split; [exact Ht|split;
    [apply ibRow_processRow|by vm_compute]]]]].
  - intros Hundef.
    assert (negb (JsNumber.isNaN m) && negb (JsNumber.isNaN t)
            && JsNumber.strictNotEqual t (JsNumber.Fin 0) = false) as E.
    { destruct Hundef as [-> | [-> | ->]]; [done|by rewrite andb_false_r|by rewrite andb_false_r]. }
    rewrite E in Hcq, Hok. done.
  - intros Hm0 Ht0 Hne%not_false_iff_true.
    rewrite Hm0, Ht0, Hne in Hcq, Hok. cbn [negb andb fst snd] in Hcq, Hok.
    rewrite Hcq. split; [done|]. split; [|split; [|split; [|split]]].
    + intros qm qt -> ->. apply div_Fin. intros Hz.
      cbn in Hne. apply negb_true_iff in Hne. apply Qeq_bool_iff in Hz. congruence.
    + intros Hgt. unfold num_lt in Hgt. unfold JsNumber.gt in Hok. rewrite Hgt in Hok.
      rewrite Hok. unfold num_le, JsNumber.ge. apply andb_true_iff.
    + intros Hge Hle. unfold JsNumber.gt in Hok.
      rewrite (le_lt_false _ _ Hle) in Hok. unfold JsNumber.ge in Hok at 1.
      unfold num_le in Hge. rewrite Hge in Hok.
      rewrite Hok. unfold num_le, JsNumber.ge. apply andb_true_iff.
    + intros Hlt. unfold JsNumber.gt in Hok.
      rewrite (lt_below_above 10 20 m) in Hok by (done || by vm_compute).
      unfold JsNumber.ge in Hok at 1. rewrite (lt_le_false _ _ Hlt) in Hok.
      rewrite Hok. unfold num_le, JsNumber.ge. apply andb_true_iff.
    + unfold num_lt, num_le.
      destruct (lt_le_total (JsNumber.Fin 20) m) as [|Hle]; [done..|by left|].
      destruct (lt_le_total m (JsNumber.Fin 10)) as [|Hge]; [done..|by right; right|].
      right; left. done.
Qed.

(** C7. A repeat row has the empty remark. Otherwise, with both
    diagnostics available the remark is one of the four texts chosen by the
    pair (ion balance ok, conductivity ok); with only the ion balance
    available it is "IB ok" or "IB nicht ok"; with neither it is empty. The
    ion balance is available when the ion quotient is a number, the
    conductivity diagnostic when the computed quotient is one. *)
Theorem C7_remark (headers : list string) (row : LabDataRow) :
  let a := IonBalanceAnalysis.processRow headers row in
  let hasIb := JsNumber.isNaN (roundedQuotientIons a) = false in
  let hasLf := JsNumber.isNaN (calculatedCondQuotient a) = false in
  (isRepeat row = true → bem a = "") ∧
  (isRepeat row = false →
     (hasIb → hasLf →
        bem a = match isIbOk a, isLfOk a with
                | true, true => "ok"
                | true, false => "IB ok, LF nicht"
                | false, true => "IB nicht ok ; LF ok"
                | false, false => "IB nicht ok + LF nicht ok"
                end) ∧
     (hasIb → ¬ hasLf → bem a = if isIbOk a then "IB ok" else "IB nicht ok") ∧
     (¬ hasIb → bem a = "")) ∧
  (hasIb ↔ JsNumber.isNaN (numQuotientIons a) = false) ∧
  ReportView.ibRow headers row = a ∧
  (let ex repeat cond qi theo :=
     bem (IonBalanceAnalysis.processRow ib_headers (ib_row repeat "" cond "" qi theo)) in
   ex false "25" "1,00" "25" = "ok" ∧
   ex false "15" "1,00" "10" = "IB ok, LF nicht" ∧
   ex false "25" "1,20" "25" = "IB nicht ok ; LF ok" ∧
   ex false "15" "1,20" "10" = "IB nicht ok + LF nicht ok" ∧
   ex false "" "1,00" "" = "IB ok" ∧
   ex false "" "1,20" "" = "IB nicht ok" ∧
   ex false "" "" "" = "" ∧
   ex false "25" "" "25" = "" ∧
   ex true "15" "1,20" "10" = "").
Proof.
  intros a hasIb hasLf. subst hasIb hasLf.
  destruct (processRow_fields headers row) as (_ & _ & _ & _ & Hr & _ & _ & Hbem & _).
  fold a in Hr, Hbem. rewrite Hbem. cbv zeta.
  split; [by intros ->|]. split; [|split; [|split; [apply ibRow_processRow|by vm_compute]]].
  - intros ->. cbn [negb]. repeat split.
    + intros -> ->. by destruct (isIbOk a), (isLfOk a).
    + intros -> ->%not_false_iff_true. done.
    + by intros ->%not_false_iff_true.
  - rewrite Hr. destruct (JsNumber.isNaN (numQuotientIons a)) eqn:E; [done|].
    cbn [negb]. split; [done|]. intros _. by apply parseFloat_toFixed2_not_NaN.
Qed.


(** ** Base names and the header pattern *)

Section regexp_facts.
Import JsString JsNumber RegExp.
Local Abbreviation text := string_of_list_ascii.

Lemma span_digits_spec (s : string) :
  ∃ ds r, span_digits s = (ds, r) ∧ s = text ds +:+ r ∧ all_digits ds ∧
          span_digits r = ([], r).
Proof.
  induction s as [|c s (ds & r & E & Hs & Hds & Hr)]; cbn [span_digits].
  - exists [], "". repeat split. constructor.
  - destruct (is_digit c) eqn:Hc.
    + rewrite E. exists (c :: ds), r. split; [done|]. split.
      * cbn [string_of_list_ascii]. rewrite append_String. by rewrite <- Hs.
      * split; [by constructor|done].
    + exists [], (String c s). repeat split; [constructor|].
      cbn [span_digits]. by rewrite Hc.
Qed.

Lemma span_digits_nil_inv (s : string) :
  span_digits s = ([], s) → s = "" ∨ ∃ c s', s = String c s' ∧ is_digit c = false.
Proof.
  destruct s as [|c s]; [by left|]. cbn [span_digits]. destruct (is_digit c) eqn:E.
  - destruct (span_digits s). by intros [= ].
  - right. by exists c, s.
Qed.

Lemma span_digits_point (r : string) : span_digits (String "." r) = ([], String "." r).
Proof. reflexivity. Qed.

Lemma numericSuffixAt_spec (s : string) : numericSuffixAt s = true ↔ NumericSuffix s.
Proof.
  unfold numericSuffixAt, NumericSuffix. split.
  - destruct (span_digits_spec s) as (d1 & r1 & -> & -> & Hd1 & _).
    destruct d1 as [|c1 d1]; [done|]. destruct r1 as [|c r]; [done|].
    case_decide as Hc; [subst c|done].
    destruct (span_digits_spec r) as (d2 & r2 & -> & -> & Hd2 & _).
    destruct d2 as [|c2 d2]; [done|]. destruct r2; [|done]. intros _.
    exists (c1 :: d1), (c2 :: d2). repeat split; try done.
    by rewrite append_empty_r.
  - intros (d1 & d2 & Hd1 & Hd2 & Hn1 & Hn2 & ->).
    change ("." +:+ text d2) with (String "." (text d2)).
    rewrite span_digits_text by done.
    destruct d1 as [|c1 d1]; [done|]. rewrite decide_True by done.
    rewrite <- (append_empty_r (text d2)), span_digits_text by done.
    by destruct d2.
Qed.

Lemma nonDigits_app (a b : string) : nonDigits (a +:+ b) = (nonDigits a + nonDigits b)%nat.
Proof.
  induction a as [|c a IH]; [done|]. rewrite append_String. cbn [nonDigits].
  rewrite IH. lia.
Qed.

Lemma nonDigits_text (ds : list ascii) : all_digits ds → nonDigits (text ds) = 0%nat.
Proof. induction 1 as [|c ds Hc _ IH]; [done|]. cbn. by rewrite Hc, IH. Qed.

Lemma nonDigits_NumericSuffix (s : string) : NumericSuffix s → nonDigits s = 1%nat.
Proof.
  intros (d1 & d2 & H1 & H2 & _ & _ & ->).
  by rewrite !nonDigits_app, !nonDigits_text.
Qed.

Lemma endsWithDigit_app (a b : string) :
  b ≠ "" → endsWithDigit (a +:+ b) = endsWithDigit b.
Proof.
  intros Hb. induction a as [|c a IH]; [done|]. rewrite append_String.
  cbn [endsWithDigit]. rewrite IH. destruct (a +:+ b) eqn:E; [|done].
  destruct a; [done|]. by rewrite append_String in E.
Qed.

Lemma endsWithDigit_text (ds : list ascii) :
  all_digits ds → ds ≠ [] → endsWithDigit (text ds) = true.
Proof.
  induction 1 as [|c ds Hc Hds IH]; [done|]. intros _.
  destruct ds as [|d ds]; [done|]. by apply IH.
Qed.

Lemma endsWithDigit_NumericSuffix (a s : string) :
  NumericSuffix s → endsWithDigit (a +:+ s) = true.
Proof.
  intros (d1 & d2 & H1 & H2 & _ & Hn & ->).
  assert (text d2 ≠ "") as Hd2 by (by destruct d2).
  rewrite (endsWithDigit_app a), (endsWithDigit_app (text d1)), (endsWithDigit_app ".");
    [by apply endsWithDigit_text|done..|].
  destruct d1; [done|]. by rewrite append_String.
Qed.

Lemma endsWithDigit_nonDigits (s : string) :
  nonDigits s = 0%nat → s ≠ "" → endsWithDigit s = true.
Proof.
  induction s as [|c s IH]; [done|]. cbn [nonDigits]. intros Hn _.
  destruct (is_digit c) eqn:Hc; [|lia].
  destruct s as [|d s]; [done|]. apply IH; [lia|done].
Qed.

Lemma NumericSuffix_cons (c : ascii) (s : string) :
  is_digit c = true → NumericSuffix s → NumericSuffix (String c s).
Proof.
  intros Hc (d1 & d2 & H1 & H2 & Hn1 & Hn2 & ->).
  exists (c :: d1), d2. repeat split; [by constructor|done..].
Qed.

Lemma NumericSuffix_nonempty (s : string) : NumericSuffix s → s ≠ "".
Proof. intros (d1 & d2 & _ & _ & Hn & _ & ->). destruct d1; [done|]. by rewrite append_String. Qed.

(** What the replacement does: nothing, when no suffix of the text is a
    numeric suffix; otherwise it cuts off a numeric suffix, the longest. *)
Lemma replaceNumericSuffix_cases (s : string) :
  (replaceNumericSuffix s = s ∧ ∀ a suffix, s = a +:+ suffix → ¬ NumericSuffix suffix) ∨
  (∃ suffix, NumericSuffix suffix ∧ s = replaceNumericSuffix s +:+ suffix ∧
             endsWithDigit (replaceNumericSuffix s) = false).
Proof.
  induction s as [|c s IH]; cbn [replaceNumericSuffix].
  - left. split; [done|]. intros a suffix E Hs%NumericSuffix_nonempty.
    destruct a; [by rewrite append_empty_l in E|by rewrite append_String in E].
  - destruct (numericSuffixAt (String c s)) eqn:Hat.
    + right. exists (String c s). by rewrite numericSuffixAt_spec in Hat.
    + assert (¬ NumericSuffix (String c s)) as Hno
        by (rewrite <- numericSuffixAt_spec; congruence).
      destruct IH as [[-> Hnone] | (suffix & Hs & E & Hend)].
      * left. split; [done|]. intros [|c' a] suffix E.
        -- rewrite append_empty_l in E. by subst.
        -- rewrite append_String in E. injection E as -> E. by apply (Hnone a).
      * right. exists suffix. split; [done|]. split.
        -- rewrite append_String. by rewrite <- E.
        -- destruct (replaceNumericSuffix s) eqn:Er; [|done].
           rewrite append_empty_l in E. subst suffix. cbn [endsWithDigit].
           destruct (is_digit c) eqn:Hc; [|done].
           exfalso. by apply Hno, NumericSuffix_cons.
Qed.

Lemma replaceNumericSuffix_no_digit (s : string) :
  endsWithDigit s = false → replaceNumericSuffix s = s.
Proof.
  intros Hend. destruct (replaceNumericSuffix_cases s) as [[E _]|(suffix & Hs & E & _)];
    [done|].
  rewrite E, endsWithDigit_NumericSuffix in Hend by done. done.
Qed.

Lemma replaceNumericSuffix_idempotent (s : string) :
  replaceNumericSuffix (replaceNumericSuffix s) = replaceNumericSuffix s.
Proof.
  destruct (replaceNumericSuffix_cases s) as [[E _]|(suffix & _ & _ & Hend)].
  - by rewrite !E.
  - by apply replaceNumericSuffix_no_digit.
Qed.

Lemma replaceNumericSuffix_strip (b suffix : string) :
  endsWithDigit b = false → NumericSuffix suffix →
  replaceNumericSuffix (b +:+ suffix) = b.
Proof.
  intros Hb Hs. induction b as [|c b IH].
  - rewrite append_empty_l. destruct suffix; cbn [replaceNumericSuffix];
      by rewrite (proj2 (numericSuffixAt_spec _) Hs).
  - rewrite append_String. cbn [replaceNumericSuffix].
    destruct (numericSuffixAt (String c (b +:+ suffix))) eqn:Hat.
    + exfalso. apply numericSuffixAt_spec, nonDigits_NumericSuffix in Hat.
      rewrite <- append_String, nonDigits_app, (nonDigits_NumericSuffix suffix) in Hat by done.
      rewrite endsWithDigit_nonDigits in Hb; [done|lia|done].
    + f_equal. apply IH. destruct b; [done|exact Hb].
Qed.

End regexp_facts.

(** X1. The base name of a header is the header without its numeric suffix:
    digits, a point and digits at the end of the text, taken as long as
    possible, so that what is left does not end in a digit. A header with
    no such suffix is its own base name, as is every header that does not
    end in a digit; taking the base name twice changes nothing; the copies
    of the function in the selection view, the report view and the
    application agree. ["ICCa2.1"] gives ["ICCa"], ["a1.2.3"] gives ["a1."]
    and ["1.5"] the empty text. *)
Theorem X1_getBaseName_numeric_suffix :
  (∀ h, (DataSelection.getBaseName h = h ∧
         ∀ a suffix, h = a +:+ suffix → ¬ NumericSuffix suffix) ∨
        ∃ suffix, NumericSuffix suffix ∧
                  h = DataSelection.getBaseName h +:+ suffix ∧
                  endsWithDigit (DataSelection.getBaseName h) = false) ∧
  (∀ b suffix, endsWithDigit b = false → NumericSuffix suffix →
               DataSelection.getBaseName (b +:+ suffix) = b) ∧
  (∀ h, endsWithDigit h = false → DataSelection.getBaseName h = h) ∧
  (∀ h, DataSelection.getBaseName (DataSelection.getBaseName h)
        = DataSelection.getBaseName h) ∧
  (∀ h, ReportView.getBaseName h = DataSelection.getBaseName h ∧
        App.getBaseParamName h = DataSelection.getBaseName h) ∧
  DataSelection.getBaseName "ICCa2.1" = "ICCa" ∧
  DataSelection.getBaseName "LFLFLFM3.1" = "LFLFLFM" ∧
  DataSelection.getBaseName "TOCNPOC20.1" = "TOCNPOC" ∧
  DataSelection.getBaseName "Corg berechnet" = "Corg berechnet" ∧
  DataSelection.getBaseName "a1.2.3" = "a1." ∧
  DataSelection.getBaseName "1.5" = "".
Proof.
  unfold DataSelection.getBaseName, ReportView.getBaseName, App.getBaseParamName.
  split; [|split; [|split; [|split; [|split; [done|by vm_compute]]]]].
  - apply replaceNumericSuffix_cases.
  - apply replaceNumericSuffix_strip.
  - apply replaceNumericSuffix_no_digit.
  - apply replaceNumericSuffix_idempotent.
Qed.

Section device_facts.
Import JsString JsNumber RegExp.
Local Abbreviation text := string_of_list_ascii.

Lemma append_assoc (a b c : string) : (a +:+ b) +:+ c = a +:+ (b +:+ c).
Proof. induction a as [|x a IH]; [done|]. rewrite !append_String. by rewrite IH. Qed.

Lemma toUpperCase_app (a b : string) :
  toUpperCase (a +:+ b) = toUpperCase a +:+ toUpperCase b.
Proof.
  induction a as [|c a IH]; [done|]. rewrite append_String. cbn [toUpperCase].
  by rewrite IH, append_assoc.
Qed.

Lemma allChars_app P (a b : string) : allChars P (a +:+ b) = allChars P a && allChars P b.
Proof.
  induction a as [|c a IH]; [done|]. rewrite append_String. cbn [allChars].
  by rewrite IH, andb_assoc.
Qed.

Lemma allChars_text_digits (ds : list ascii) :
  all_digits ds → allChars numeric_char (text ds) = true.
Proof.
  induction 1 as [|c ds Hc _ IH]; [done|]. cbn [string_of_list_ascii allChars].
  unfold numeric_char at 1. by rewrite Hc, IH.
Qed.

Lemma NumericSuffix_chars (s : string) : NumericSuffix s → allChars numeric_char s = true.
Proof.
  intros (d1 & d2 & H1 & H2 & _ & _ & ->).
  by rewrite !allChars_app, !allChars_text_digits.
Qed.

Lemma upper_char_numeric (c : ascii) : numeric_char c = true → upper_char c = String c "".
Proof. destruct c as [[] [] [] [] [] [] [] []]; by vm_compute. Qed.

Lemma toUpperCase_numeric (s : string) : allChars numeric_char s = true → toUpperCase s = s.
Proof.
  induction s as [|c s IH]; [done|]. cbn [allChars toUpperCase].
  intros [Hc Hs]%andb_true_iff. by rewrite upper_char_numeric, IH.
Qed.

Lemma startsWith_app_other (b s p : string) :
  allChars numeric_char s = true → allChars (λ c, negb (numeric_char c)) p = true →
  p ≠ "" → startsWith (b +:+ s) p = startsWith b p.
Proof.
  intros Hs. revert b. induction p as [|a p IH]; [done|]. intros b Hp _.
  cbn [allChars] in Hp. apply andb_true_iff in Hp as [Ha Hp].
  destruct b as [|c b].
  - rewrite append_empty_l. destruct s as [|d s]; [done|]. cbn [startsWith].
    cbn [allChars] in Hs. apply andb_true_iff in Hs as [Hd _].
    rewrite decide_False; [done|]. intros ->. by rewrite Hd in Ha.
  - rewrite append_String. cbn [startsWith]. case_decide; [|done].
    destruct p; [done|]. by apply IH.
Qed.

Lemma includes_app_other (b s p : string) :
  allChars numeric_char s = true → allChars (λ c, negb (numeric_char c)) p = true →
  p ≠ "" → includes (b +:+ s) p = includes b p.
Proof.
  intros Hs Hp Hne. induction b as [|c b IH].
  - rewrite append_empty_l. clear -Hs Hp Hne. induction s as [|d s IH].
    + done.
    + pose proof (startsWith_app_other "" (String d s) p Hs Hp Hne) as E.
      rewrite append_empty_l in E. cbn [includes]. rewrite E.
      cbn [allChars] in Hs. apply andb_true_iff in Hs as [_ Hs].
      rewrite (IH Hs). by destruct p.
  - rewrite append_String. cbn [includes].
    rewrite <- append_String, startsWith_app_other by done. by rewrite IH.
Qed.

Lemma includes_app_mono (b s p : string) :
  includes b p = true → includes (b +:+ s) p = true.
Proof.
  rewrite !includes_spec. intros (x & y & ->). exists x, (y +:+ s).
  by rewrite !append_assoc.
Qed.

(** The group of a base name is the group of its header, unless a marker
    [M1.], [M3.] or [M8.] of the header ends in the numeric suffix. *)
Lemma getDeviceGroup_base (h : string) :
  DataSelection.getDeviceGroup (replaceNumericSuffix h) = DataSelection.getDeviceGroup h ∨
  (DataSelection.getDeviceGroup h = pH_LF_TIT ∧
   (Contains "M1." (toUpperCase h) ∨ Contains "M3." (toUpperCase h)
    ∨ Contains "M8." (toUpperCase h))).
Proof.
  destruct (replaceNumericSuffix_cases h) as [[-> _]|(suffix & Hs & E & _)]; [by left|].
  set (b := replaceNumericSuffix h) in *. clearbody b. subst h.
  apply NumericSuffix_chars in Hs.
  unfold DataSelection.getDeviceGroup. rewrite <- !includes_spec.
  rewrite toUpperCase_app, (toUpperCase_numeric suffix) by done.
  set (u := toUpperCase b).
  rewrite !(includes_app_other u suffix "TIT"), !(includes_app_other u suffix "HH+PHM"),
    !(includes_app_other u suffix "LFLFM"), !(includes_app_other u suffix "TOC"),
    !(includes_app_other u suffix "ICP"), !(includes_app_other u suffix "IC") by done.
  pose proof (includes_app_mono u suffix "M1.") as H1.
  pose proof (includes_app_mono u suffix "M3.") as H3.
  pose proof (includes_app_mono u suffix "M8.") as H8.
  destruct (includes (u +:+ suffix) "M1."), (includes (u +:+ suffix) "M3."),
    (includes (u +:+ suffix) "M8.");
    try (right; rewrite ?orb_true_r; cbn; split; [reflexivity|tauto]).
  left.
  destruct (includes u "M1."); [by discriminate H1|].
  destruct (includes u "M3."); [by discriminate H3|].
  destruct (includes u "M8."); [by discriminate H8|]. done.
Qed.

End device_facts.

(** X2. A base name has the device group of its header, unless the header
    is of the pH/LF/TIT group and has one of the markers [M1.], [M3.] and
    [M8.] in it: the point of such a marker may be the point of the numeric
    suffix. ["LFLFLFM3.1"] and its base name are both of the pH/LF/TIT
    group; ["pHM3.1"] is of that group and its base name ["pHM"] of the
    group Sonstige. *)
Theorem X2_getDeviceGroup_of_base_name :
  (∀ h, DataSelection.getDeviceGroup (DataSelection.getBaseName h)
        = DataSelection.getDeviceGroup h ∨
        (DataSelection.getDeviceGroup h = pH_LF_TIT ∧
         (Contains "M1." (JsString.toUpperCase h) ∨ Contains "M3." (JsString.toUpperCase h)
          ∨ Contains "M8." (JsString.toUpperCase h)))) ∧
  (∀ h, DataSelection.getDeviceGroup h ≠ pH_LF_TIT →
        DataSelection.getDeviceGroup (DataSelection.getBaseName h)
        = DataSelection.getDeviceGroup h) ∧
  DataSelection.getDeviceGroup "LFLFLFM3.1" = pH_LF_TIT ∧
  DataSelection.getDeviceGroup (DataSelection.getBaseName "LFLFLFM3.1") = pH_LF_TIT ∧
  DataSelection.getDeviceGroup "pHM3.1" = pH_LF_TIT ∧
  DataSelection.getDeviceGroup (DataSelection.getBaseName "pHM3.1") = Sonstige.
Proof.
  split; [|split; [|by vm_compute]].
  - apply getDeviceGroup_base.
  - intros h Hh. destruct (getDeviceGroup_base h) as [E|[E _]]; done.
Qed.

Section pattern_facts.
Import JsString JsNumber RegExp.
Local Abbreviation text := string_of_list_ascii.

Lemma Contains_step (p : string) (c : ascii) (s : string) :
  Contains p (String c s) ↔ startsWith (String c s) p = true ∨ Contains p s.
Proof.
  rewrite <- !includes_spec. cbn [includes]. by rewrite orb_true_iff.
Qed.

Lemma Contains_empty (p : string) : Contains p "" ↔ startsWith "" p = true.
Proof. rewrite <- includes_spec. cbn [includes]. by rewrite orb_false_r. Qed.

Lemma mDigitsPointAt_spec (s : string) :
  mDigitsPointAt s = true ↔
  ∃ ds b, all_digits ds ∧ ds ≠ [] ∧ s = "M" +:+ text ds +:+ "." +:+ b.
Proof.
  unfold mDigitsPointAt. split.
  - destruct s as [|c r]; [done|]. case_decide as Hc; [subst c|done].
    destruct (span_digits_spec r) as (ds & r' & -> & -> & Hds & _).
    destruct ds as [|d ds]; [done|]. destruct r' as [|c' b]; [done|].
    intros ->%bool_decide_eq_true. by exists (d :: ds), b.
  - intros (ds & b & Hds & Hne & ->).
    change ("M" +:+ text ds +:+ "." +:+ b) with (String "M" (text ds +:+ String "." b)).
    cbv beta iota. rewrite decide_True by done. rewrite span_digits_text by done.
    destruct ds; [done|]. by apply bool_decide_eq_true.
Qed.

Lemma MDigitsPoint_step (c : ascii) (s : string) :
  MDigitsPoint (String c s) ↔ mDigitsPointAt (String c s) = true ∨ MDigitsPoint s.
Proof.
  rewrite mDigitsPointAt_spec. unfold MDigitsPoint. split.
  - intros ([|x a] & ds & b & Hds & Hne & E).
    + left. exists ds, b. by rewrite append_empty_l in E.
    + right. rewrite append_String in E. injection E as -> ->. by exists a, ds, b.
  - intros [(ds & b & Hds & Hne & E)|(a & ds & b & Hds & Hne & ->)].
    + exists "", ds, b. by rewrite append_empty_l.
    + exists (String c a), ds, b. by rewrite append_String.
Qed.

Lemma MDigitsPoint_empty : ¬ MDigitsPoint "".
Proof.
  intros ([|x a] & ds & b & _ & _ & E); [by rewrite append_empty_l in E|].
  by rewrite append_String in E.
Qed.

Lemma testDevicePattern_spec (s : string) :
  testDevicePattern s = true ↔
  Contains "ICP" s ∨ Contains "IC" s ∨ Contains "TOC" s ∨ Contains "TIT" s
  ∨ MDigitsPoint s ∨ Contains "HH+PHM" s ∨ Contains "LFLFM" s.
Proof.
  induction s as [|c s IH].
  - rewrite !Contains_empty. pose proof MDigitsPoint_empty. cbn. intuition congruence.
  - cbn [testDevicePattern]. rewrite orb_true_iff, IH. unfold devicePatternAt.
    rewrite !orb_true_iff, !Contains_step, MDigitsPoint_step. tauto.
Qed.

Lemma Contains_M_digit (d : ascii) (s : string) :
  is_digit d = true → Contains (String "M" (String d ".")) s → MDigitsPoint s.
Proof.
  intros Hd (a & b & ->). exists a, [d], b. repeat split; [by repeat constructor|done].
Qed.

Lemma getDeviceGroup_Sonstige (h : string) :
  DataSelection.getDeviceGroup h ≠ Sonstige ↔
  pH_marker (toUpperCase h) ∨ Contains "TOC" (toUpperCase h)
  ∨ Contains "ICP" (toUpperCase h) ∨ Contains "IC" (toUpperCase h).
Proof.
  unfold DataSelection.getDeviceGroup, pH_marker. rewrite <- !includes_spec.
  set (u := toUpperCase h).
  destruct (includes u "TIT"), (includes u "M1."), (includes u "M3."),
    (includes u "M8."), (includes u "HH+PHM"), (includes u "LFLFM"),
    (includes u "TOC"), (includes u "ICP"), (includes u "IC"); cbn;
    intuition congruence.
Qed.

Lemma testDevicePattern_group (h : string) :
  testDevicePattern (toUpperCase h) = true ↔
  DataSelection.getDeviceGroup h ≠ Sonstige ∨ MDigitsPoint (toUpperCase h).
Proof.
  rewrite testDevicePattern_spec, getDeviceGroup_Sonstige. unfold pH_marker.
  pose proof (Contains_M_digit "1" (toUpperCase h) eq_refl).
  pose proof (Contains_M_digit "3" (toUpperCase h) eq_refl).
  pose proof (Contains_M_digit "8" (toUpperCase h) eq_refl).
  tauto.
Qed.

End pattern_facts.

(** X3. The header pattern of the selection view and the report view
    accepts a header exactly when its device group is not Sonstige or its
    upper-case form has an M, digits and a point in a row; the relevant
    headers of a dataset are its result headers that the pattern accepts,
    and both views compute the same list. ["Corg berechnet"] is not
    accepted; ["xM10.2"] is, and its group is Sonstige. *)
Theorem X3_relevant_headers :
  (∀ h, RegExp.testDevicePattern (JsString.toUpperCase h) = true ↔
        DataSelection.getDeviceGroup h ≠ Sonstige ∨ MDigitsPoint (JsString.toUpperCase h)) ∧
  (∀ d h, h ∈ DataSelection.relevantHeaders d ↔
          h ∈ resultHeaders d ∧
          (DataSelection.getDeviceGroup h ≠ Sonstige
           ∨ MDigitsPoint (JsString.toUpperCase h))) ∧
  (∀ d, ReportView.allRelevantHeaders d = DataSelection.relevantHeaders d) ∧
  RegExp.testDevicePattern (JsString.toUpperCase "Corg berechnet") = false ∧
  RegExp.testDevicePattern (JsString.toUpperCase "xM10.2") = true ∧
  DataSelection.getDeviceGroup "xM10.2" = Sonstige.
Proof.
  split; [apply testDevicePattern_group|]. split; [|split; [done|by vm_compute]].
  intros d h. unfold DataSelection.relevantHeaders.
  rewrite list_elem_of_In, filter_In, <- list_elem_of_In.
  by rewrite testDevicePattern_group.
Qed.

(** ** Orderings of rows, parameters and columns *)

Section comparator_facts.
Context {A : Type}.

Lemma Consistent_total (cmp : A → A → Z) :
  Consistent cmp → ∀ a b, 0 ≤ cmp a b → cmp b a ≤ 0.
Proof. intros [Hs _] a b H. destruct (Z_lt_le_dec 0 (cmp b a)) as [Hlt|]; [|done].
  apply Hs in Hlt. lia. Qed.

Lemma Consistent_zero (cmp : A → A → Z) :
  Consistent cmp → ∀ a b, cmp a b = 0 → cmp b a = 0.
Proof.
  intros [Hs _] a b H. pose proof (Hs a b). pose proof (Hs b a). lia.
Qed.

(** A comparison that falls back on a second one where the first gives 0. *)
Lemma Consistent_lex (c1 c2 c : A → A → Z) :
  (∀ a b, c a b = if negb (c1 a b =? 0) then c1 a b else c2 a b) →
  Consistent c1 → Consistent c2 → Consistent c.
Proof.
  intros Hc H1 H2.
  assert (∀ a b, (c1 a b ≠ 0 ∧ c a b = c1 a b) ∨ (c1 a b = 0 ∧ c a b = c2 a b)) as Hcase.
  { intros a b. rewrite Hc. destruct (c1 a b =? 0) eqn:E; [right|left].
    - by apply Z.eqb_eq in E.
    - by apply Z.eqb_neq in E. }
  pose proof (Consistent_zero c1 H1) as Hz.
  destruct H1 as [S1 T1], H2 as [S2 T2]. split.
  - intros a b. pose proof (S1 a b). pose proof (S1 b a). pose proof (S2 a b).
    pose proof (Hz a b). pose proof (Hz b a).
    destruct (Hcase a b) as [[? ->]|[? ->]], (Hcase b a) as [[? ->]|[? ->]]; lia.
  - intros x y z Hxy Hyz.
    pose proof (T1 x y z) as T. pose proof (T2 x y z) as T'.
    pose proof (S1 x y). pose proof (S1 y z). pose proof (S1 x z). pose proof (S1 z x).
    pose proof (S1 y x). pose proof (S1 z y).
    pose proof (T1 y z x) as Ta. pose proof (T1 z x y) as Tb.
    destruct (Hcase x y) as [[? E1]|[? E1]], (Hcase y z) as [[? E2]|[? E2]],
      (Hcase x z) as [[? E3]|[? E3]]; rewrite E1 in Hxy; rewrite E2 in Hyz; rewrite E3; lia.
Qed.

Lemma Consistent_pullback {B : Type} (f : A → B) (cmp : B → B → Z) :
  Consistent cmp → Consistent (λ a b, cmp (f a) (f b)).
Proof. intros [S T]. split; [intros a b; apply S|intros a b c; apply T]. Qed.

Lemma Consistent_difference (f : A → Z) : Consistent (λ a b, f a - f b).
Proof. split; intros; lia. Qed.

Lemma sort_Consistent (cmp : A → A → Z) (l : list A) :
  Consistent cmp → StronglySorted (λ a b, cmp a b ≤ 0) (JsArray.sort cmp l).
Proof.
  intros H. apply sort_StronglySorted; [by apply Consistent_total|apply H].
Qed.

Lemma StronglySorted_weaken (R S : A → A → Prop) (l : list A) :
  (∀ a b, R a b → S a b) → StronglySorted R l → StronglySorted S l.
Proof.
  intros HRS. induction 1 as [|x l _ IH Hx]; constructor; [done|].
  eapply Forall_impl; [exact Hx|]. intros y. apply HRS.
Qed.

Lemma StronglySorted_lookup (R : A → A → Prop) (l : list A) (i j : nat) (x y : A) :
  StronglySorted R l → (i < j)%nat → l !! i = Some x → l !! j = Some y → R x y.
Proof.
  intros Hl. revert i j. induction Hl as [|z l _ IH Hz]; intros i j Hij Hi Hj; [done|].
  destruct j as [|j]; [lia|]. destruct i as [|i].
  - injection Hi as ->. rewrite Forall_forall in Hz. apply Hz.
    by eapply list_elem_of_lookup_2.
  - apply (IH i j); [lia|done..].
Qed.

End comparator_facts.

Lemma codeCompare_Consistent : Consistent codeCompare.
Proof.
  split; [|apply codeCompare_trans]. intros a b. unfold codeCompare.
  destruct (decide (a = b)) as [->|Hne].
  - rewrite decide_True by done. lia.
  - rewrite (decide_False (P := b = a)) by done.
    destruct (decide (String.le a b)) as [Hab|Hab], (decide (String.le b a)) as [Hba|Hba];
      try lia.
    + exfalso. apply Hne. by apply (anti_symm String.le).
    + exfalso. destruct (total String.le a b); done.
Qed.

Section ordering_facts.

Lemma compareRows_Consistent (cmp : string → string → Z) :
  Consistent cmp → Consistent (IonBalanceAnalysis.compareRows cmp).
Proof.
  intros H.
  apply (Consistent_lex (λ a b, cmp (sampleId a) (sampleId b))
           (λ a b, Z.b2z (isRepeat a) - Z.b2z (isRepeat b))); [done| |].
  - by apply (Consistent_pullback sampleId).
  - apply (Consistent_difference (λ a, Z.b2z (isRepeat a))).
Qed.

Lemma compareParams_Consistent (cmp : string → string → Z) :
  Consistent cmp → Consistent (DataSelection.compareParams cmp).
Proof.
  intros H.
  apply (Consistent_lex
           (λ a b, groupIndex (DataSelection.getDeviceGroup a)
                   - groupIndex (DataSelection.getDeviceGroup b)) cmp); [|  |done].
  - intros a b. unfold DataSelection.compareParams, groupIndex. cbv zeta.
    set (x := JsArray.indexOf _ _). set (y := JsArray.indexOf _ _).
    destruct (x =? y) eqn:E1, (x - y =? 0) eqn:E2; try done; lia.
  - apply (Consistent_difference (λ a, groupIndex (DataSelection.getDeviceGroup a))).
Qed.

Lemma compareParams_le (cmp : string → string → Z) (a b : string) :
  DataSelection.compareParams cmp a b ≤ 0 →
  groupIndex (DataSelection.getDeviceGroup a) ≤ groupIndex (DataSelection.getDeviceGroup b) ∧
  (DataSelection.getDeviceGroup a = DataSelection.getDeviceGroup b → cmp a b ≤ 0).
Proof.
  unfold DataSelection.compareParams, groupIndex. cbv zeta.
  destruct (_ =? _) eqn:E; cbn [negb].
  - apply Z.eqb_eq in E. intros H. split; [lia|done].
  - apply Z.eqb_neq in E. intros H. split; [lia|]. intros Hg. by rewrite Hg in E.
Qed.

Lemma compareReportRows_Consistent (cmp : string → string → Z) :
  Consistent cmp → Consistent (ReportView.compareReportRows cmp).
Proof.
  intros H.
  apply (Consistent_lex (λ a b, cmp (seriesId a) (seriesId b))
           (λ a b, let idComp := cmp (sampleId a) (sampleId b) in
                   if negb (idComp =? 0) then idComp
                   else Z.b2z (isRepeat a) - Z.b2z (isRepeat b))); [done| |].
  - by apply (Consistent_pullback seriesId).
  - apply (Consistent_lex (λ a b, cmp (sampleId a) (sampleId b))
             (λ a b, Z.b2z (isRepeat a) - Z.b2z (isRepeat b))); [done| |].
    + by apply (Consistent_pullback sampleId).
    + apply (Consistent_difference (λ a, Z.b2z (isRepeat a))).
Qed.

Lemma elem_of_JsSet_add {A : Type} `{EqDecision A} (x y : A) (s : list A) :
  y ∈ JsSet.add x s ↔ y = x ∨ y ∈ s.
Proof.
  unfold JsSet.add. case_decide; [|rewrite elem_of_app, list_elem_of_singleton];
    set_solver.
Qed.

Lemma NoDup_JsSet_add {A : Type} `{EqDecision A} (x : A) (s : list A) :
  NoDup s → NoDup (JsSet.add x s).
Proof.
  intros Hs. unfold JsSet.add. case_decide; [done|].
  apply NoDup_app. split_and!; [done| |apply NoDup_singleton].
  intros y Hy ->%list_elem_of_singleton. done.
Qed.

Lemma available_fold (f : string → string) (keep : string → bool)
    (headers acc : list string) :
  let r := fold_left (λ available h, if keep h then JsSet.add (f h) available
                                     else available) headers acc in
  (NoDup acc → NoDup r) ∧
  ∀ p, p ∈ r ↔ p ∈ acc ∨ ∃ h, h ∈ headers ∧ keep h = true ∧ p = f h.
Proof.
  revert acc. induction headers as [|h headers IH]; intros acc; cbn [fold_left].
  - split; [done|]. intros p. split; [by left|].
    intros [?|(h & Hh & _)]; [done|by apply elem_of_nil in Hh].
  - cbv zeta in IH. destruct (IH (if keep h then JsSet.add (f h) acc else acc)) as [IH1 IH2].
    split.
    + intros Hacc. apply IH1. destruct (keep h); [by apply NoDup_JsSet_add|done].
    + intros p. rewrite IH2. destruct (keep h) eqn:Hk; [rewrite elem_of_JsSet_add|].
      * split.
        -- intros [[->|?]|(h' & Hh' & ? & ?)]; [right; exists h|by left|right; exists h'];
             (split; [by (left || right)|done]).
        -- intros [?|(h' & [->|Hh']%elem_of_cons & ? & ?)];
             [by left; right|by left; left|right; by exists h'].
      * split.
        -- intros [?|(h' & Hh' & ? & ?)]; [by left|right; exists h'].
           split; [by right|done].
        -- intros [?|(h' & [->|Hh']%elem_of_cons & ? & ?)];
             [by left|congruence|right; by exists h'].
Qed.

Lemma hasValue_spec (row : LabDataRow) (h : string) :
  hasValue row h = true ↔ ∃ v, results row !! h = Some v ∧ JsString.trim v ≠ "".
Proof.
  unfold hasValue. destruct (results row !! h) as [v|]; [|by split; [|intros (? & ? & _)]].
  rewrite negb_true_iff. split.
  - intros H. exists v. split; [done|]. intros E. by rewrite E in H.
  - intros (? & [= <-] & H). by apply String.eqb_neq.
Qed.

(** A read of a record of texts gives the text where the record has the
    key; a key it does not have gives [undefined] unless [Object.prototype]
    has a member of that name. *)
Lemma nonBlank_get (row : LabDataRow) (h : string) :
  is_Some (results row !! h) ∨ h ∉ JsObject.prototypeKeys →
  JsObject.nonBlank (JsObject.get (results row) h) = Some (hasValue row h).
Proof.
  unfold JsObject.get, hasValue. destruct (results row !! h) as [v|] eqn:E.
  - intros _. cbn [JsObject.nonBlank]. f_equal. by destruct v.
  - intros [[? [=]]|H]. by rewrite decide_False.
Qed.

Lemma nonBlank_get_inherited (row : LabDataRow) (h : string) :
  results row !! h = None → h ∈ JsObject.prototypeKeys →
  JsObject.nonBlank (JsObject.get (results row) h) = None.
Proof. intros E H. unfold JsObject.get. by rewrite E, decide_True. Qed.

Lemma relevant_not_prototype (h : string) :
  RegExp.testDevicePattern (JsString.toUpperCase h) = true → h ∉ JsObject.prototypeKeys.
Proof.
  intros H Hin. unfold JsObject.prototypeKeys in Hin.
  repeat (apply elem_of_cons in Hin as [->|Hin]; [by vm_compute in H|]).
  by apply elem_of_nil in Hin.
Qed.

(** A loop whose body may raise: it ends with a result when no step raises. *)
Lemma fold_left_option_Some {S B C : Type} (k : B → option C) (k' : B → C)
    (step : S → B → C → S) (l : list B) (s0 : S) :
  (∀ h, h ∈ l → k h = Some (k' h)) →
  fold_left (λ (acc : option S) h, s ← acc; c ← k h; Some (step s h c)) l (Some s0)
  = Some (fold_left (λ s h, step s h (k' h)) l s0).
Proof.
  revert s0. induction l as [|h l IH]; intros s0 Hk; [done|]. cbn [fold_left].
  rewrite (Hk h) by left. cbn. apply IH. intros h' Hh'. apply Hk. by right.
Qed.

Lemma fold_left_option_None {S B C : Type} (k : B → option C)
    (step : S → B → C → S) (l : list B) (acc : option S) :
  (∃ h, h ∈ l ∧ k h = None) →
  fold_left (λ (acc : option S) h, s ← acc; c ← k h; Some (step s h c)) l acc = None.
Proof.
  assert (∀ l', fold_left (λ (acc : option S) h, s ← acc; c ← k h; Some (step s h c))
                  l' None = None) as Hnone by (by induction l').
  revert acc. induction l as [|h l IH]; intros acc (h' & Hh' & E).
  - by apply elem_of_nil in Hh'.
  - cbn [fold_left]. apply elem_of_cons in Hh' as [->|Hh'].
    + rewrite E. destruct acc; cbn; apply Hnone.
    + apply IH. by exists h'.
Qed.

Lemma fold_setObject_lookup {V : Type} (f : LabDataRow → V) (rows : list LabDataRow)
    (m0 : gmap string V) (k : string) :
  let m := fold_left (λ m row, JsObject.setObject (id row) (f row) m) rows m0 in
  (k ∉ map id rows ∨ k = "__proto__" → m !! k = m0 !! k) ∧
  (k ∈ map id rows → k ≠ "__proto__" →
   ∃ row, row ∈ rows ∧ id row = k ∧ m !! k = Some (f row)).
Proof.
  revert m0. induction rows as [|r rows IH]; intros m0; cbn [fold_left map].
  - split; [done|]. by intros ?%elem_of_nil.
  - destruct (IH (JsObject.setObject (id r) (f r) m0)) as [IH1 IH2]. split.
    + intros Hk. rewrite IH1 by (destruct Hk as [[_ ?]%not_elem_of_cons|?]; [by left|by right]).
      unfold JsObject.setObject. case_decide as Hp; [done|].
      apply lookup_insert_ne. destruct Hk as [[? _]%not_elem_of_cons| ->]; done.
    + intros Hk Hp. destruct (decide (k ∈ map id rows)) as [Hin|Hout].
      * destruct (IH2 Hin Hp) as (row & Hrow & E & Hm). exists row. split; [by right|done].
      * apply elem_of_cons in Hk as [->|?]; [|done]. exists r.
        split; [by left|]. split; [done|]. rewrite IH1 by (by left).
        unfold JsObject.setObject. rewrite decide_False by done. apply lookup_insert_eq.
Qed.

(** The list that [rowAvailableParams] stores for a row. *)
Lemma availableParams_Some cmp (d : ParsedDataset) (row : LabDataRow) :
  DataSelection.availableParams cmp (DataSelection.relevantHeaders d) row
  = Some (JsArray.sort (DataSelection.compareParams cmp)
            (fold_left (λ available h,
                          if hasValue row h
                          then JsSet.add (DataSelection.getBaseName h) available
                          else available)
                       (DataSelection.relevantHeaders d) [])).
Proof.
  unfold DataSelection.availableParams.
  rewrite (fold_left_option_Some
             (λ h, JsObject.nonBlank (JsObject.get (results row) h)) (hasValue row)
             (λ available h (c : bool),
                if c then JsSet.add (DataSelection.getBaseName h) available
                else available)); [done|].
  intros h Hh. apply nonBlank_get. right. apply relevant_not_prototype.
  unfold DataSelection.relevantHeaders in Hh.
  by apply list_elem_of_In, filter_In in Hh as [_ Hh].
Qed.

Lemma elem_of_availableParams cmp (d : ParsedDataset) (row : LabDataRow)
    (params : list string) :
  DataSelection.availableParams cmp (DataSelection.relevantHeaders d) row = Some params →
  NoDup params ∧
  ∀ p, p ∈ params ↔
       ∃ h, h ∈ DataSelection.relevantHeaders d ∧ hasValue row h = true ∧
            p = DataSelection.getBaseName h.
Proof.
  rewrite availableParams_Some. intros [= <-].
  destruct (available_fold DataSelection.getBaseName (hasValue row)
              (DataSelection.relevantHeaders d) []) as [Hnd Hin].
  cbv beta in Hin. set (available := fold_left _ _ []) in *.
  pose proof (sort_Permutation (DataSelection.compareParams cmp) available) as Hp.
  split; [by rewrite Hp; apply Hnd, NoDup_nil|].
  intros p. rewrite Hp, Hin. split; [|by right].
  intros [H|H]; [by apply elem_of_nil in H|exact H].
Qed.

End ordering_facts.

(** X4. For a consistent comparison, the rows of the ion-balance table are
    the records of the dataset, each with the analysis of that record,
    ordered by sample id; among rows whose sample ids compare as equal a
    repeat never comes before a first measurement. *)
Theorem X4_processedData_order (localeCompareNumeric : string → string → Z)
    (dataset : ParsedDataset) :
  Consistent localeCompareNumeric →
  let rows := IonBalanceAnalysis.processedData localeCompareNumeric dataset in
  map fst rows ≡ₚ data dataset ∧
  (∀ p, p ∈ rows → p.2 = IonBalanceAnalysis.processRow (resultHeaders dataset) p.1) ∧
  StronglySorted
    (λ a b, IonBalanceAnalysis.compareRows localeCompareNumeric a b ≤ 0) (map fst rows) ∧
  (∀ i j a b, (i < j)%nat → map fst rows !! i = Some a → map fst rows !! j = Some b →
     localeCompareNumeric (sampleId a) (sampleId b) ≤ 0 ∧
     (localeCompareNumeric (sampleId a) (sampleId b) = 0 →
      isRepeat a = true → isRepeat b = true)).
Proof.
  intros Hc rows. subst rows. unfold IonBalanceAnalysis.processedData. cbv zeta.
  rewrite map_map. cbn [fst]. rewrite map_id.
  pose proof (sort_Consistent _ (data dataset) (compareRows_Consistent _ Hc)) as Hs.
  split; [apply sort_Permutation|]. split; [|split; [done|]].
  - intros p Hp. apply list_elem_of_In, in_map_iff in Hp as (row & <- & _). done.
  - intros i j a b Hij Ha Hb.
    pose proof (StronglySorted_lookup _ _ i j a b Hs Hij Ha Hb) as H.
    unfold IonBalanceAnalysis.compareRows in H. cbv zeta in H.
    destruct (localeCompareNumeric (sampleId a) (sampleId b) =? 0) eqn:E; cbn [negb] in H.
    + apply Z.eqb_eq in E. split; [lia|]. intros _ Hra. rewrite Hra in H.
      destruct (isRepeat b); [done|]. cbn in H. lia.
    + apply Z.eqb_neq in E. split; [done|]. done.
Qed.

Lemma X4_processedData_order_witness :
  let rows := IonBalanceAnalysis.processedData codeCompare example_dataset in
  map fst rows ≡ₚ data example_dataset ∧
  (∀ p, p ∈ rows → p.2 = IonBalanceAnalysis.processRow (resultHeaders example_dataset) p.1) ∧
  StronglySorted
    (λ a b, IonBalanceAnalysis.compareRows codeCompare a b ≤ 0) (map fst rows) ∧
  (∀ i j a b, (i < j)%nat → map fst rows !! i = Some a → map fst rows !! j = Some b →
     codeCompare (sampleId a) (sampleId b) ≤ 0 ∧
     (codeCompare (sampleId a) (sampleId b) = 0 →
      isRepeat a = true → isRepeat b = true)).
Proof.
  apply (X4_processedData_order codeCompare example_dataset). apply codeCompare_Consistent.
Defined.

(** X5. For a consistent comparison, computing the parameters offered for
    the rows never raises; the result has an entry for exactly the ids of
    the records other than ["__proto__"], and the list stored under an id
    belongs to a record with that id: it has no duplicates, holds exactly
    the base names of the relevant result headers under which the record
    has a value that is not blank, and is ordered by the position of the
    device group in [GROUP_ORDER] and by the comparison inside a group. *)
Theorem X5_rowAvailableParams (localeCompare : string → string → Z)
    (dataset : ParsedDataset) :
  Consistent localeCompare →
  ∃ map, DataSelection.rowAvailableParams localeCompare dataset = Some map ∧
    (∀ k, is_Some (map !! k) ↔ k ≠ "__proto__" ∧ ∃ row, row ∈ data dataset ∧ id row = k) ∧
    ∀ k params, map !! k = Some params →
      NoDup params ∧
      (∃ row, row ∈ data dataset ∧ id row = k ∧
         ∀ p, p ∈ params ↔
              ∃ h v, h ∈ resultHeaders dataset ∧
                     (DataSelection.getDeviceGroup h ≠ Sonstige
                      ∨ MDigitsPoint (JsString.toUpperCase h)) ∧
                     results row !! h = Some v ∧ JsString.trim v ≠ "" ∧
                     p = DataSelection.getBaseName h) ∧
      (∀ i j a b, (i < j)%nat → params !! i = Some a → params !! j = Some b →
         groupIndex (DataSelection.getDeviceGroup a)
         ≤ groupIndex (DataSelection.getDeviceGroup b) ∧
         (DataSelection.getDeviceGroup a = DataSelection.getDeviceGroup b →
          localeCompare a b ≤ 0)).
Proof.
  intros Hc. unfold DataSelection.rowAvailableParams.
  set (f := λ row, JsArray.sort (DataSelection.compareParams localeCompare)
            (fold_left (λ available h,
                          if hasValue row h
                          then JsSet.add (DataSelection.getBaseName h) available
                          else available)
                       (DataSelection.relevantHeaders dataset) [])).
  rewrite (fold_left_option_Some
             (DataSelection.availableParams localeCompare
                (DataSelection.relevantHeaders dataset)) f
             (λ map row sorted, JsObject.setObject (id row) sorted map));
    [|by intros row _; apply availableParams_Some].
  eexists. split; [done|].
  pose proof (λ k, fold_setObject_lookup f (data dataset) ∅ k) as Hm. cbv zeta in Hm.
  set (m := fold_left _ (data dataset) ∅) in *.
  assert (∀ k, k ∈ map id (data dataset) ↔ ∃ row, row ∈ data dataset ∧ id row = k) as Hids.
  { intros k. rewrite list_elem_of_In, in_map_iff. setoid_rewrite <- list_elem_of_In.
    split; intros (row & ? & ?); by exists row. }
  split.
  - intros k. rewrite <- Hids. destruct (Hm k) as [Hout Hin]. split.
    + intros Hk. destruct (decide (k = "__proto__")) as [Hp|Hp];
        [by rewrite (Hout (or_intror Hp)), lookup_empty in Hk; destruct Hk|].
      split; [done|]. destruct (decide (k ∈ map id (data dataset))) as [|Hno]; [done|].
      rewrite (Hout (or_introl Hno)), lookup_empty in Hk. by destruct Hk.
    + intros [Hp Hk]. by destruct (Hin Hk Hp) as (row & _ & _ & ->).
  - intros k params Hk. destruct (Hm k) as [Hout Hin].
    destruct (decide (k = "__proto__")) as [Hp|Hp];
      [by rewrite (Hout (or_intror Hp)), lookup_empty in Hk|].
    destruct (decide (k ∈ map id (data dataset))) as [Hyes|Hno];
      [|by rewrite (Hout (or_introl Hno)), lookup_empty in Hk].
    destruct (Hin Hyes Hp) as (row & Hrow & Hid & E). rewrite E in Hk.
    injection Hk as <-.
    destruct (elem_of_availableParams localeCompare dataset row (f row)
                (availableParams_Some _ _ _)) as [Hnd Hel].
    split; [done|]. split.
    + exists row. split; [done|]. split; [done|]. intros p. rewrite Hel.
      unfold DataSelection.relevantHeaders.
      setoid_rewrite list_elem_of_In. setoid_rewrite filter_In.
      setoid_rewrite <- list_elem_of_In. setoid_rewrite testDevicePattern_group.
      setoid_rewrite hasValue_spec. split.
      * intros (h & [? ?] & (v & ? & ?) & ?). by exists h, v.
      * intros (h & v & ? & ? & ? & ? & ?). exists h. split; [done|]. split; [|done].
        by exists v.
    + intros i j a b Hij Ha Hb. apply compareParams_le.
      apply (StronglySorted_lookup
               (λ a b, DataSelection.compareParams localeCompare a b ≤ 0) (f row) i j a b);
        [|done..].
      by apply sort_Consistent, compareParams_Consistent.
Qed.

Lemma X5_rowAvailableParams_witness :
  DataSelection.rowAvailableParams codeCompare example_dataset
  = Some {[ "row-2" := ["LFLFLFM"; "TOCNPOC"; "ICCa"; "ICPFe"];
            "row-3" := ["ICCa"];
            "row-4" := ["LFLFLFM"; "ICCa"; "ICPFe"] ]} ∧
  ∃ map, DataSelection.rowAvailableParams codeCompare example_dataset = Some map ∧
         ∀ k params, map !! k = Some params → NoDup params.
Proof.
  split; [by vm_compute|].
  destruct (X5_rowAvailableParams codeCompare example_dataset codeCompare_Consistent)
    as (map & E & _ & H).
  exists map. split; [done|]. intros k params Hk. by destruct (H k params Hk).
Defined.

Section report_facts.
Import ReportView ReportView.

Lemma pushHeader_fold (l : list string) (f : DeviceGroup → list string) (g : DeviceGroup) :
  fold_left pushHeader l f g
  = f g ++ List.filter (λ h, bool_decide (getDeviceGroup h = g)) l.
Proof.
  revert f. induction l as [|h l IH]; intros f; cbn [fold_left List.filter].
  - by rewrite app_nil_r.
  - rewrite IH. unfold pushHeader.
    destruct (decide (g = getDeviceGroup h)) as [->|Hne].
    + rewrite bool_decide_eq_true_2 by done. by rewrite <- app_assoc.
    + rewrite bool_decide_eq_false_2 by done. done.
Qed.

Lemma push_fold {A B : Type} (mk : A → B) (l : list A) (acc : list B) :
  fold_left (λ acc h, acc ++ [mk h]) l acc = acc ++ map mk l.
Proof.
  revert acc. induction l as [|h l IH]; intros acc; cbn [fold_left map].
  - by rewrite app_nil_r.
  - by rewrite IH, <- app_assoc.
Qed.

Lemma orderedHeaders_flat_map (cmp : string → string → Z) (dataset : ParsedDataset) :
  orderedHeaders cmp dataset
  = flat_map (λ g, map (λ h, {| name := h; group := g; baseName := getBaseName h |})
                       (JsArray.sort cmp
                          (List.filter (λ h, bool_decide (getDeviceGroup h = g))
                                       (allRelevantHeaders dataset))))
             GROUP_ORDER.
Proof.
  unfold orderedHeaders, groupedHeaders. cbv zeta.
  assert (∀ gs acc,
    fold_left (λ orderedHeaders g,
                 fold_left (λ orderedHeaders h,
                              orderedHeaders ++
                              [{| name := h; group := g; baseName := getBaseName h |}])
                   (JsArray.sort cmp
                      (fold_left pushHeader (allRelevantHeaders dataset) (λ _, []) g))
                   orderedHeaders) gs acc
    = acc ++ flat_map (λ g, map (λ h, {| name := h; group := g; baseName := getBaseName h |})
                       (JsArray.sort cmp
                          (List.filter (λ h, bool_decide (getDeviceGroup h = g))
                                       (allRelevantHeaders dataset)))) gs) as H.
  { induction gs as [|g gs IH]; intros acc; cbn [fold_left flat_map].
    - by rewrite app_nil_r.
    - rewrite IH, (push_fold (λ h, {| name := h; group := g; baseName := getBaseName h |})).
      rewrite pushHeader_fold. cbn [app]. by rewrite <- app_assoc. }
  by rewrite H.
Qed.

Lemma group_partition (f : string → DeviceGroup) (l : list string) :
  flat_map (λ g, List.filter (λ h, bool_decide (f h = g)) l) GROUP_ORDER ≡ₚ l.
Proof.
  induction l as [|x l IH]; [done|].
  cbn [flat_map GROUP_ORDER List.filter] in *. rewrite !app_nil_r in *.
  destruct (f x);
    repeat first [rewrite bool_decide_eq_true_2 by done
                 |rewrite bool_decide_eq_false_2 by done];
    cbn [app]; rewrite <- ?Permutation_middle; apply perm_skip, IH.
Qed.

Lemma flat_map_Permutation {A B : Type} (F G : A → list B) (l : list A) :
  (∀ a, F a ≡ₚ G a) → flat_map F l ≡ₚ flat_map G l.
Proof.
  intros H. induction l as [|a l IH]; [done|]. cbn [flat_map]. by rewrite H, IH.
Qed.

Lemma map_flat_map {A B C : Type} (f : B → C) (F : A → list B) (l : list A) :
  map f (flat_map F l) = flat_map (λ a, map f (F a)) l.
Proof.
  induction l as [|a l IH]; [done|]. cbn [flat_map]. by rewrite map_app, IH.
Qed.

Lemma elem_of_flat_map {A B : Type} (F : A → list B) (l : list A) (b : B) :
  b ∈ flat_map F l ↔ ∃ a, a ∈ l ∧ b ∈ F a.
Proof.
  rewrite list_elem_of_In, in_flat_map. setoid_rewrite list_elem_of_In. done.
Qed.

(** Blocks of headers, one per group, in an order of increasing position. *)
Lemma blocks_sorted (cmp : string → string → Z) (G : DeviceGroup → list string)
    (gs : list DeviceGroup) :
  Consistent cmp →
  StronglySorted (λ g1 g2, groupIndex g1 < groupIndex g2) gs →
  StronglySorted
    (λ a b, groupIndex (group a) ≤ groupIndex (group b) ∧
            (group a = group b → cmp (name a) (name b) ≤ 0))
    (flat_map (λ g, map (λ h, {| name := h; group := g; baseName := getBaseName h |})
                        (JsArray.sort cmp (G g))) gs).
Proof.
  intros Hc. induction 1 as [|g gs Hgs IH Hg]; [constructor|].
  cbn [flat_map]. apply StronglySorted_app_2; [| |done].
  - intros a b (h & <- & _)%list_elem_of_In%in_map_iff
      (g' & Hg' & (h' & <- & _)%list_elem_of_In%in_map_iff)%elem_of_flat_map.
    cbn [group name]. rewrite Forall_forall in Hg. specialize (Hg g' Hg').
    split; [lia|]. intros ->. lia.
  - apply (StronglySorted_fmap _ (λ a b, cmp a b ≤ 0)); [|by apply sort_Consistent].
    intros x y Hxy. cbn [group name]. split; [lia|done].
Qed.

Lemma elem_of_orderedHeaders (cmp : string → string → Z) (dataset : ParsedDataset)
    (h : OrderedHeader) :
  h ∈ orderedHeaders cmp dataset →
  name h ∈ allRelevantHeaders dataset ∧ group h = getDeviceGroup (name h) ∧
  baseName h = getBaseName (name h).
Proof.
  rewrite orderedHeaders_flat_map.
  intros (g & _ & (x & <- & Hx)%list_elem_of_In%in_map_iff)%elem_of_flat_map.
  cbn [name group baseName].
  apply list_elem_of_In in Hx. rewrite sort_Permutation in Hx.
  apply list_elem_of_In, filter_In in Hx as [Hx Hg].
  apply bool_decide_eq_true in Hg. by rewrite <- list_elem_of_In in Hx.
Qed.

Lemma compareReportRows_le (cmp : string → string → Z) (a b : LabDataRow) :
  compareReportRows cmp a b ≤ 0 →
  cmp (seriesId a) (seriesId b) ≤ 0 ∧
  (cmp (seriesId a) (seriesId b) = 0 →
   cmp (sampleId a) (sampleId b) ≤ 0 ∧
   (cmp (sampleId a) (sampleId b) = 0 → isRepeat a = true → isRepeat b = true)).
Proof.
  unfold compareReportRows. cbv zeta.
  destruct (cmp (seriesId a) (seriesId b) =? 0) eqn:E1; cbn [negb].
  - apply Z.eqb_eq in E1.
    destruct (cmp (sampleId a) (sampleId b) =? 0) eqn:E2; cbn [negb].
    + apply Z.eqb_eq in E2. intros H. split; [lia|]. intros _. split; [lia|].
      intros _ Ha. rewrite Ha in H. destruct (isRepeat b); [done|]. cbn in H. lia.
    + apply Z.eqb_neq in E2. intros H. split; [lia|]. intros _. split; [done|]. done.
  - apply Z.eqb_neq in E1. intros H. split; [done|]. done.
Qed.

End report_facts.

(** X6. For a consistent comparison, the columns of the report are the
    result headers that the header pattern accepts, each as often as it
    occurs; a column carries the device group and the base name of its
    header; the columns are ordered by the position of the device group in
    [GROUP_ORDER] and by the comparison inside a group. *)
Theorem X6_report_headers (localeCompareDe : string → string → Z) (dataset : ParsedDataset) :
  Consistent localeCompareDe →
  let headers := ReportView.orderedHeaders localeCompareDe dataset in
  map ReportView.name headers
  ≡ₚ List.filter (λ h, RegExp.testDevicePattern (JsString.toUpperCase h))
                 (resultHeaders dataset) ∧
  (∀ x, x ∈ map ReportView.name headers ↔
        x ∈ resultHeaders dataset ∧
        (ReportView.getDeviceGroup x ≠ Sonstige ∨ MDigitsPoint (JsString.toUpperCase x))) ∧
  (∀ h, h ∈ headers →
        ReportView.group h = ReportView.getDeviceGroup (ReportView.name h) ∧
        ReportView.baseName h = ReportView.getBaseName (ReportView.name h)) ∧
  (∀ i j a b, (i < j)%nat → headers !! i = Some a → headers !! j = Some b →
     groupIndex (ReportView.group a) ≤ groupIndex (ReportView.group b) ∧
     (ReportView.group a = ReportView.group b →
      localeCompareDe (ReportView.name a) (ReportView.name b) ≤ 0)).
Proof.
  intros Hc headers.
  assert (map ReportView.name headers ≡ₚ ReportView.allRelevantHeaders dataset) as Hp.
  { subst headers. rewrite orderedHeaders_flat_map, map_flat_map.
    etrans; [|apply (group_partition ReportView.getDeviceGroup)].
    apply flat_map_Permutation. intros g. rewrite map_map. cbn [ReportView.name].
    rewrite map_id. apply sort_Permutation. }
  split; [done|]. split; [|split].
  - intros x. rewrite Hp. unfold ReportView.allRelevantHeaders.
    rewrite list_elem_of_In, filter_In, <- list_elem_of_In.
    by rewrite testDevicePattern_group.
  - intros h Hh. by destruct (elem_of_orderedHeaders _ _ _ Hh) as (_ & ? & ?).
  - intros i j a b Hij Ha Hb. subst headers. rewrite orderedHeaders_flat_map in Ha, Hb.
    assert (StronglySorted (λ g1 g2, groupIndex g1 < groupIndex g2) GROUP_ORDER) as Hg
      by (repeat constructor; by vm_compute).
    pose proof (blocks_sorted localeCompareDe
                  (λ g, List.filter (λ h, bool_decide (ReportView.getDeviceGroup h = g))
                                    (ReportView.allRelevantHeaders dataset))
                  GROUP_ORDER Hc Hg) as Hs.
    exact (StronglySorted_lookup _ _ i j a b Hs Hij Ha Hb).
Qed.

Lemma X6_report_headers_witness :
  let headers := ReportView.orderedHeaders codeCompare example_dataset in
  map ReportView.name headers
  = ["LFLFLFM3.1"; "TOCNPOC20.1"; "ICCa2.1"; "ICCa8.1"; "ICPFe1.1"] ∧
  (∀ i j a b, (i < j)%nat → headers !! i = Some a → headers !! j = Some b →
     groupIndex (ReportView.group a) ≤ groupIndex (ReportView.group b) ∧
     (ReportView.group a = ReportView.group b →
      codeCompare (ReportView.name a) (ReportView.name b) ≤ 0)).
Proof.
  split; [by vm_compute|].
  apply (X6_report_headers codeCompare example_dataset). apply codeCompare_Consistent.
Defined.

(** X7. For a consistent comparison, the rows of the report are the
    records of the dataset whose id is in the row selection, none when the
    selection is empty, ordered by series id, then by sample id, and with
    no repeat before a first measurement among rows that compare as equal
    on both. *)
Theorem X7_report_rows (localeCompareNumeric : string → string → Z)
    (dataset : ParsedDataset) (selection : SelectionState) :
  Consistent localeCompareNumeric →
  let rows := ReportView.reportRows localeCompareNumeric dataset selection in
  rows ≡ₚ List.filter (λ r, bool_decide (id r ∈ selectedRowIds selection)) (data dataset) ∧
  (∀ r, r ∈ rows ↔ r ∈ data dataset ∧ id r ∈ selectedRowIds selection) ∧
  (selectedRowIds selection = ∅ → rows = []) ∧
  (∀ i j a b, (i < j)%nat → rows !! i = Some a → rows !! j = Some b →
     localeCompareNumeric (seriesId a) (seriesId b) ≤ 0 ∧
     (localeCompareNumeric (seriesId a) (seriesId b) = 0 →
      localeCompareNumeric (sampleId a) (sampleId b) ≤ 0 ∧
      (localeCompareNumeric (sampleId a) (sampleId b) = 0 →
       isRepeat a = true → isRepeat b = true))).
Proof.
  intros Hc rows. subst rows. unfold ReportView.reportRows. cbv zeta.
  split; [apply sort_Permutation|]. split; [|split].
  - intros r. rewrite sort_Permutation, list_elem_of_In, filter_In, <- list_elem_of_In.
    by rewrite bool_decide_eq_true.
  - intros ->. replace (List.filter _ (data dataset)) with (@nil LabDataRow); [done|].
    symmetry. induction (data dataset) as [|r l IH]; [done|]. cbn [List.filter].
    rewrite bool_decide_eq_false_2 by set_solver. done.
  - intros i j a b Hij Ha Hb. apply compareReportRows_le.
    pose proof (sort_Consistent _
                  (List.filter (λ r, bool_decide (id r ∈ selectedRowIds selection))
                               (data dataset))
                  (compareReportRows_Consistent _ Hc)) as Hs.
    exact (StronglySorted_lookup _ _ i j a b Hs Hij Ha Hb).
Qed.

Lemma X7_report_rows_witness :
  let selection := {| selectedRowIds := {["row-2"; "row-4"]}; rowParams := ∅ |} in
  let rows := ReportView.reportRows codeCompare example_dataset selection in
  map id rows = ["row-4"; "row-2"] ∧
  (∀ r, r ∈ rows ↔ r ∈ data example_dataset ∧ id r ∈ selectedRowIds selection).
Proof.
  split; [by vm_compute|].
  apply (X7_report_rows codeCompare example_dataset
           {| selectedRowIds := {["row-2"; "row-4"]}; rowParams := ∅ |}).
  apply codeCompare_Consistent.
Defined.

(** ** Buttons of the selection view *)

Section selection_more_facts.
Import DataSelection DataSelection.

Lemma toggleRow_twice (rowId : string) (sel : SelectionState) :
  toggleRow rowId (toggleRow rowId sel) = sel.
Proof.
  destruct sel as [rows params]. unfold toggleRow. cbn. f_equal.
  destruct (decide (rowId ∈ rows)).
  - rewrite decide_False by set_solver. by apply toggle_twice_in.
  - rewrite decide_True by set_solver. by apply toggle_twice_out.
Qed.

Lemma toggleRow_elem_of (rowId k : string) (sel : SelectionState) :
  k ∈ selectedRowIds (toggleRow rowId sel) ↔
  (k = rowId ∧ rowId ∉ selectedRowIds sel) ∨ (k ≠ rowId ∧ k ∈ selectedRowIds sel).
Proof.
  unfold toggleRow. cbn. destruct (decide (k = rowId)) as [->|Hk];
    destruct (decide (rowId ∈ selectedRowIds sel)); set_solver.
Qed.

Lemma toggleRow_comm (a b : string) (sel : SelectionState) :
  toggleRow a (toggleRow b sel) = toggleRow b (toggleRow a sel).
Proof.
  assert (selectedRowIds (toggleRow a (toggleRow b sel))
          = selectedRowIds (toggleRow b (toggleRow a sel))) as E.
  { apply set_eq. intros k. rewrite !toggleRow_elem_of.
    destruct (decide (a = b)) as [->|Hab]; [done|].
    destruct (decide (k = a)) as [Ha|Ha]; [subst k|];
      (destruct (decide (k = b)) as [Hb|Hb] || destruct (decide (a = b)) as [Hb|Hb]);
      try subst k; intuition congruence. }
  unfold toggleRow in *. cbn in *. by rewrite E.
Qed.





End selection_more_facts.

(** X8. Toggling a row flips the membership of that row id in the row
    selection and of no other; toggling it twice gives back the selection
    state; toggles of two rows commute; the parameter sets stay as they
    are. *)
Theorem X8_toggleRow (rowId : string) (sel : SelectionState) :
  DataSelection.toggleRow rowId (DataSelection.toggleRow rowId sel) = sel ∧
  (∀ other, DataSelection.toggleRow rowId (DataSelection.toggleRow other sel)
            = DataSelection.toggleRow other (DataSelection.toggleRow rowId sel)) ∧
  (rowId ∈ selectedRowIds (DataSelection.toggleRow rowId sel) ↔
   rowId ∉ selectedRowIds sel) ∧
  (∀ k, k ≠ rowId →
        (k ∈ selectedRowIds (DataSelection.toggleRow rowId sel) ↔ k ∈ selectedRowIds sel)) ∧
  rowParams (DataSelection.toggleRow rowId sel) = rowParams sel.
Proof.
  split; [apply toggleRow_twice|]. split; [intros; apply toggleRow_comm|].
  split; [|split; [|done]].
  - rewrite toggleRow_elem_of. tauto.
  - intros k Hk. rewrite toggleRow_elem_of. tauto.
Qed.



(** ** Record ids and the selection after a file is read *)

Section id_facts.
Import CsvService.

Lemma decimal_inj (n m : N) : Decimal.decimal n = Decimal.decimal m → n = m.
Proof.
  destruct (decimal_spec n) as (ds & -> & _ & _ & Hn).
  destruct (decimal_spec m) as (ds' & -> & _ & _ & Hm).
  intros E. apply (f_equal list_ascii_of_string) in E.
  rewrite !list_ascii_of_string_of_list_ascii in E. subst ds'. lia.
Qed.

Lemma append_inj_r (p a b : string) : p +:+ a = p +:+ b → a = b.
Proof.
  induction p as [|c p IH]; [done|]. rewrite !append_String. intros [= E]. by apply IH.
Qed.

Lemma buildRow_id_inj hm hm' i j cells cells' :
  id (buildRow hm i cells) = id (buildRow hm' j cells') → i = j.
Proof.
  cbn [buildRow id]. intros E%append_inj_r%decimal_inj. lia.
Qed.

Lemma rowsFrom_ids_NoDup hm i rows : NoDup (map id (rowsFrom hm i rows)).
Proof.
  revert i. induction rows as [|row rows IH]; intros i; cbn [rowsFrom]; [constructor|].
  rewrite map_app. apply NoDup_app. split_and!; [| |apply IH].
  - unfold rowOutput. destruct row as [cells|]; [|constructor].
    destruct (skipRow _); [constructor|]. apply NoDup_singleton.
  - intros k Hk Hk'. unfold rowOutput in Hk. destruct row as [cells|];
      [|by apply elem_of_nil in Hk].
    destruct (skipRow _); [by apply elem_of_nil in Hk|].
    cbn [map] in Hk. apply list_elem_of_singleton in Hk as ->.
    apply list_elem_of_In, in_map_iff in Hk' as (r & E & Hr).
    apply list_elem_of_In, elem_of_rowsFrom in Hr as (j & cells' & _ & _ & ->).
    apply buildRow_id_inj in E. lia.
Qed.

Lemma parsed_data (cmp : string → string → Z) fileName_ now rawRows d :
  parseLabDataCsv cmp fileName_ now rawRows = Resolved d →
  ∃ rows headerRow,
    rawRows = Some rows ∧ rows !! 1%nat = Some (Some headerRow) ∧
    resultHeaders d = map name (sortedMapping cmp headerRow) ∧
    data d = rowsFrom (sortedMapping cmp headerRow) 2 (drop 2 rows).
Proof.
  unfold parseLabDataCsv. destruct rawRows as [rows|]; [|done].
  destruct (length rows <? 3)%nat; [done|].
  destruct (rows !! headerRowIndex) as [[headerRow|]|] eqn:Hhead; [|done..].
  intros [= <-]. exists rows, headerRow. cbn [resultHeaders data].
  by rewrite parseRows_rowsFrom.
Qed.

End id_facts.

(** X11. After a successful ingestion the ids of the records are pairwise
    distinct: the id of a record is ["row-"] followed by the decimal index
    of its row in the file, which is at least 2, and two records of the
    dataset with the same id are the same record. *)
Theorem X11_record_ids_distinct (localeCompareDe : string → string → Z)
    (fileName_ : string) (now : Z) (rawRows : option (list (option (list string))))
    (d : ParsedDataset) :
  CsvService.parseLabDataCsv localeCompareDe fileName_ now rawRows = CsvService.Resolved d →
  NoDup (map id (data d)) ∧
  (∀ r, r ∈ data d →
        ∃ i rows cells, rawRows = Some rows ∧ rows !! i = Some (Some cells) ∧ (2 ≤ i)%nat ∧
                        id r = "row-" +:+ Decimal.decimal (N.of_nat i)) ∧
  (∀ r r', r ∈ data d → r' ∈ data d → id r = id r' → r = r').
Proof.
  intros (rows & headerRow & -> & _ & _ & Hd)%parsed_data.
  assert (NoDup (map id (data d))) as Hnd by (rewrite Hd; apply rowsFrom_ids_NoDup).
  split; [done|]. split.
  - intros r Hr. rewrite Hd in Hr.
    apply elem_of_rowsFrom in Hr as (k & cells & Hk & _ & ->).
    rewrite lookup_drop in Hk. exists (2 + k)%nat, rows, cells.
    split; [done|]. split; [done|]. split; [lia|done].
  - intros r r' Hr Hr' E. rewrite Hd in Hr, Hr'.
    apply elem_of_rowsFrom in Hr as (k & cells & Hk & _ & ->).
    apply elem_of_rowsFrom in Hr' as (k' & cells' & Hk' & _ & ->).
    apply buildRow_id_inj in E. assert (k = k') as <- by lia. congruence.
Qed.

Lemma X11_record_ids_distinct_witness :
  ∃ d, CsvService.parseLabDataCsv codeCompare "serie.csv" 0 (Some example_file)
       = CsvService.Resolved d ∧
       map id (data d) = ["row-2"; "row-4"] ∧
       NoDup (map id (data d)).
Proof.
  eexists. split; [reflexivity|]. split; [by vm_compute|].
  apply (X11_record_ids_distinct codeCompare "serie.csv" 0 (Some example_file)).
  reflexivity.
Defined.

Section initial_selection_facts.
Import CsvService.

Lemma parsed_results cmp fileName_ now rawRows d row :
  parseLabDataCsv cmp fileName_ now rawRows = Resolved d → row ∈ data d →
  dom (results row) = list_to_set (resultHeaders d) ∖ {["__proto__"]}.
Proof.
  intros (rows & headerRow & -> & _ & Hh & Hd)%parsed_data Hrow.
  rewrite Hd in Hrow. apply elem_of_rowsFrom in Hrow as (k & cells & _ & _ & ->).
  cbn [buildRow results]. rewrite Hh. apply buildResults_dom.
Qed.

Lemma fold_setObject_by_id {V : Type} (f : LabDataRow → V) (rows : list LabDataRow)
    (m0 : gmap string V) (row : LabDataRow) :
  NoDup (map id rows) → row ∈ rows → id row ≠ "__proto__" →
  fold_left (λ m row, JsObject.setObject (id row) (f row) m) rows m0 !! id row
  = Some (f row).
Proof.
  revert m0. induction rows as [|r rows IH]; intros m0 Hnd Hrow Hp; cbn [fold_left map] in *.
  - by apply elem_of_nil in Hrow.
  - apply NoDup_cons in Hnd as [Hr Hnd]. apply elem_of_cons in Hrow as [->|Hrow].
    + destruct (fold_setObject_lookup f rows (JsObject.setObject (id r) (f r) m0) (id r))
        as [Hout _].
      rewrite Hout by (by left). unfold JsObject.setObject.
      rewrite decide_False by done. apply lookup_insert_eq.
    + by apply IH.
Qed.

Lemma parsed_id (cmp : string → string → Z) fileName_ now rawRows d row :
  parseLabDataCsv cmp fileName_ now rawRows = Resolved d → row ∈ data d →
  id row ≠ "__proto__".
Proof.
  intros (rows & headerRow & _ & _ & _ & Hd)%parsed_data Hrow. rewrite Hd in Hrow.
  apply elem_of_rowsFrom in Hrow as (k & cells & _ & _ & ->). done.
Qed.

Lemma rowParamSet_fold (f : string → string) (keep : string → bool)
    (headers : list string) (acc : gset string) (p : string) :
  p ∈ fold_left (λ s h, if keep h then s ∪ {[f h]} else s) headers acc ↔
  p ∈ acc ∨ ∃ h, h ∈ headers ∧ keep h = true ∧ p = f h.
Proof.
  revert acc. induction headers as [|h headers IH]; intros acc; cbn [fold_left].
  - split; [by left|]. intros [?|(h & Hh & _)]; [done|by apply elem_of_nil in Hh].
  - rewrite IH. destruct (keep h) eqn:Hk.
    + rewrite elem_of_union, elem_of_singleton. split.
      * intros [[? | ->] | (h' & Hh' & ? & ?)]; [by left|right; exists h|right; exists h'];
          (split; [by (left || right)|done]).
      * intros [?|(h' & [->|Hh']%elem_of_cons & ? & ?)];
          [by left; left|by left; right|right; by exists h'].
    + split.
      * intros [?|(h' & Hh' & ? & ?)]; [by left|right; exists h'].
        split; [by right|done].
      * intros [?|(h' & [->|Hh']%elem_of_cons & ? & ?)];
          [by left|congruence|right; by exists h'].
Qed.

(** The set that [handleFileSelect] builds for a row whose record has
    every header read. *)
Lemma rowParamSet_Some (headers : list string) (row : LabDataRow) :
  (∀ h, h ∈ headers → is_Some (results row !! h) ∨ h ∉ JsObject.prototypeKeys) →
  ∃ params, App.rowParamSet headers row = Some params ∧
            ∀ p, p ∈ params ↔
                 ∃ h, h ∈ headers ∧ hasValue row h = true ∧ p = App.getBaseParamName h.
Proof.
  intros Hh. unfold App.rowParamSet.
  rewrite (fold_left_option_Some
             (λ h, JsObject.nonBlank (JsObject.get (results row) h)) (hasValue row)
             (λ rowParamSet header (c : bool),
                if c then rowParamSet ∪ {[App.getBaseParamName header]} else rowParamSet));
    [|by intros h ?; apply nonBlank_get, Hh].
  eexists. split; [done|]. intros p.
  rewrite (rowParamSet_fold App.getBaseParamName (hasValue row)).
  split; [intros [?%elem_of_empty|?]; done|by right].
Qed.

Lemma rowParamSet_None (headers : list string) (row : LabDataRow) (h : string) :
  h ∈ headers → results row !! h = None → h ∈ JsObject.prototypeKeys →
  App.rowParamSet headers row = None.
Proof.
  intros Hh E Hp. unfold App.rowParamSet.
  apply (fold_left_option_None
           (λ h, JsObject.nonBlank (JsObject.get (results row) h))
           (λ rowParamSet header (c : bool),
              if c then rowParamSet ∪ {[App.getBaseParamName header]} else rowParamSet)).
  exists h. split; [done|]. by apply nonBlank_get_inherited.
Qed.

(** The set stored for a row of a file that was read, none of whose columns
    is named ["__proto__"]. *)
Lemma initialSelection_row cmp fileName_ now rawRows d row :
  parseLabDataCsv cmp fileName_ now rawRows = Resolved d →
  "__proto__" ∉ resultHeaders d → row ∈ data d →
  ∃ sel params,
    App.initialSelection d = Some sel ∧ rowParams sel !! id row = Some params ∧
    ∀ p, p ∈ params ↔
         ∃ h, h ∈ resultHeaders d ∧ hasValue row h = true ∧ p = App.getBaseParamName h.
Proof.
  intros Hparse Hp Hrow.
  pose proof (λ row, parsed_results _ _ _ _ _ row Hparse) as Hdom.
  assert (NoDup (map id (data d))) as Hnd.
  { apply parsed_data in Hparse as (rows & headerRow & _ & _ & _ & ->).
    apply rowsFrom_ids_NoDup. }
  assert (∀ row, row ∈ data d →
            ∀ h, h ∈ resultHeaders d →
                 is_Some (results row !! h) ∨ h ∉ JsObject.prototypeKeys) as Hown.
  { intros row' Hrow' h Hh. left. apply elem_of_dom. rewrite Hdom by done.
    apply elem_of_difference. split; [by apply elem_of_list_to_set|].
    intros ->%elem_of_singleton. done. }
  set (f := λ row, default ∅ (App.rowParamSet (resultHeaders d) row)).
  unfold App.initialSelection.
  rewrite (fold_left_option_Some (App.rowParamSet (resultHeaders d)) f
             (λ initialRowParams row rowParamSet,
                JsObject.setObject (id row) rowParamSet initialRowParams)).
  2:{ intros row' Hrow'. unfold f.
      by destruct (rowParamSet_Some (resultHeaders d) row' (Hown row' Hrow'))
        as (? & -> & _). }
  eexists. exists (f row). split; [done|]. cbn [rowParams].
  split; [by apply (fold_setObject_by_id f (data d) ∅ row Hnd Hrow), (parsed_id _ _ _ _ _ row Hparse)|].
  unfold f.
  by destruct (rowParamSet_Some (resultHeaders d) row (Hown row Hrow)) as (ps & -> & Hps).
Qed.

End initial_selection_facts.

(** X12. Reading a file sets the selection up as follows. When the file
    has a column named ["__proto__"] and a data row, building the selection
    raises: the record has no value under that name, the read gives
    [Object.prototype], and the call of [trim] on it fails. Otherwise no
    row is selected, [rowParams] has an entry for exactly the ids of the
    records, and the set of a record holds exactly the base names of the
    result headers under which that record has a value that is not
    blank. *)
Theorem X12_initialSelection (localeCompareDe : string → string → Z)
    (fileName_ : string) (now : Z) (rawRows : option (list (option (list string))))
    (d : ParsedDataset) :
  CsvService.parseLabDataCsv localeCompareDe fileName_ now rawRows = CsvService.Resolved d →
  ("__proto__" ∈ resultHeaders d → data d ≠ [] → App.initialSelection d = None) ∧
  ("__proto__" ∉ resultHeaders d ∨ data d = [] →
     ∃ sel, App.initialSelection d = Some sel ∧
       selectedRowIds sel = ∅ ∧
       (∀ k, is_Some (rowParams sel !! k) ↔ ∃ row, row ∈ data d ∧ id row = k) ∧
       (∀ row, row ∈ data d →
          ∃ params, rowParams sel !! id row = Some params ∧
            ∀ p, p ∈ params ↔
                 ∃ h v, h ∈ resultHeaders d ∧ results row !! h = Some v ∧
                        JsString.trim v ≠ "" ∧ p = App.getBaseParamName h)).
Proof.
  intros Hparse.
  pose proof (λ row, parsed_results _ _ _ _ _ row Hparse) as Hdom.
  assert (NoDup (map id (data d))) as Hnd.
  { apply parsed_data in Hparse as (rows & headerRow & _ & _ & _ & ->).
    apply rowsFrom_ids_NoDup. }
  unfold App.initialSelection. split.
  - intros Hp Hne. destruct (data d) as [|row rows] eqn:Hd; [done|].
    rewrite (fold_left_option_None (App.rowParamSet (resultHeaders d))
               (λ initialRowParams row rowParamSet,
                  JsObject.setObject (id row) rowParamSet initialRowParams)); [done|].
    exists row. split; [by left|].
    apply (rowParamSet_None _ _ "__proto__"); [done| |by vm_compute; left].
    apply not_elem_of_dom. rewrite Hdom by (rewrite ?Hd; left). set_solver.
  - intros Hcase.
    assert (∀ row, row ∈ data d →
              ∀ h, h ∈ resultHeaders d →
                   is_Some (results row !! h) ∨ h ∉ JsObject.prototypeKeys) as Hown.
    { intros row Hrow h Hh. left. apply elem_of_dom. rewrite Hdom by done.
      destruct Hcase as [Hp|Hd]; [|by rewrite Hd in Hrow; apply elem_of_nil in Hrow].
      apply elem_of_difference. split; [by apply elem_of_list_to_set|].
      intros ->%elem_of_singleton. done. }
    set (f := λ row, default ∅ (App.rowParamSet (resultHeaders d) row)).
    rewrite (fold_left_option_Some (App.rowParamSet (resultHeaders d)) f
               (λ initialRowParams row rowParamSet,
                  JsObject.setObject (id row) rowParamSet initialRowParams)).
    2:{ intros row Hrow. unfold f.
        by destruct (rowParamSet_Some (resultHeaders d) row (Hown row Hrow)) as (? & -> & _). }
    eexists. split; [done|]. cbn [selectedRowIds rowParams]. split; [done|].
    pose proof (λ row Hrow, fold_setObject_by_id f (data d) ∅ row Hnd Hrow
                              (parsed_id _ _ _ _ _ row Hparse Hrow)) as Hin.
    pose proof (λ k, proj1 (fold_setObject_lookup f (data d) ∅ k)) as Hout.
    cbv zeta in Hout. set (m := fold_left _ (data d) ∅) in *.
    split.
    + intros k. split.
      * intros Hk. destruct (decide (k ∈ map id (data d))) as [Hyes|Hno].
        -- apply list_elem_of_In, in_map_iff in Hyes as (row & ? & Hrow).
           exists row. by rewrite <- list_elem_of_In in Hrow.
        -- rewrite (Hout k (or_introl Hno)), lookup_empty in Hk. by destruct Hk.
      * intros (row & Hrow & <-). by rewrite (Hin row Hrow).
    + intros row Hrow. exists (f row). split; [by apply Hin|].
      intros p. unfold f.
      destruct (rowParamSet_Some (resultHeaders d) row (Hown row Hrow)) as (ps & -> & Hps).
      cbn. rewrite Hps. setoid_rewrite hasValue_spec. split.
      * intros (h & ? & (v & ? & ?) & ?). by exists h, v.
      * intros (h & v & ? & ? & ? & ?). exists h. split; [done|]. split; [|done].
        by exists v.
Qed.

Lemma X12_initialSelection_witness :
  (∃ d, CsvService.parseLabDataCsv codeCompare "proto.csv" 0 (Some proto_header_file)
        = CsvService.Resolved d ∧
        resultHeaders d = ["ICCa2.1"; "__proto__"] ∧
        App.initialSelection d = None) ∧
  (∃ d sel, CsvService.parseLabDataCsv codeCompare "serie.csv" 0 (Some example_file)
            = CsvService.Resolved d ∧
            App.initialSelection d = Some sel ∧
            selectedRowIds sel = ∅ ∧
            rowParams sel = {[ "row-2" := {["ICCa"; "TOCNPOC"; "LFLFLFM"]};
                               "row-4" := {["TOCNPOC"]} ]}).
Proof.
  split.
  - eexists. split; [reflexivity|]. split; [by vm_compute|].
    apply (X12_initialSelection codeCompare "proto.csv" 0 (Some proto_header_file));
      [reflexivity|by vm_compute; right; left|by vm_compute].
  - eexists. eexists. split; [reflexivity|]. by vm_compute.
Defined.

(** ** All rows, and the selection on its way through the cloud *)

Lemma example_dataset_ids : NoDup (map id (data example_dataset)).
Proof. apply (bool_decide_unpack _). by vm_compute. Qed.

(** X13. For a dataset whose record ids are pairwise distinct, the button
    for all rows clears the row selection when the number of selected ids
    is the number of records; otherwise it selects exactly the ids of the
    records, as many as there are records, so that pressing it again clears
    the selection. The parameter sets are those of the state the update
    starts from. *)
Theorem X13_toggleAllRows (d : ParsedDataset) (sel prev : SelectionState) :
  NoDup (map id (data d)) →
  let sel' := DataSelection.toggleAllRows d sel prev in
  rowParams sel' = rowParams prev ∧
  (size (selectedRowIds sel) = length (data d) → selectedRowIds sel' = ∅) ∧
  (size (selectedRowIds sel) ≠ length (data d) →
     (∀ k, k ∈ selectedRowIds sel' ↔ ∃ row, row ∈ data d ∧ id row = k) ∧
     size (selectedRowIds sel') = length (data d) ∧
     selectedRowIds (DataSelection.toggleAllRows d sel' sel') = ∅).
Proof.
  intros Hnd sel'. subst sel'. unfold DataSelection.toggleAllRows.
  destruct (size (selectedRowIds sel) =? length (data d))%nat eqn:E.
  - apply Nat.eqb_eq in E. by repeat split.
  - apply Nat.eqb_neq in E. split; [done|]. split; [done|]. intros _.
    cbn [selectedRowIds rowParams].
    assert (size (list_to_set (map id (data d)) : gset string) = length (data d)) as Hsize.
    { rewrite (size_list_to_set (C := gset string) (map id (data d)) Hnd).
      apply length_map. }
    split; [|split; [done|]].
    + intros k. rewrite elem_of_list_to_set, list_elem_of_In, in_map_iff.
      setoid_rewrite <- list_elem_of_In. split; intros (r & ? & ?); by exists r.
    + by rewrite Hsize, Nat.eqb_refl.
Qed.

Lemma X13_toggleAllRows_witness :
  let sel := {| selectedRowIds := {["row-3"]}; rowParams := ∅ |} in
  let sel' := DataSelection.toggleAllRows example_dataset sel sel in
  selectedRowIds sel' = {["row-2"; "row-3"; "row-4"]} ∧
  size (selectedRowIds sel') = length (data example_dataset) ∧
  selectedRowIds (DataSelection.toggleAllRows example_dataset sel' sel') = ∅.
Proof.
  split; [by vm_compute|].
  apply (X13_toggleAllRows example_dataset
           {| selectedRowIds := {["row-3"]}; rowParams := ∅ |}
           {| selectedRowIds := {["row-3"]}; rowParams := ∅ |} example_dataset_ids).
  by vm_compute.
Defined.

Section cloud_facts.
Import App.

Lemma restoreRowParams_None (l : list (string * Json)) :
  fold_left (λ (acc : option (gmap string (gset string))) (entry : string * Json),
               match acc with
               | None => None
               | Some params =>
                   match newSet entry.2 with
                   | None => None
                   | Some s => Some (<[entry.1 := s]> params)
                   end
               end) l None = None.
Proof. by induction l. Qed.

Lemma restoreRowParams_empty_objects (l : list (string * Json)) :
  l ≠ [] → (∀ kv, kv ∈ l → kv.2 = JEmptyObject) →
  restoreRowParams l = None.
Proof.
  destruct l as [|[k v] l]; [done|]. intros _ Hall. unfold restoreRowParams.
  cbn [fold_left]. rewrite (Hall (k, v)) by left. cbn [newSet].
  apply restoreRowParams_None.
Qed.

Lemma restoreSelection_saved (sel : SelectionState) :
  restoreSelection (savedSelection sel)
  = if decide (rowParams sel = ∅)
    then Some {| selectedRowIds := selectedRowIds sel; rowParams := ∅ |}
    else None.
Proof.
  unfold restoreSelection, savedSelection. cbn [storedRowIds storedRowParams newSet].
  rewrite list_to_set_elements_L. case_decide as He.
  - rewrite He, fmap_empty, map_to_list_empty. done.
  - rewrite restoreRowParams_empty_objects; [done| |].
    + intros Hnil%map_to_list_empty_iff%fmap_empty_inv. done.
    + intros [k v] (s & <- & _)%elem_of_map_to_list%lookup_fmap_Some. done.
Qed.

Lemma fold_left_option_inv {S B C : Type} (k : B → option C)
    (step : S → B → C → S) (l : list B) (acc : option S) (s : S) :
  fold_left (λ (acc : option S) h, s ← acc; c ← k h; Some (step s h c)) l acc = Some s →
  ∀ h, h ∈ l → is_Some (k h).
Proof.
  intros E h Hh. destruct (k h) eqn:Hk; [done|].
  rewrite (fold_left_option_None k step l acc) in E; [done|]. by exists h.
Qed.

(** After a file with a data row is read, [rowParams] has an entry. *)
Lemma initialSelection_rowParams (d : ParsedDataset) (sel : SelectionState)
    (row : LabDataRow) :
  initialSelection d = Some sel → row ∈ data d → id row ≠ "__proto__" →
  is_Some (rowParams sel !! id row).
Proof.
  unfold initialSelection. intros E Hrow Hp.
  destruct (fold_left _ (data d) (Some ∅)) as [m|] eqn:Hm; [|done].
  injection E as <-. cbn [rowParams].
  pose proof (fold_left_option_inv (rowParamSet (resultHeaders d))
                (λ initialRowParams row rowParamSet,
                   JsObject.setObject (id row) rowParamSet initialRowParams) _ _ _ Hm) as Hall.
  set (f := λ row, default ∅ (rowParamSet (resultHeaders d) row)).
  rewrite (fold_left_option_Some (rowParamSet (resultHeaders d)) f
             (λ initialRowParams row rowParamSet,
                JsObject.setObject (id row) rowParamSet initialRowParams)) in Hm.
  2:{ intros r Hr. unfold f. by destruct (Hall r Hr) as [? ->]. }
  injection Hm as <-.
  destruct (fold_setObject_lookup f (data d) ∅ (id row)) as [_ Hin].
  destruct Hin as (r & _ & _ & ->); [|done..].
  apply list_elem_of_In, in_map_iff. exists row. by rewrite <- list_elem_of_In.
Qed.

End cloud_facts.

(** X14. In the state posted to the cloud only the row selection is an
    array: every parameter set of [rowParams] is written as an empty
    object. Loading such a state back raises at the first parameter set,
    before the selection is set, so the selection stays what it was; a
    state is restored, with its row selection, only when [rowParams] was
    empty. [rowParams] is not empty once a file with a data row has been
    read (a row with an id other than ["__proto__"], as all ids of a file
    are), and none of the buttons of the selection view makes it empty. *)
Theorem X14_cloud_selection (sel current : SelectionState) :
  (∀ rowId params, rowParams sel !! rowId = Some params →
     App.storedRowParams (App.savedSelection sel) !! rowId = Some App.JEmptyObject) ∧
  (rowParams sel ≠ ∅ →
     App.restoreSelection (App.savedSelection sel) = None ∧
     App.loadSelection (App.savedSelection sel) current = current) ∧
  (rowParams sel = ∅ →
     App.restoreSelection (App.savedSelection sel)
     = Some {| selectedRowIds := selectedRowIds sel; rowParams := ∅ |}) ∧
  (∀ d row, App.initialSelection d = Some sel → row ∈ data d → id row ≠ "__proto__" →
            rowParams sel ≠ ∅) ∧
  (rowParams sel ≠ ∅ →
     (∀ rowId, rowParams (DataSelection.toggleRow rowId sel) ≠ ∅) ∧
     (∀ d, rowParams (DataSelection.toggleAllRows d sel sel) ≠ ∅) ∧
     (∀ rowId p, rowParams (DataSelection.toggleRowParam rowId p sel) ≠ ∅) ∧
     (∀ rowId avail, rowParams (DataSelection.toggleAllParamsForRow rowId avail sel) ≠ ∅) ∧
     (∀ rowId g avail, rowParams (DataSelection.toggleGroupForRow rowId g avail sel) ≠ ∅) ∧
     (∀ rowId type avail, rowParams (DataSelection.toggleChemSet rowId type avail sel) ≠ ∅)).
Proof.
  unfold App.loadSelection. rewrite !restoreSelection_saved.
  split; [|split; [|split; [|split]]].
  - intros rowId params H. cbn. by rewrite lookup_fmap, H.
  - intros Hne. by rewrite decide_False.
  - by intros ->.
  - intros d row E Hrow Hp Hempty.
    destruct (initialSelection_rowParams d sel row E Hrow Hp) as [ps Hps].
    by rewrite Hempty, lookup_empty in Hps.
  - intros Hne. split; [done|]. split; [|split; [|split; [|split]]].
    + intros d. unfold DataSelection.toggleAllRows. by destruct (_ =? _)%nat.
    + intros rowId p. apply insert_non_empty.
    + intros rowId avail. apply insert_non_empty.
    + intros rowId g avail. unfold DataSelection.toggleGroupForRow.
      destruct (List.filter _ avail); [done|apply insert_non_empty].
    + intros rowId type avail. unfold DataSelection.toggleChemSet.
      destruct (List.filter _ avail); [done|apply insert_non_empty].
Qed.

Lemma cloud_selection_example :
  ∃ d sel,
    CsvService.parseLabDataCsv codeCompare "serie.csv" 0 (Some example_file)
    = CsvService.Resolved d ∧
    App.initialSelection d = Some sel ∧
    App.restoreSelection (App.savedSelection (DataSelection.toggleRow "row-2" sel)) = None.
Proof. eexists. eexists. split; [reflexivity|]. split; [reflexivity|]. by vm_compute. Qed.

(** ** Cells of the report *)

Section report_cell_facts.
Import ReportView ReportView.

Lemma isCellActive_spec (selection : SelectionState) (row : LabDataRow)
    (base full : string) :
  is_Some (rowParams selection !! id row) ∨ id row ∉ JsObject.prototypeKeys →
  is_Some (results row !! full) ∨ full ∉ JsObject.prototypeKeys →
  isCellActive selection row base full
  = Some (match rowParams selection !! id row with
          | Some params => bool_decide (base ∈ params)
          | None => false
          end && hasValue row full).
Proof.
  intros Hid Hfull. unfold isCellActive. rewrite (nonBlank_get row full Hfull).
  unfold JsObject.get. destruct (rowParams selection !! id row) as [params|] eqn:E.
  - cbn. by destruct (bool_decide (base ∈ params)).
  - destruct Hid as [[? [=]]|Hid]. by rewrite decide_False.
Qed.

End report_cell_facts.

(** X15. For a column of the report and a row whose id is a key of
    [rowParams] or no property name of [Object.prototype], the test for an
    active cell gives a result, and the cell is active exactly when the
    base name of the column is in the row's active set and the row has a
    value that is not blank under the column's header. For a row whose id
    is a property name of [Object.prototype] and no key of [rowParams] the
    test raises. *)
Theorem X15_isCellActive (localeCompareDe : string → string → Z) (dataset : ParsedDataset)
    (selection : SelectionState) (row : LabDataRow) (h : ReportView.OrderedHeader) :
  h ∈ ReportView.orderedHeaders localeCompareDe dataset →
  (is_Some (rowParams selection !! id row) ∨ id row ∉ JsObject.prototypeKeys →
   ∃ active,
     ReportView.isCellActive selection row (ReportView.baseName h) (ReportView.name h)
     = Some active ∧
     (active = true ↔
      (∃ params, rowParams selection !! id row = Some params ∧
                 ReportView.getBaseName (ReportView.name h) ∈ params) ∧
      (∃ v, results row !! ReportView.name h = Some v ∧ JsString.trim v ≠ ""))) ∧
  (rowParams selection !! id row = None → id row ∈ JsObject.prototypeKeys →
   ReportView.isCellActive selection row (ReportView.baseName h) (ReportView.name h)
   = None).
Proof.
  intros (Hrel & _ & Hbase)%elem_of_orderedHeaders. split.
  - intros Hid. eexists. split.
    + apply isCellActive_spec; [done|]. right. apply relevant_not_prototype.
      unfold ReportView.allRelevantHeaders in Hrel.
      by apply list_elem_of_In, filter_In in Hrel as [_ Hrel].
    + rewrite andb_true_iff, hasValue_spec, Hbase.
      destruct (rowParams selection !! id row) as [params|].
      * rewrite bool_decide_eq_true. split.
        -- intros [? ?]. split; [by exists params|done].
        -- intros [(? & [= <-] & ?) ?]. done.
      * split; [by intros [? _]|by intros [(? & ? & _) _]].
  - intros E Hid. unfold ReportView.isCellActive.
    replace (JsObject.get (rowParams selection) (id row)) with
      (@JsObject.Inherited (gset string)); [done|].
    unfold JsObject.get. by rewrite E, decide_True.
Qed.

Lemma X15_isCellActive_witness :
  let selection := {| selectedRowIds := {["row-2"]};
                      rowParams := {[ "row-2" := {["ICCa"; "TOCNPOC"]} ]} |} in
  let row := default (Build_LabDataRow "" "" "" false "" ∅) (data example_dataset !! 0%nat) in
  map (λ h, ReportView.isCellActive selection row (ReportView.baseName h)
              (ReportView.name h))
      (ReportView.orderedHeaders codeCompare example_dataset)
  = [Some false; Some true; Some true; Some false; Some false] ∧
  ReportView.isCellActive {| selectedRowIds := ∅; rowParams := ∅ |}
    (Build_LabDataRow "constructor" "" "" false "" ∅) "LFLFLFM" "LFLFLFM3.1" = None.
Proof.
  split; [by vm_compute|].
  apply (X15_isCellActive codeCompare example_dataset
           {| selectedRowIds := ∅; rowParams := ∅ |}
           (Build_LabDataRow "constructor" "" "" false "" ∅)
           {| ReportView.name := "LFLFLFM3.1"; ReportView.group := pH_LF_TIT;
              ReportView.baseName := "LFLFLFM" |}).
  - by vm_compute; left.
  - done.
  - by vm_compute; right; left.
Defined.

(** X16. Straight after a file with no column named ["__proto__"] is read,
    a cell of the report is active exactly when the record has a value that
    is not blank in that column: the selection set up for the file
    activates every measured cell. *)
Theorem X16_initial_cells_active (localeCompare localeCompareDe : string → string → Z)
    (fileName_ : string) (now : Z) (rawRows : option (list (option (list string))))
    (d : ParsedDataset) (row : LabDataRow) (h : ReportView.OrderedHeader) :
  CsvService.parseLabDataCsv localeCompare fileName_ now rawRows = CsvService.Resolved d →
  "__proto__" ∉ resultHeaders d →
  row ∈ data d →
  h ∈ ReportView.orderedHeaders localeCompareDe d →
  ∃ sel active,
    App.initialSelection d = Some sel ∧
    ReportView.isCellActive sel row (ReportView.baseName h) (ReportView.name h)
    = Some active ∧
    (active = true ↔
     ∃ v, results row !! ReportView.name h = Some v ∧ JsString.trim v ≠ "").
Proof.
  intros Hparse Hp Hrow Hh.
  destruct (initialSelection_row _ _ _ _ _ _ Hparse Hp Hrow)
    as (sel & params & Hsel & Hparams & Hin).
  destruct (elem_of_orderedHeaders _ _ _ Hh) as (Hrel & _ & Hbase).
  unfold ReportView.allRelevantHeaders in Hrel.
  apply list_elem_of_In, filter_In in Hrel as [Hhead Hrel].
  apply list_elem_of_In in Hhead.
  exists sel. eexists. split; [done|]. split.
  - apply isCellActive_spec; [left; by rewrite Hparams|].
    right. by apply relevant_not_prototype.
  - rewrite Hparams, andb_true_iff, bool_decide_eq_true, <- hasValue_spec.
    split; [by intros [_ ?]|]. intros Hv. split; [|done].
    apply Hin. exists (ReportView.name h). by rewrite Hbase.
Qed.

Lemma X16_initial_cells_active_witness :
  ∃ d row h sel,
    CsvService.parseLabDataCsv codeCompare "serie.csv" 0 (Some example_file)
    = CsvService.Resolved d ∧
    data d !! 1%nat = Some row ∧
    ReportView.orderedHeaders codeCompare d !! 1%nat = Some h ∧
    ReportView.name h = "TOCNPOC20.1" ∧
    App.initialSelection d = Some sel ∧
    ReportView.isCellActive sel row (ReportView.baseName h) (ReportView.name h)
    = Some true ∧
    ∃ sel' active,
      App.initialSelection d = Some sel' ∧
      ReportView.isCellActive sel' row (ReportView.baseName h) (ReportView.name h)
      = Some active ∧
      (active = true ↔
       ∃ v, results row !! ReportView.name h = Some v ∧ JsString.trim v ≠ "").
Proof.
  eexists. eexists. eexists. eexists.
  split; [reflexivity|]. split; [reflexivity|]. split; [reflexivity|].
  split; [reflexivity|]. split; [reflexivity|]. split; [by vm_compute|].
  apply (X16_initial_cells_active codeCompare codeCompare "serie.csv" 0 (Some example_file)).
  - reflexivity.
  - apply (bool_decide_unpack _). by vm_compute.
  - by vm_compute; right; left.
  - by vm_compute; right; left.
Defined.

(** ** Comments *)

Section comment_facts.
Import JsString IonBalanceAnalysis IonBalanceAnalysis.

(** One step of the loop of the effect. *)
Local Abbreviation step :=
  (λ (next : gmap string string) (p : LabDataRow * RowAnalysis),
     let '(row, analysis) := p in
     if truthy (Some (autoComment analysis))
        && negb (JsObject.truthy (JsObject.get next (id row)))
     then <[id row := autoComment analysis]> next
     else next).

Lemma truthy_Some (v : string) : truthy (Some v) = true ↔ v ≠ "".
Proof. by destruct v. Qed.

Lemma truthy_get_own (m : gmap string string) (k v : string) :
  m !! k = Some v → JsObject.truthy (JsObject.get m k) = truthy (Some v).
Proof. intros E. unfold JsObject.get. by rewrite E. Qed.

Lemma step_keeps (m : gmap string string) (p : LabDataRow * RowAnalysis) (k : string) :
  JsObject.truthy (JsObject.get m k) = true → step m p !! k = m !! k.
Proof.
  destruct p as [row analysis]. intros Hk. cbv beta iota.
  destruct (decide (id row = k)) as [->|Hne].
  - by rewrite Hk, andb_false_r.
  - destruct (_ && _); [by apply lookup_insert_ne|done].
Qed.

Lemma get_ext {A : Type} (m m' : gmap string A) (k : string) :
  m' !! k = m !! k → JsObject.get m' k = JsObject.get m k.
Proof. intros E. unfold JsObject.get. by rewrite E. Qed.

Lemma populate_keeps (rows : list (LabDataRow * RowAnalysis)) (m : gmap string string)
    (k : string) :
  JsObject.truthy (JsObject.get m k) = true → populateComments rows m !! k = m !! k.
Proof.
  unfold populateComments. revert m. induction rows as [|p rows IH]; intros m Hk; [done|].
  cbn [fold_left]. pose proof (step_keeps m p k Hk) as E.
  destruct p as [row analysis]. rewrite IH; [exact E|]. by rewrite (get_ext m _ k E).
Qed.

Lemma step_frame (m : gmap string string) (p : LabDataRow * RowAnalysis) (k : string) :
  id p.1 ≠ k ∨ autoComment p.2 = "" → step m p !! k = m !! k.
Proof.
  destruct p as [row analysis]. cbn [fst snd]. intros [Hne| ->]; cbv beta iota.
  - destruct (_ && _); [by apply lookup_insert_ne|done].
  - done.
Qed.

Lemma populate_frame (rows : list (LabDataRow * RowAnalysis)) (m : gmap string string)
    (k : string) :
  (∀ p, p ∈ rows → id p.1 = k → autoComment p.2 = "") →
  populateComments rows m !! k = m !! k.
Proof.
  unfold populateComments. revert m. induction rows as [|p rows IH]; intros m Hk; [done|].
  cbn [fold_left]. pose proof (step_frame m p k) as E. destruct p as [row analysis].
  rewrite IH by (intros p Hp; apply Hk; by right). apply E.
  destruct (decide (id row = k)) as [Hid|]; [right|by left].
  by apply (Hk (row, analysis)); [left|].
Qed.

Lemma step_fills (m : gmap string string) (p : LabDataRow * RowAnalysis) :
  autoComment p.2 ≠ "" →
  JsObject.truthy (JsObject.get (step m p) (id p.1)) = true.
Proof.
  destruct p as [row analysis]. cbn [fst snd]. intros Hc%truthy_Some. cbv beta iota.
  rewrite Hc. cbn [andb].
  destruct (JsObject.truthy (JsObject.get m (id row))) eqn:E; cbn [negb]; [done|].
  by rewrite (truthy_get_own _ _ (autoComment analysis)) by apply lookup_insert_eq.
Qed.

Lemma populate_fills (rows : list (LabDataRow * RowAnalysis)) (m : gmap string string)
    (p : LabDataRow * RowAnalysis) :
  p ∈ rows → autoComment p.2 ≠ "" →
  JsObject.truthy (JsObject.get (populateComments rows m) (id p.1)) = true.
Proof.
  unfold populateComments. revert m. induction rows as [|q rows IH]; intros m Hp Hc.
  - by apply elem_of_nil in Hp.
  - cbn [fold_left]. apply elem_of_cons in Hp as [<-|Hp].
    + pose proof (step_fills m p Hc) as Hf.
      pose proof (populate_keeps rows (step m p) (id p.1)) as Hk.
      unfold populateComments in Hk. destruct p as [row analysis].
      rewrite (get_ext _ _ _ (Hk Hf)). exact Hf.
    + destruct q as [row analysis]. by apply IH.
Qed.

Lemma populate_fixed (rows : list (LabDataRow * RowAnalysis)) (m : gmap string string) :
  (∀ p, p ∈ rows → autoComment p.2 ≠ "" →
        JsObject.truthy (JsObject.get m (id p.1)) = true) →
  populateComments rows m = m.
Proof.
  unfold populateComments. induction rows as [|p rows IH]; intros H; [done|].
  cbn [fold_left]. assert (p ∈ p :: rows) as Hin0 by left. pose proof (H p Hin0) as Hp.
  destruct p as [row analysis]. cbn [fst snd] in Hp.
  destruct (truthy (Some (autoComment analysis))) eqn:Hc; cbn [andb].
  - rewrite Hp by (by apply truthy_Some). cbn [negb]. apply IH.
    intros p Hin. apply H. by right.
  - apply IH. intros p Hin. apply H. by right.
Qed.

Lemma populate_source (rows : list (LabDataRow * RowAnalysis)) (m : gmap string string)
    (k v : string) :
  populateComments rows m !! k = Some v →
  m !! k = Some v ∨
  ∃ p, p ∈ rows ∧ id p.1 = k ∧ autoComment p.2 = v ∧ v ≠ "".
Proof.
  unfold populateComments. revert m. induction rows as [|q rows IH]; intros m Hk;
    [by left|].
  cbn [fold_left] in Hk. destruct (IH _ Hk) as [E|(p & Hp & ?)];
    [|right; exists p; split; [by right|done]].
  destruct q as [row analysis].
  destruct (truthy (Some (autoComment analysis))) eqn:Hc; cbn [andb] in E; [|by left].
  destruct (negb _); [|by left].
  destruct (decide (id row = k)) as [Hid|Hne].
  - subst k. rewrite lookup_insert_eq in E. injection E as <-. right.
    exists (row, analysis). split; [by left|]. by apply truthy_Some in Hc.
  - rewrite lookup_insert_ne in E by done. by left.
Qed.

(** A row whose comment is empty takes its auto-comment. *)
Lemma populate_empty (rows : list (LabDataRow * RowAnalysis)) (m : gmap string string)
    (p : LabDataRow * RowAnalysis) :
  NoDup (map (λ q, id q.1) rows) → p ∈ rows → autoComment p.2 ≠ "" →
  JsObject.truthy (JsObject.get m (id p.1)) = false →
  populateComments rows m !! id p.1 = Some (autoComment p.2).
Proof.
  unfold populateComments. revert m. induction rows as [|q rows IH]; intros m Hnd Hp Hc Hm.
  - by apply elem_of_nil in Hp.
  - cbn [fold_left map] in *. apply NoDup_cons in Hnd as [Hq Hnd].
    apply elem_of_cons in Hp as [<-|Hp].
    + pose proof (populate_keeps rows (step m p) (id p.1) (step_fills m p Hc)) as Hk.
      unfold populateComments in Hk. destruct p as [row analysis]. cbn [fst snd] in *.
      rewrite Hk. apply truthy_Some in Hc. rewrite Hc, Hm. cbn. apply lookup_insert_eq.
    + assert (id q.1 ≠ id p.1) as Hne.
      { intros E. apply Hq. rewrite E. apply list_elem_of_In, in_map_iff.
        exists p. by rewrite <- list_elem_of_In. }
      pose proof (step_frame m q (id p.1) (or_introl Hne)) as E.
      destruct q as [row analysis]. apply IH; [done..|].
      by rewrite (get_ext m _ _ E).
Qed.

End comment_facts.

(** X17. The effect that fills in the comments keeps every comment that is
    not empty and every comment of a row without auto-comment; an entry
    after it is an entry from before or the non-empty auto-comment of a row
    with that id; every row with an auto-comment has a non-empty comment
    afterwards (for an id that is no property name of [Object.prototype]),
    which is its auto-comment when the row had no comment or an empty one
    and the ids are distinct. Running the effect again changes nothing; a
    comment that has been cleared is filled with the auto-comment when the
    effect runs again. *)
Theorem X17_populateComments (processedData : list (LabDataRow * RowAnalysis))
    (prev : gmap string string) :
  let next := IonBalanceAnalysis.populateComments processedData prev in
  (∀ k v, prev !! k = Some v → v ≠ "" → next !! k = Some v) ∧
  (∀ k, (∀ p, p ∈ processedData → id p.1 = k → autoComment p.2 = "") →
        next !! k = prev !! k) ∧
  (∀ k v, next !! k = Some v →
          prev !! k = Some v ∨
          ∃ p, p ∈ processedData ∧ id p.1 = k ∧ autoComment p.2 = v ∧ v ≠ "") ∧
  (∀ p, p ∈ processedData → autoComment p.2 ≠ "" → id p.1 ∉ JsObject.prototypeKeys →
        ∃ v, next !! id p.1 = Some v ∧ v ≠ "") ∧
  (∀ p, p ∈ processedData → autoComment p.2 ≠ "" → id p.1 ∉ JsObject.prototypeKeys →
        NoDup (map (λ q, id q.1) processedData) →
        prev !! id p.1 = None ∨ prev !! id p.1 = Some "" →
        next !! id p.1 = Some (autoComment p.2)) ∧
  IonBalanceAnalysis.populateComments processedData next = next ∧
  (∀ p, p ∈ processedData → autoComment p.2 ≠ "" →
        NoDup (map (λ q, id q.1) processedData) →
        IonBalanceAnalysis.handleCommentChange (id p.1) "" next !! id p.1 = Some "" ∧
        IonBalanceAnalysis.populateComments processedData
          (IonBalanceAnalysis.handleCommentChange (id p.1) "" next) !! id p.1
        = Some (autoComment p.2)).
Proof.
  intros next. subst next. split; [|split; [|split; [|split; [|split; [|split]]]]].
  - intros k v Hk Hv. rewrite populate_keeps; [done|].
    rewrite (truthy_get_own _ _ v Hk). by apply truthy_Some.
  - apply populate_frame.
  - apply populate_source.
  - intros p Hp Hc Hid. pose proof (populate_fills processedData prev p Hp Hc) as H.
    unfold JsObject.get in H.
    destruct (IonBalanceAnalysis.populateComments processedData prev !! id p.1) as [v|];
      [|by rewrite decide_False in H].
    exists v. split; [done|]. by apply truthy_Some.
  - intros p Hp Hc Hid Hnd Hprev. apply populate_empty; [done..|].
    unfold JsObject.get. destruct Hprev as [-> | ->]; [by rewrite decide_False|done].
  - apply populate_fixed. intros p Hp Hc. by apply populate_fills.
  - intros p Hp Hc Hnd. unfold IonBalanceAnalysis.handleCommentChange.
    split; [apply lookup_insert_eq|]. apply populate_empty; [done..|].
    by rewrite (truthy_get_own _ _ "") by apply lookup_insert_eq.
Qed.

(** ** Group buttons of a row *)

Section group_button_facts.
Import DataSelection DataSelection.










End group_button_facts.


(** ** The sheet of the report *)

Section sheet_facts.
Import JsString ReportView ReportView.

Lemma lookup_map {A B : Type} (f : A → B) (l : list A) (i : nat) :
  map f l !! i = f <$> l !! i.
Proof. revert i. induction l as [|x l IH]; intros [|i]; cbn; auto. Qed.

Lemma lookup_after3 {A : Type} (a b c : A) (l : list A) (j : nat) :
  (a :: b :: c :: l) !! (3 + j)%nat = l !! j.
Proof. done. Qed.

Lemma mapM_total {A B : Type} (f : A → option B) (f' : A → B) (l : list A) :
  (∀ x, x ∈ l → f x = Some (f' x)) → mapM f l = Some (map f' l).
Proof.
  intros H. apply mapM_Some. induction l as [|x l IH]; [constructor|].
  cbn [map]. constructor; [apply H; left|]. apply IH. intros y Hy. apply H. by right.
Qed.

(** The lines of a row whose values and marks can all be read. *)
Lemma rowLines_Some (selection : SelectionState) (headers : list OrderedHeader)
    (i : nat) (row : LabDataRow) (value : OrderedHeader → string)
    (active : OrderedHeader → bool) :
  (∀ h, h ∈ headers → results row !! name h = Some (value h)) →
  (∀ h, h ∈ headers → isCellActive selection row (baseName h) (name h) = Some (active h)) →
  rowLines selection headers i row
  = Some [ [TextCell (seriesId row); TextCell (sampleId row);
            TextCell (if isRepeat row then "2" else "1")]
           ++ map (λ h, let numVal := JsNumber.parseFloat (replaceFirstChar "," "." (value h)) in
                        if JsNumber.isNaN numVal then TextCell (value h)
                        else NumberCell numVal) headers;
           [TextCell ""; TextCell "Neu:"; TextCell ""]
           ++ map (λ h, TextCell (if negb (active h) then "x" else "")) headers;
           [TextCell ""; TextCell "Abw. %:"; TextCell ""]
           ++ imap (λ colIdx _,
                      FormulaCell {| refColumn := colIdx + 3; refRow := i + 2 |}
                                  {| refColumn := colIdx + 3; refRow := i + 1 |}) headers;
           [] ].
Proof.
  intros Hv Ha. unfold rowLines. cbv zeta.
  rewrite (mapM_total (λ h, valueCell (JsObject.get (results row) (name h)))
             (λ h, let numVal := JsNumber.parseFloat
                                              (replaceFirstChar "," "." (value h)) in
                              if JsNumber.isNaN numVal then TextCell (value h)
                              else NumberCell numVal)).
  2:{ intros h Hh. cbv beta. unfold JsObject.get. by rewrite (Hv h Hh). }
  cbn [mbind option_bind].
  rewrite (mapM_total _ (λ h, TextCell (if negb (active h) then "x" else ""))).
  2:{ intros h Hh. cbv beta. by rewrite (Ha h Hh). }
  done.
Qed.

(** The loop over the rows keeps [currentRowIndex] at the number of lines
    pushed so far, and pushes four lines for a row. *)
Lemma sheet_fold (lines : nat → LabDataRow → option (list (list SheetCell)))
    (rows : list LabDataRow) (dataRows : list (list SheetCell)) :
  (∀ row i, row ∈ rows → ∃ block, lines i row = Some block ∧ length block = 4%nat) →
  ∃ sheet,
    fold_left (λ (acc : option (list (list SheetCell) * nat)) row,
                 state ← acc;
                 block ← lines state.2 row;
                 Some (state.1 ++ block, (state.2 + 4)%nat))
              rows (Some (dataRows, length dataRows))
    = Some (sheet, length sheet) ∧
    length sheet = (length dataRows + 4 * length rows)%nat ∧
    (∀ i, (i < length dataRows)%nat → sheet !! i = dataRows !! i) ∧
    ∀ k row, rows !! k = Some row →
      ∃ block, lines (length dataRows + 4 * k)%nat row = Some block ∧
               ∀ i, (i < 4)%nat → sheet !! (length dataRows + 4 * k + i)%nat = block !! i.
Proof.
  revert dataRows. induction rows as [|row rows IH]; intros dataRows H.
  - exists dataRows. cbn [fold_left length]. split; [done|]. split; [lia|].
    split; [done|]. by intros k row.
  - destruct (H row (length dataRows)) as (block & Hb & Hlen); [left|].
    cbn [fold_left]. cbn [mbind option_bind fst snd]. rewrite Hb. cbn [mbind option_bind].
    destruct (IH (dataRows ++ block)) as (sheet & Hfold & Hl & Hpre & Hrows).
    { intros r i Hr. apply H. by right. }
    rewrite length_app, Hlen in *. exists sheet. split; [exact Hfold|].
    split; [cbn [length]; lia|]. split.
    + intros i Hi. rewrite Hpre by lia. by apply lookup_app_l.
    + intros [|k] r Hk.
      * injection Hk as <-. exists block. rewrite Nat.mul_0_r, Nat.add_0_r.
        split; [done|]. intros i Hi. rewrite Hpre by lia.
        by rewrite lookup_app_r, Nat.add_comm, Nat.add_sub by lia.
      * destruct (Hrows k r Hk) as (b & Hb' & Hi').
        replace (length dataRows + 4 * S k)%nat with (length dataRows + 4 + 4 * k)%nat by lia.
        by exists b.
Qed.

Lemma parsed_id_not_prototype (cmp : string → string → Z) fileName_ now rawRows d row :
  CsvService.parseLabDataCsv cmp fileName_ now rawRows = CsvService.Resolved d →
  row ∈ data d → id row ∉ JsObject.prototypeKeys.
Proof.
  intros (rows & headerRow & _ & _ & _ & Hd)%parsed_data Hrow. rewrite Hd in Hrow.
  apply elem_of_rowsFrom in Hrow as (k & cells & _ & _ & ->).
  cbn [CsvService.buildRow id]. unfold JsObject.prototypeKeys. intros Hin.
  repeat (apply elem_of_cons in Hin as [Hin|Hin]; [by discriminate Hin|]).
  by apply elem_of_nil in Hin.
Qed.

(** A record of a file that was read has a value under every column of the
    report. *)
Lemma parsed_report_value (cmp cmpDe : string → string → Z) fileName_ now rawRows d row h :
  CsvService.parseLabDataCsv cmp fileName_ now rawRows = CsvService.Resolved d →
  row ∈ data d → h ∈ orderedHeaders cmpDe d → is_Some (results row !! name h).
Proof.
  intros Hparse Hrow (Hrel & _)%elem_of_orderedHeaders.
  unfold allRelevantHeaders in Hrel. apply list_elem_of_In, filter_In in Hrel as [Hh Hrel].
  apply elem_of_dom. rewrite (parsed_results _ _ _ _ _ _ Hparse Hrow).
  apply elem_of_difference. split; [by apply elem_of_list_to_set, list_elem_of_In|].
  intros E%elem_of_singleton. rewrite E in Hrel. by vm_compute in Hrel.
Qed.

End sheet_facts.

(** X19. For a file that was read, building the lines of the sheet
    "Nachmessung" never raises. The sheet starts with the line of the
    column titles and has four lines for every row of the report, in the
    order of the report: the line of the values, with the series id, the
    sample id and the repeat flag in front and, for every column of the
    report, the row's value under that header, as a number where it reads as
    one; the line of the marks, ["x"] in the cells that are not active; the
    line of the formulas; and an empty line. Each line has a cell for every
    column after its three leading cells. The formula under a column
    refers to the cell of the value and the cell of the mark of that same
    row and column. *)
Theorem X19_nachmessung_sheet
    (localeCompare localeCompareDe localeCompareNumeric : string → string → Z)
    (fileName_ : string) (now : Z) (rawRows : option (list (option (list string))))
    (d : ParsedDataset) (selection : SelectionState) :
  CsvService.parseLabDataCsv localeCompare fileName_ now rawRows = CsvService.Resolved d →
  let headers := ReportView.orderedHeaders localeCompareDe d in
  let rows := ReportView.reportRows localeCompareNumeric d selection in
  ∃ sheet,
    ReportView.nachmessungRows localeCompareDe localeCompareNumeric d selection = Some sheet ∧
    length sheet = (1 + 4 * length rows)%nat ∧
    sheet !! 0%nat
    = Some (map ReportView.TextCell
              (["Serie"; "Probe"; "Wdh."] ++ map ReportView.name headers)) ∧
    ∀ k row, rows !! k = Some row →
      ∃ line1 line2 line3,
        sheet !! (4 * k + 1)%nat = Some line1 ∧
        sheet !! (4 * k + 2)%nat = Some line2 ∧
        sheet !! (4 * k + 3)%nat = Some line3 ∧
        sheet !! (4 * k + 4)%nat = Some [] ∧
        take 3 line1
        = map ReportView.TextCell
              [seriesId row; sampleId row; if isRepeat row then "2" else "1"] ∧
        take 3 line2 = map ReportView.TextCell [""; "Neu:"; ""] ∧
        take 3 line3 = map ReportView.TextCell [""; "Abw. %:"; ""] ∧
        length line1 = (3 + length headers)%nat ∧
        length line2 = (3 + length headers)%nat ∧
        length line3 = (3 + length headers)%nat ∧
        ∀ j h, headers !! j = Some h →
          (∃ v, results row !! ReportView.name h = Some v ∧
                line1 !! (3 + j)%nat
                = Some (let numVal :=
                          JsNumber.parseFloat (JsString.replaceFirstChar "," "." v) in
                        if JsNumber.isNaN numVal then ReportView.TextCell v
                        else ReportView.NumberCell numVal)) ∧
          (∃ active,
             ReportView.isCellActive selection row (ReportView.baseName h)
               (ReportView.name h) = Some active ∧
             line2 !! (3 + j)%nat
             = Some (ReportView.TextCell (if active then "" else "x"))) ∧
          (∃ newCellRef oldCellRef,
             line3 !! (3 + j)%nat = Some (ReportView.FormulaCell newCellRef oldCellRef) ∧
             cellAt sheet oldCellRef = line1 !! (3 + j)%nat ∧
             cellAt sheet newCellRef = line2 !! (3 + j)%nat).
Proof.
  intros Hparse headers rows.
  assert (∀ row, row ∈ rows → row ∈ data d) as Hrows.
  { intros row Hrow. unfold rows, ReportView.reportRows in Hrow.
    rewrite sort_Permutation in Hrow. by apply list_elem_of_In, filter_In in Hrow as
      [Hrow%list_elem_of_In _]. }
  set (value := λ (row : LabDataRow) (h : ReportView.OrderedHeader),
                  default "" (results row !! ReportView.name h)).
  set (active := λ (row : LabDataRow) (h : ReportView.OrderedHeader),
                   default false (ReportView.isCellActive selection row
                                    (ReportView.baseName h) (ReportView.name h))).
  assert (∀ row h, row ∈ rows → h ∈ headers →
            results row !! ReportView.name h = Some (value row h)) as Hvalue.
  { intros row h Hrow Hh. unfold value.
    by destruct (parsed_report_value _ localeCompareDe _ _ _ _ row h Hparse (Hrows row Hrow) Hh)
      as [v ->]. }
  assert (∀ row h, row ∈ rows → h ∈ headers →
            ReportView.isCellActive selection row (ReportView.baseName h)
              (ReportView.name h) = Some (active row h)) as Hactive.
  { intros row h Hrow Hh. unfold active. rewrite isCellActive_spec; [done| |].
    - right. by apply (parsed_id_not_prototype _ _ _ _ _ _ Hparse), Hrows.
    - left. exact (parsed_report_value _ localeCompareDe _ _ _ _ row h Hparse
                     (Hrows row Hrow) Hh). }
  pose proof (λ row i (Hrow : row ∈ rows),
                rowLines_Some selection headers i row (value row) (active row)
                  (λ h, Hvalue row h Hrow) (λ h, Hactive row h Hrow)) as Hlines.
  destruct (sheet_fold (ReportView.rowLines selection headers) rows
              [map ReportView.TextCell
                 (["Serie"; "Probe"; "Wdh."] ++ map ReportView.name headers)])
    as (sheet & Hfold & Hlen & Hpre & Hblocks).
  { intros row i Hrow. eexists. split; [by apply Hlines|done]. }
  exists sheet. split.
  { unfold ReportView.nachmessungRows. cbv zeta. fold headers rows.
    cbn [length] in Hfold. by rewrite Hfold. }
  cbn [length] in Hlen, Hpre, Hblocks. split; [lia|]. split; [by rewrite Hpre by lia|].
  intros k row Hk.
  assert (row ∈ rows) as Hrow by (by eapply list_elem_of_lookup_2).
  destruct (Hblocks k row Hk) as (block & Hb & Hi). rewrite (Hlines _ _ Hrow) in Hb.
  injection Hb as <-.
  pose proof (Hi 0%nat ltac:(lia)) as H0. pose proof (Hi 1%nat ltac:(lia)) as H1.
  pose proof (Hi 2%nat ltac:(lia)) as H2. pose proof (Hi 3%nat ltac:(lia)) as H3.
  cbn [lookup list_lookup] in H0, H1, H2, H3.
  replace (1 + 4 * k + 0)%nat with (4 * k + 1)%nat in H0 by lia.
  replace (1 + 4 * k + 1)%nat with (4 * k + 2)%nat in H1 by lia.
  replace (1 + 4 * k + 2)%nat with (4 * k + 3)%nat in H2 by lia.
  replace (1 + 4 * k + 3)%nat with (4 * k + 4)%nat in H3 by lia.
  eexists _, _, _. split; [exact H0|]. split; [exact H1|]. split; [exact H2|].
  split; [exact H3|]. split; [done|]. split; [done|]. split; [done|].
  split; [by cbn [app length]; rewrite length_map|].
  split; [by cbn [app length]; rewrite length_map|].
  split; [by cbn [app length]; rewrite length_imap|].
  intros j h Hj.
  assert (h ∈ headers) as Hh by (by eapply list_elem_of_lookup_2).
  split; [|split].
  - exists (value row h). split; [by apply Hvalue|].
    by rewrite lookup_after3, lookup_map, Hj.
  - exists (active row h). split; [by apply Hactive|].
    rewrite lookup_after3, lookup_map, Hj. cbn.
    by destruct (active row h).
  - eexists _, _. split.
    + by rewrite lookup_after3, list_lookup_imap, Hj.
    + unfold cellAt. cbn [ReportView.refRow ReportView.refColumn].
      replace (k + (k + (k + (k + 0))) + 1)%nat with (4 * k + 1)%nat by lia.
      replace (k + (k + (k + (k + 0))) + 2)%nat with (4 * k + 2)%nat by lia.
      rewrite H0, H1. cbn [mbind option_bind].
      by rewrite (Nat.add_comm j 3).
Qed.

Lemma X19_nachmessung_sheet_witness :
  ∃ d, CsvService.parseLabDataCsv codeCompare "serie.csv" 0 (Some example_file)
       = CsvService.Resolved d ∧
       ∃ sheet,
         ReportView.nachmessungRows codeCompare codeCompare d
           {| selectedRowIds := {["row-2"]}; rowParams := {[ "row-2" := {["ICCa"]} ]} |}
         = Some sheet ∧
         length sheet = 5%nat ∧
         sheet !! 3%nat
         = Some (map ReportView.TextCell [""; "Abw. %:"; ""] ++
                 [ ReportView.FormulaCell
                     {| ReportView.refColumn := 3; ReportView.refRow := 3 |}
                     {| ReportView.refColumn := 3; ReportView.refRow := 2 |};
                   ReportView.FormulaCell
                     {| ReportView.refColumn := 4; ReportView.refRow := 3 |}
                     {| ReportView.refColumn := 4; ReportView.refRow := 2 |};
                   ReportView.FormulaCell
                     {| ReportView.refColumn := 5; ReportView.refRow := 3 |}
                     {| ReportView.refColumn := 5; ReportView.refRow := 2 |} ]).
Proof.
  eexists. split; [reflexivity|].
  match goal with
  | |- context [ReportView.nachmessungRows _ _ ?d ?sel] =>
      destruct (X19_nachmessung_sheet codeCompare codeCompare codeCompare "serie.csv" 0
                  (Some example_file) d sel eq_refl) as (sheet & E & Hlen & _)
  end.
  exists sheet. split; [exact E|]. split; [by rewrite Hlen|].
  vm_compute in E. injection E as <-. reflexivity.
Defined.

(** ** The CSV export of the ion-balance table *)

Section export_facts.
Import JsString IonBalanceAnalysis IonBalanceAnalysis.

Lemma append_snoc (a : string) (c : ascii) (b : string) :
  (a +:+ String c "") +:+ b = a +:+ String c b.
Proof. induction a as [|x a IH]; [done|]. rewrite !append_String. by rewrite IH. Qed.

(** Reading the inside of a field written by [escape]. *)
Lemma readFields_doubleQuotes (val acc rest : string) :
  readFields InQuoted acc (doubleQuotes val +:+ String doubleQuote rest)
  = readFields AfterQuote (acc +:+ val) rest.
Proof.
  revert acc. induction val as [|c val IH]; intros acc.
  - rewrite append_empty_l, append_empty_r. cbn [readFields].
    by rewrite bool_decide_eq_true_2.
  - cbn [doubleQuotes]. case_decide as Hc.
    + subst c. rewrite !append_String. cbn [readFields].
      rewrite !bool_decide_eq_true_2 by done. by rewrite IH, append_snoc.
    + rewrite append_String. cbn [readFields].
      rewrite bool_decide_eq_false_2 by done. by rewrite IH, append_snoc.
Qed.

Lemma readFields_written_last (text val : string) :
  Written text val → readFields FieldStart "" text = Some [val].
Proof.
  intros [v| |]; [|done..]. unfold escape. cbn [readFields].
  rewrite bool_decide_eq_true_2 by done. rewrite readFields_doubleQuotes.
  by rewrite append_empty_l.
Qed.

Lemma readFields_written (text val rest : string) :
  Written text val →
  readFields FieldStart "" (text +:+ ";" +:+ rest)
  = cons val <$> readFields FieldStart "" rest.
Proof.
  intros [v| |]; [|done..]. unfold escape. rewrite append_String. cbn [readFields].
  rewrite bool_decide_eq_true_2 by done.
  rewrite append_snoc, readFields_doubleQuotes, append_empty_l. done.
Qed.

Lemma readLine_join (texts vals : list string) :
  Forall2 Written texts vals → texts ≠ [] →
  readLine (JsArray.join ";" texts) = Some vals.
Proof.
  unfold readLine. induction 1 as [|text val texts vals Hw Hrest IH]; [done|]. intros _.
  destruct Hrest as [|text' val' texts vals Hw' Hrest].
  - by apply readFields_written_last.
  - change (JsArray.join ";" (text :: text' :: texts))
      with (text +:+ ";" +:+ JsArray.join ";" (text' :: texts)).
    rewrite (readFields_written _ val) by done. by rewrite IH.
Qed.

End export_facts.

(** X20. The line that the CSV export writes for a row has eleven fields.
    Read the way a reader of CSV files reads a line with semicolons, it
    gives back the texts they were written from, whatever semicolons and
    double quotes these hold: the sample id, the word for the repeat flag,
    the alkalinity, organic carbon and conductivity values, the four
    formatted numbers, the remark and the comment of the row, the empty
    text for one that is missing. [escape] writes different texts
    differently. For a row whose id is a property name of
    [Object.prototype] and has no comment, writing the line raises. *)
Theorem X20_export_line (comments : gmap string string) (row : LabDataRow)
    (analysis : RowAnalysis) :
  (is_Some (comments !! id row) ∨ id row ∉ JsObject.prototypeKeys →
   ∃ fields,
     IonBalanceAnalysis.csvFields comments row analysis = Some fields ∧
     length fields = 11%nat ∧
     readLine (JsArray.join ";" fields)
     = Some [ sampleId row;
              if isRepeat row then "ja" else "nein";
              default "" (valAlkalinity analysis);
              default "" (valCorg analysis);
              valCond analysis;
              IonBalanceAnalysis.formatGermanFloat (numQuotientElf analysis) 2;
              IonBalanceAnalysis.formatGermanFloat (numQuotientIons analysis) 2;
              IonBalanceAnalysis.formatGermanFloat (numTheoCond analysis) 1;
              IonBalanceAnalysis.formatGermanFloat (calculatedCondQuotient analysis) 2;
              bem analysis;
              default "" (comments !! id row) ]) ∧
  (comments !! id row = None → id row ∈ JsObject.prototypeKeys →
   IonBalanceAnalysis.csvFields comments row analysis = None) ∧
  (∀ val, readLine (IonBalanceAnalysis.escape val) = Some [default "" val]) ∧
  (∀ val val', IonBalanceAnalysis.escape val = IonBalanceAnalysis.escape val' →
               default "" val = default "" val') ∧
  IonBalanceAnalysis.escape (Some (String IonBalanceAnalysis.doubleQuote "a;b"))
  = String IonBalanceAnalysis.doubleQuote
      (String IonBalanceAnalysis.doubleQuote
         (String IonBalanceAnalysis.doubleQuote
            ("a;b" +:+ String IonBalanceAnalysis.doubleQuote ""))) ∧
  IonBalanceAnalysis.doubleQuote = ascii_of_nat 34.
Proof.
  assert (∀ val, readLine (IonBalanceAnalysis.escape val) = Some [default "" val]) as Hread.
  { intros val. apply readFields_written_last. constructor. }
  split; [|split; [|split; [done|split; [|by vm_compute]]]].
  - intros Hid. unfold IonBalanceAnalysis.csvFields, JsObject.get.
    destruct (comments !! id row) as [comment|] eqn:E.
    + eexists. split; [done|]. split; [done|]. apply readLine_join; [|done].
      repeat first [apply Forall2_nil_2 | apply Forall2_cons_2];
        try (apply (Written_escape (Some _))); try apply Written_escape.
      destruct (isRepeat row); constructor.
    + destruct Hid as [[? [=]]|Hid]. rewrite decide_False by done.
      eexists. split; [done|]. split; [done|]. apply readLine_join; [|done].
      repeat first [apply Forall2_nil_2 | apply Forall2_cons_2];
        try (apply (Written_escape (Some _))); try apply Written_escape.
      destruct (isRepeat row); constructor.
  - intros E Hid. unfold IonBalanceAnalysis.csvFields, JsObject.get.
    by rewrite E, decide_True.
  - intros val val' E. pose proof (Hread val) as H1. rewrite E, Hread in H1.
    by injection H1.
Qed.